(** * custom-ai: the knowledge store, its relevance ranker and the
      completion gateway

    A shallow embedding of [lib/knowledgeBase.js] (class [KnowledgeBase])
    and [lib/geminiService.js] (class [GeminiService]), of the request
    handlers of the entries in [api/knowledge/index.js] and
    [api/knowledge/[id].js], and of three helpers of [lib/utils.js].

    Conventions of the embedding.
    - A JavaScript string is a [string] of code units below 256 (Latin-1);
      [toLowerCase], [trim] and the regular expression [\s] are modelled
      on that range.
    - A timestamp ([new Date().toISOString()], [Date.now()]) is the number
      of milliseconds as a [Z], and so is the stamp in the name of a
      backup; where the code orders names, the model renders them as
      [toISOString] does and orders the strings.
    - Asynchronous methods are functions in a state-and-exception monad
      over a [World]: the files, the clock, the random source, a script of
      injected I/O faults and the log of back-off sleeps.
    - The clock moves while a timer is awaited, and between the three
      reads of the clock that [createEntry] makes one after the other,
      by the amounts the world gives in [ticks].
    - The text of a file is modelled by what [JSON.parse] makes of it, and
      the values it parses to are typed (entries with string fields).
    - A field of a request body is a JSON value; an array in it holds
      strings.
    - Console output is not modelled. *)

From Stdlib Require Import ZArith String Ascii List Lia QArith_base.
From stdpp Require Import base list gmap strings sorting.

Open Scope string_scope.
Open Scope Z_scope.

(** ** JavaScript strings and arrays *)

Module Js.

(** [\s] and the characters [trim] removes, below code 256:
    TAB, LF, VT, FF, CR, SPACE and NBSP. *)
Definition is_whitespace (c : ascii) : bool :=
  let n := N_of_ascii c in
  ((9 <=? n)%N && (n <=? 13)%N) || (n =? 32)%N || (n =? 160)%N.

Definition lower_char (c : ascii) : ascii :=
  let n := N_of_ascii c in
  if ((65 <=? n)%N && (n <=? 90)%N)
     || ((192 <=? n)%N && (n <=? 222)%N && negb (n =? 215)%N)
  then ascii_of_N (n + 32) else c.

(** [s.toLowerCase()] *)
Fixpoint toLowerCase (s : string) : string :=
  match s with
  | EmptyString => EmptyString
  | String c r => String (lower_char c) (toLowerCase r)
  end.

(** [s.startsWith(t)] *)
Fixpoint startsWith (s t : string) : bool :=
  match t, s with
  | EmptyString, _ => true
  | String _ _, EmptyString => false
  | String b t', String a s' => Ascii.eqb a b && startsWith s' t'
  end.

(** [s.includes(t)]: [t] occurs in [s] as a substring. *)
Fixpoint includes (s t : string) : bool :=
  startsWith s t ||
  match s with
  | EmptyString => false
  | String _ r => includes r t
  end.

(** [s.trimStart()], [s.trimEnd()], [s.trim()] *)
Fixpoint trimStart (s : string) : string :=
  match s with
  | EmptyString => EmptyString
  | String c r => if is_whitespace c then trimStart r else s
  end.

Fixpoint trimEnd (s : string) : string :=
  match s with
  | EmptyString => EmptyString
  | String c r =>
      match trimEnd r with
      | EmptyString => if is_whitespace c then EmptyString else String c EmptyString
      | r' => String c r'
      end
  end.

Definition trim (s : string) : string := trimEnd (trimStart s).

(** [s.split(/\s+/)]: the pieces between maximal runs of whitespace.
    A leading or trailing run leaves an empty piece, and the empty
    string splits into one empty piece.  [in_run] says that the previous
    character was whitespace. *)
Fixpoint split_from (in_run : bool) (s : string) : list string :=
  match s with
  | EmptyString => [EmptyString]
  | String c r =>
      if is_whitespace c then
        if in_run then split_from true r
        else EmptyString :: split_from true r
      else
        match split_from false r with
        | w :: ws => String c w :: ws
        | [] => [String c EmptyString]
        end
  end.

Definition split_whitespace (s : string) : list string := split_from false s.

(** [parts.join(sep)] *)
Fixpoint join (sep : string) (parts : list string) : string :=
  match parts with
  | [] => EmptyString
  | [p] => p
  | p :: rest => p +:+ sep +:+ join sep rest
  end.

(** [arr.slice(0, stop)] for an integer [stop]: a negative [stop] counts
    from the end of the array. *)
Definition slice0 {A} (arr : list A) (stop : Z) : list A :=
  let len := Z.of_nat (length arr) in
  let k := if stop <? 0 then Z.max (len + stop) 0 else Z.min stop len in
  take (Z.to_nat k) arr.

(** [arr.sort(cmp)]: ECMAScript requires the sort to be stable; with a
    consistent comparator its result is the one of stable insertion. *)
Fixpoint sort_insert {A} (cmp : A -> A -> Z) (x : A) (sorted : list A) : list A :=
  match sorted with
  | [] => [x]
  | y :: rest => if cmp x y <=? 0 then x :: y :: rest
                 else y :: sort_insert cmp x rest
  end.

Definition sort {A} (cmp : A -> A -> Z) (arr : list A) : list A :=
  foldr (sort_insert cmp) [] arr.

(** [arr.findIndex(p)] ([None] for [-1]) and [arr.find(p)]. *)
Fixpoint findIndex {A} (p : A -> bool) (arr : list A) : option nat :=
  match arr with
  | [] => None
  | x :: rest => if p x then Some O else S <$> findIndex p rest
  end.

Fixpoint find {A} (p : A -> bool) (arr : list A) : option A :=
  match arr with
  | [] => None
  | x :: rest => if p x then Some x else find p rest
  end.

(** Thrown values. *)
Inductive ErrorClass := PlainError | SyntaxError | TypeError.

#[global] Instance ErrorClass_eq_dec : EqDecision ErrorClass.
Proof. solve_decision. Defined.

Record Error := mkError {
  err_class : ErrorClass;
  err_code : option string;
  err_message : option string
}.

Definition new_Error (message : string) : Error :=
  mkError PlainError None (Some message).

(** [`${error.message}`] *)
Definition message_text (e : Error) : string :=
  default "undefined" (err_message e).

Inductive Result (A : Type) :=
| Ok (a : A)
| Throw (e : Error).
Arguments Ok {A} a.
Arguments Throw {A} e.

(** Methods with effects: a state [S] is threaded through, and a method
    returns or throws. *)
Definition Eff (S A : Type) : Type := S -> Result A * S.

Definition ret {S A} (a : A) : Eff S A := fun s => (Ok a, s).
Definition throw {S A} (e : Error) : Eff S A := fun s => (Throw e, s).
Definition bind {S A B} (m : Eff S A) (k : A -> Eff S B) : Eff S B :=
  fun s => match m s with
           | (Ok a, s') => k a s'
           | (Throw e, s') => (Throw e, s')
           end.
(** [try { body } catch (e) { handler }] *)
Definition try_catch {S A} (body : Eff S A) (handler : Error -> Eff S A) : Eff S A :=
  fun s => match body s with
           | (Ok a, s') => (Ok a, s')
           | (Throw e, s') => handler e s'
           end.

Notation "x <- m ;; k" := (bind m (fun x => k))
  (at level 100, m at next level, right associativity).

End Js.

(** ** Dates as ECMAScript renders them *)

Module Dates.

(** The time value of a [Date] is a number of milliseconds since the
    epoch; the functions below are those of the language specification,
    for a time value in the range of [Date]. *)
Definition msPerDay : Z := 86400000.
Definition Day (t : Z) : Z := t / msPerDay.
Definition TimeWithinDay (t : Z) : Z := t mod msPerDay.
Definition DayFromYear (y : Z) : Z :=
  365 * (y - 1970) + (y - 1969) / 4 - (y - 1901) / 100 + (y - 1601) / 400.
Definition TimeFromYear (y : Z) : Z := msPerDay * DayFromYear y.

(** The largest [y] with [TimeFromYear y <= t]: the mean year has
    31556952000 ms, and the quotient is off by one year at most. *)
Definition YearFromTime (t : Z) : Z :=
  let y := 1970 + t / 31556952000 in
  if t <? TimeFromYear y then y - 1
  else if TimeFromYear (y + 1) <=? t then y + 1
  else y.

(** 1 in a leap year, 0 otherwise. *)
Definition InLeapYear (y : Z) : Z :=
  if ((y mod 4 =? 0) && negb (y mod 100 =? 0)) || (y mod 400 =? 0) then 1 else 0.

Definition DayWithinYear (t : Z) : Z := Day t - DayFromYear (YearFromTime t).

Definition month_of (d leap : Z) : Z :=
  if d <? 31 then 0
  else if d <? 59 + leap then 1
  else if d <? 90 + leap then 2
  else if d <? 120 + leap then 3
  else if d <? 151 + leap then 4
  else if d <? 181 + leap then 5
  else if d <? 212 + leap then 6
  else if d <? 243 + leap then 7
  else if d <? 273 + leap then 8
  else if d <? 304 + leap then 9
  else if d <? 334 + leap then 10
  else 11.

Definition date_of (d leap : Z) : Z :=
  if d <? 31 then d + 1
  else if d <? 59 + leap then d - 30
  else if d <? 90 + leap then d - 58 - leap
  else if d <? 120 + leap then d - 89 - leap
  else if d <? 151 + leap then d - 119 - leap
  else if d <? 181 + leap then d - 150 - leap
  else if d <? 212 + leap then d - 180 - leap
  else if d <? 243 + leap then d - 211 - leap
  else if d <? 273 + leap then d - 242 - leap
  else if d <? 304 + leap then d - 272 - leap
  else if d <? 334 + leap then d - 303 - leap
  else d - 333 - leap.

Definition MonthFromTime (t : Z) : Z :=
  month_of (DayWithinYear t) (InLeapYear (YearFromTime t)).
Definition DateFromTime (t : Z) : Z :=
  date_of (DayWithinYear t) (InLeapYear (YearFromTime t)).
Definition HourFromTime (t : Z) : Z := (t / 3600000) mod 24.
Definition MinFromTime (t : Z) : Z := (t / 60000) mod 60.
Definition SecFromTime (t : Z) : Z := (t / 1000) mod 60.
Definition msFromTime (t : Z) : Z := t mod 1000.

Definition digit (d : Z) : ascii := ascii_of_N (Z.to_N (48 + d)).

(** [n] in decimal, padded with zeros to [width] digits. *)
Fixpoint digits (width : nat) (n : Z) : string :=
  match width with
  | O => EmptyString
  | S w => digits w (n / 10) +:+ String (digit (n mod 10)) EmptyString
  end.

(** Four digits for the years 0 to 9999, a sign and six digits for the
    others. *)
Definition year_text (y : Z) : string :=
  if (0 <=? y) && (y <=? 9999) then digits 4 y
  else (if 0 <=? y then "+" else "-") +:+ digits 6 (Z.abs y).

(** [new Date(t).toISOString()] *)
Definition toISOString (t : Z) : string :=
  year_text (YearFromTime t) +:+ "-" +:+ digits 2 (MonthFromTime t + 1)
  +:+ "-" +:+ digits 2 (DateFromTime t)
  +:+ "T" +:+ digits 2 (HourFromTime t)
  +:+ ":" +:+ digits 2 (MinFromTime t)
  +:+ ":" +:+ digits 2 (SecFromTime t)
  +:+ "." +:+ digits 3 (msFromTime t) +:+ "Z".

(** [s.replace(/[:.]/g, '-')] *)
Fixpoint dashed (s : string) : string :=
  match s with
  | EmptyString => EmptyString
  | String c r =>
      String (if Ascii.eqb c ":" || Ascii.eqb c "." then "-"%char else c) (dashed r)
  end.

(** The comparison [arr.sort()] makes without a comparator: by code
    units, a proper prefix first. *)
Fixpoint compare_strings (a b : string) : Z :=
  match a, b with
  | EmptyString, EmptyString => 0
  | EmptyString, String _ _ => -1
  | String _ _, EmptyString => 1
  | String x a', String y b' =>
      if (N_of_ascii x <? N_of_ascii y)%N then -1
      else if (N_of_ascii y <? N_of_ascii x)%N then 1
      else compare_strings a' b'
  end.

(** The time values of the years 0000 to 9999, which [toISOString]
    writes with four digits. *)
Definition four_digit_year (t : Z) : Prop :=
  -62167219200000 <= t < 253402300800000.

(** The fields of a date in the order [toISOString] writes them, and the
    order of two such lists. *)
Definition date_fields (t : Z) : list Z :=
  [ YearFromTime t; MonthFromTime t + 1; DateFromTime t; HourFromTime t;
    MinFromTime t; SecFromTime t; msFromTime t ].

Fixpoint lex (l l' : list Z) : Z :=
  match l, l' with
  | x :: r, y :: r' => if x <? y then -1 else if y <? x then 1 else lex r r'
  | _, _ => 0
  end.

End Dates.

(** ** The relevance ranker and the entries *)

Module KnowledgeBase.
Import Js.

Definition Timestamp := Z.

Record KnowledgeEntry := mkEntry {
  id : string;
  key : string;
  value : string;
  tags : list string;
  createdAt : Timestamp;
  updatedAt : Timestamp
}.

(** [calculateRelevanceScore(entry, searchTerm)] *)
Definition calculateRelevanceScore (entry : KnowledgeEntry) (searchTerm : string) : Z :=
  let score := 0 in
  let key := toLowerCase (key entry) in
  let value := toLowerCase (value entry) in
  let tags := map toLowerCase (tags entry) in
  let score :=
    if String.eqb key searchTerm then score + 100
    else if includes key searchTerm then score + 50
    else score in
  let score := if existsb (String.eqb searchTerm) tags then score + 40 else score in
  let score := if includes value searchTerm then score + 20 else score in
  let keyWords := split_whitespace key in
  let searchWords := split_whitespace searchTerm in
  fold_left
    (fun score searchWord =>
       fold_left
         (fun score keyWord =>
            if includes keyWord searchWord || includes searchWord keyWord
            then score + 10 else score)
         keyWords score)
    searchWords score.

(** An element of a search result: the entry, and its [relevanceScore]
    when the query was scored. *)
Record SearchResult := mkResult {
  entry : KnowledgeEntry;
  relevanceScore : option Z
}.

Definition score_of (r : SearchResult) : Z := default 0 (relevanceScore r).

(** The body of [searchEntries] once the entries are loaded. *)
Definition searchEntries_in (entries : list KnowledgeEntry)
    (query : string) (limit : Z) : list SearchResult :=
  if String.eqb query "" || String.eqb (trim query) "" then
    slice0 (map (fun e => mkResult e None) entries) limit
  else
    let searchTerm := trim (toLowerCase query) in
    let results :=
      fold_left
        (fun results entry =>
           let score := calculateRelevanceScore entry searchTerm in
           if 0 <? score then (results ++ [mkResult entry (Some score)])%list
           else results)
        entries [] in
    slice0 (sort (fun a b => score_of b - score_of a) results) limit.

(** *** Documents, files and the world *)

(** The persisted aggregate:
    [{ entries, lastUpdated, version, recovered? }]. *)
Record KnowledgeBaseDocument := mkDocument {
  entries : list KnowledgeEntry;
  lastUpdated : option Timestamp;
  version : option string;
  recovered : bool
}.

(** What [JSON.parse] returns on the text of a file: a bare array of
    entries (the legacy shape), an object with an [entries] array,
    [null], or any other value (an object without an [entries] array, a
    number, ...). *)
Inductive Parsed :=
| PArray (es : list KnowledgeEntry)
| PDoc (d : KnowledgeBaseDocument)
| PNull
| PInvalid.

(** The text of a file: [Rendered v] parses to [v] (it is what
    [JSON.stringify] writes for [v]); [Garbage raw] makes [JSON.parse]
    throw a [SyntaxError]. *)
Inductive Text :=
| Garbage (raw : string)
| Rendered (v : Parsed).

(** The paths the store touches: [this.filePath], [this.filePath + '.tmp'],
    [data/corrupted-backup-<stamp>.json] and
    [backups/safety-backup-<stamp>.json]. *)
Inductive Path :=
| KbFile
| KbTmp
| CorruptedBackup (stamp : Timestamp)
| SafetyBackup (stamp : Timestamp).

Inductive Dir := DataDir | BackupDir.

Definition dirname (p : Path) : Dir :=
  match p with
  | SafetyBackup _ => BackupDir
  | _ => DataDir
  end.

#[global] Instance Path_eq_dec : EqDecision Path.
Proof. solve_decision. Defined.

Definition Path_code (p : Path) : bool + (Z + Z) :=
  match p with
  | KbFile => inl true
  | KbTmp => inl false
  | CorruptedBackup t => inr (inl t)
  | SafetyBackup t => inr (inr t)
  end.

Definition Path_decode (c : bool + (Z + Z)) : Path :=
  match c with
  | inl true => KbFile
  | inl false => KbTmp
  | inr (inl t) => CorruptedBackup t
  | inr (inr t) => SafetyBackup t
  end.

#[global] Instance Path_countable : Countable Path.
Proof.
  apply (inj_countable' Path_code Path_decode).
  intros []; reflexivity.
Defined.

Record World := mkWorld {
  files : gmap Path Text;
  dataDir : bool;              (* does [data/] exist *)
  backupDir : bool;            (* does [backups/] exist *)
  clock : Timestamp;           (* what [new Date()] reads *)
  entropy : list string;       (* [Math.random().toString(36).substr(2)], per call *)
  faults : list (option Error);(* per file-system call: the error it fails with *)
  sleeps : list Z;             (* the delays waited for, oldest first *)
  ticks : list Z               (* the time that passes between one read of the
                                  clock and the next in [createEntry] *)
}.

Definition set_files (f : gmap Path Text) (w : World) : World :=
  mkWorld f (dataDir w) (backupDir w) (clock w) (entropy w) (faults w) (sleeps w)
          (ticks w).

Definition set_dir (d : Dir) (w : World) : World :=
  match d with
  | DataDir => mkWorld (files w) true (backupDir w) (clock w) (entropy w) (faults w)
                       (sleeps w) (ticks w)
  | BackupDir => mkWorld (files w) (dataDir w) true (clock w) (entropy w) (faults w)
                         (sleeps w) (ticks w)
  end.

Definition has_dir (d : Dir) (w : World) : bool :=
  match d with DataDir => dataDir w | BackupDir => backupDir w end.

(** The monad of the asynchronous methods. *)
Definition M : Type -> Type := Eff World.

Definition set_faults (fs : list (option Error)) (w : World) : World :=
  mkWorld (files w) (dataDir w) (backupDir w) (clock w) (entropy w) fs (sleeps w)
          (ticks w).

Definition set_entropy (rs : list string) (w : World) : World :=
  mkWorld (files w) (dataDir w) (backupDir w) (clock w) rs (faults w) (sleeps w)
          (ticks w).

(** *** The platform: [fs/promises], [JSON], [Date], [Math.random], timers *)

Definition ENOENT : Error :=
  mkError PlainError (Some "ENOENT") (Some "ENOENT: no such file or directory").

(** Every file-system call first consults the fault script. *)
Definition fs_call : M unit :=
  fun w => match faults w with
           | Some e :: rest => (Throw e, set_faults rest w)
           | None :: rest => (Ok tt, set_faults rest w)
           | [] => (Ok tt, w)
           end.

Definition fs_access (d : Dir) : M unit :=
  _ <- fs_call ;;
  fun w => if has_dir d w then (Ok tt, w) else (Throw ENOENT, w).

(** [fs.mkdir(d, { recursive: true })] *)
Definition fs_mkdir (d : Dir) : M unit :=
  _ <- fs_call ;;
  fun w => (Ok tt, set_dir d w).

Definition fs_readFile (p : Path) : M Text :=
  _ <- fs_call ;;
  fun w => if has_dir (dirname p) w then
             match files w !! p with
             | Some t => (Ok t, w)
             | None => (Throw ENOENT, w)
             end
           else (Throw ENOENT, w).

Definition fs_writeFile (p : Path) (t : Text) : M unit :=
  _ <- fs_call ;;
  fun w => if has_dir (dirname p) w then (Ok tt, set_files (<[p := t]> (files w)) w)
           else (Throw ENOENT, w).

Definition fs_rename (from to : Path) : M unit :=
  _ <- fs_call ;;
  fun w => if has_dir (dirname from) w && has_dir (dirname to) w then
             match files w !! from with
             | Some t => (Ok tt, set_files (<[to := t]> (delete from (files w))) w)
             | None => (Throw ENOENT, w)
             end
           else (Throw ENOENT, w).

Definition in_dir (d : Dir) (p : Path) : bool :=
  match d, dirname p with
  | DataDir, DataDir | BackupDir, BackupDir => true
  | _, _ => false
  end.

Definition fs_readdir (d : Dir) : M (list Path) :=
  _ <- fs_call ;;
  fun w => if has_dir d w
           then (Ok (List.filter (in_dir d) (map fst (map_to_list (files w)))), w)
           else (Throw ENOENT, w).

Definition fs_unlink (p : Path) : M unit :=
  _ <- fs_call ;;
  fun w => if has_dir (dirname p) w then
             match files w !! p with
             | Some _ => (Ok tt, set_files (delete p (files w)) w)
             | None => (Throw ENOENT, w)
             end
           else (Throw ENOENT, w).

Definition syntax_error : Error :=
  mkError SyntaxError None (Some "Unexpected token in JSON").

Definition JSON_parse (t : Text) : M Parsed :=
  match t with
  | Garbage _ => throw syntax_error
  | Rendered v => ret v
  end.

Definition JSON_stringify (kb : KnowledgeBaseDocument) : Text := Rendered (PDoc kb).

(** [new Date()] and [Date.now()] *)
Definition Date_now : M Timestamp := fun w => (Ok (clock w), w).

(** [await new Promise(resolve => setTimeout(resolve, delay))] *)
Definition sleep (delay : Z) : M unit :=
  fun w => (Ok tt, mkWorld (files w) (dataDir w) (backupDir w) (clock w + delay)
                           (entropy w) (faults w) (sleeps w ++ [delay]) (ticks w)).

(** The time that passes between two statements that read the clock one
    after the other: the next amount of [ticks], none when the script
    is used up. *)
Definition elapse : M unit :=
  fun w => match ticks w with
           | d :: rest =>
               (Ok tt, mkWorld (files w) (dataDir w) (backupDir w) (clock w + d)
                               (entropy w) (faults w) (sleeps w) rest)
           | [] => (Ok tt, w)
           end.

(** [Math.random().toString(36).substr(2)]; an exhausted source answers
    as [Math.random() = 0] does. *)
Definition Math_random36 : M string :=
  fun w => match entropy w with
           | r :: rest => (Ok r, set_entropy rest w)
           | [] => (Ok EmptyString, w)
           end.

Definition digit36 (d : Z) : string :=
  String.substring (Z.to_nat d) 1 "0123456789abcdefghijklmnopqrstuvwxyz".

Fixpoint toString36_fuel (fuel : nat) (n : Z) : string :=
  match fuel with
  | O => EmptyString
  | S f => if n <? 36 then digit36 n
           else toString36_fuel f (n / 36) +:+ digit36 (n mod 36)
  end.

(** [n.toString(36)] for a natural number [n]. *)
Definition toString36 (n : Z) : string :=
  toString36_fuel (S (Z.to_nat (Z.log2 n))) n.

(** *** Loading and saving *)

Definition maxRetries : Z := 3.

(** [ensureDataDirectory()] *)
Definition ensureDataDirectory : M unit :=
  try_catch (fs_access DataDir) (fun _ => fs_mkdir DataDir).

(** [createCorruptionBackup()]: best effort, every failure is swallowed. *)
Definition createCorruptionBackup : M unit :=
  try_catch
    (timestamp <- Date_now ;;
     corruptedData <- fs_readFile KbFile ;;
     fs_writeFile (CorruptedBackup timestamp) corruptedData)
    (fun _ => ret tt).

Definition is_safety_backup (p : Path) : bool :=
  match p with SafetyBackup _ => true | _ => false end.

Definition stamp_of (p : Path) : Timestamp :=
  match p with
  | CorruptedBackup t | SafetyBackup t => t
  | _ => 0
  end.

(** [for (const file of filesToDelete) await fs.unlink(...)] *)
Fixpoint unlink_each (filesToDelete : list Path) : M unit :=
  match filesToDelete with
  | [] => ret tt
  | file :: rest => _ <- fs_unlink file ;; unlink_each rest
  end.

(** The name of the file at a path: the stamp of a backup is
    [new Date().toISOString().replace(/[:.]/g, '-')]. *)
Definition basename (p : Path) : string :=
  match p with
  | KbFile => "knowledge-base.json"
  | KbTmp => "knowledge-base.json.tmp"
  | CorruptedBackup t =>
      "corrupted-backup-" +:+ Dates.dashed (Dates.toISOString t) +:+ ".json"
  | SafetyBackup t =>
      "safety-backup-" +:+ Dates.dashed (Dates.toISOString t) +:+ ".json"
  end.

(** [createSafetyBackup()]: copies the file on disk to
    [backups/safety-backup-<stamp>.json] and keeps the five snapshots
    whose names come last in the order of [sort()], which compares the
    names as strings; every failure is swallowed. *)
Definition createSafetyBackup : M unit :=
  try_catch
    (_ <- fs_mkdir BackupDir ;;
     timestamp <- Date_now ;;
     currentData <- fs_readFile KbFile ;;
     _ <- fs_writeFile (SafetyBackup timestamp) currentData ;;
     backupFiles <- fs_readdir BackupDir ;;
     let safetyBackups :=
       rev (sort (fun a b => Dates.compare_strings (basename a) (basename b))
                 (List.filter is_safety_backup backupFiles)) in
     if (5 <? length safetyBackups)%nat
     then unlink_each (drop 5 safetyBackups)
     else ret tt)
    (fun _ => ret tt).

(** The two assignments [saveKnowledgeBase] makes to its argument:
    [lastUpdated = now] and [version = version || '1.0']. *)
Definition stamp_document (now : Timestamp) (kb : KnowledgeBaseDocument)
    : KnowledgeBaseDocument :=
  mkDocument (entries kb) (Some now)
    (Some match version kb with
          | Some v => if String.eqb v "" then "1.0" else v
          | None => "1.0"
          end)
    (recovered kb).

(** One pass through the [try] block of [saveKnowledgeBase].  The
    document is an object the block mutates, so the pass returns it next
    to its outcome: the assignments survive a later failure. *)
Definition saveAttempt (attempt : Z) (kb : KnowledgeBaseDocument)
    : World -> (KnowledgeBaseDocument * Result unit) * World :=
  fun w =>
    match ensureDataDirectory w with
    | (Throw e, w1) => ((kb, Throw e), w1)
    | (Ok _, w1) =>
        (* [entries] is an array by typing: the format check passes *)
        let kb1 := stamp_document (clock w1) kb in
        let '(r, w2) :=
          (_ <- (if attempt =? 1 then createSafetyBackup else ret tt) ;;
           _ <- fs_writeFile KbTmp (JSON_stringify kb1) ;;
           fs_rename KbTmp KbFile) w1 in
        ((kb1, r), w2)
    end.

(** The [for] loop of [saveKnowledgeBase]; [remaining] counts the
    iterations left, [attempt] is the loop variable. *)
Fixpoint saveLoop (remaining : nat) (attempt : Z) (lastError : option Error)
    (kb : KnowledgeBaseDocument) : M KnowledgeBaseDocument :=
  match remaining with
  | O =>
      match lastError with
      | Some e => throw (new_Error
          ("Failed to save knowledge base after 3 attempts: " +:+ message_text e))
      | None => throw (mkError TypeError None
          (Some "Cannot read properties of null (reading 'message')"))
      end
  | S k =>
      fun w =>
        match saveAttempt attempt kb w with
        | ((kb1, Ok _), w1) => (Ok kb1, w1)
        | ((kb1, Throw error), w1) =>
            if attempt <? maxRetries
            then (_ <- sleep (100 * attempt) ;;
                  saveLoop k (attempt + 1) (Some error) kb1) w1
            else saveLoop k (attempt + 1) (Some error) kb1 w1
        end
  end.

(** [saveKnowledgeBase(knowledgeBase)]; returns the document as the
    caller's reference sees it afterwards. *)
Definition saveKnowledgeBase (kb : KnowledgeBaseDocument) : M KnowledgeBaseDocument :=
  saveLoop (Z.to_nat maxRetries) 1 None kb.

(** How an iteration of the loop of [loadKnowledgeBase] ends when it
    does not throw. *)
Inductive Flow :=
| Return (kb : KnowledgeBaseDocument)
| NextAttempt (lastError : Error).

(** The [try] block of [loadKnowledgeBase]. *)
Definition loadAttempt : M KnowledgeBaseDocument :=
  _ <- ensureDataDirectory ;;
  data <- fs_readFile KbFile ;;
  parsed <- JSON_parse data ;;
  match parsed with
  | PArray legacy =>
      now <- Date_now ;;
      saveKnowledgeBase (mkDocument legacy (Some now) (Some "1.0") false)
  | PDoc kb => ret kb
  | PNull => throw (mkError TypeError None
               (Some "Cannot read properties of null (reading 'entries')"))
  | PInvalid => throw (new_Error
               "Invalid knowledge base format: entries must be an array")
  end.

(** The [catch] block of [loadKnowledgeBase]. *)
Definition loadCatch (attempt : Z) (error : Error) : M Flow :=
  if bool_decide (err_code error = Some "ENOENT") then
    now <- Date_now ;;
    kb <- saveKnowledgeBase (mkDocument [] (Some now) (Some "1.0") false) ;;
    ret (Return kb)
  else if bool_decide (err_class error = SyntaxError) && (attempt <? maxRetries) then
    _ <- createCorruptionBackup ;;
    now <- Date_now ;;
    kb <- saveKnowledgeBase (mkDocument [] (Some now) (Some "1.0") true) ;;
    ret (Return kb)
  else if attempt <? maxRetries then
    _ <- sleep (100 * attempt) ;;
    ret (NextAttempt error)
  else ret (NextAttempt error).

Fixpoint loadLoop (remaining : nat) (attempt : Z) (lastError : option Error)
    : M KnowledgeBaseDocument :=
  match remaining with
  | O =>
      match lastError with
      | Some e => throw (new_Error
          ("Failed to load knowledge base after 3 attempts: " +:+ message_text e))
      | None => throw (mkError TypeError None
          (Some "Cannot read properties of null (reading 'message')"))
      end
  | S k =>
      flow <- try_catch (kb <- loadAttempt ;; ret (Return kb)) (loadCatch attempt) ;;
      match flow with
      | Return kb => ret kb
      | NextAttempt error => loadLoop k (attempt + 1) (Some error)
      end
  end.

(** [loadKnowledgeBase()] *)
Definition loadKnowledgeBase : M KnowledgeBaseDocument :=
  loadLoop (Z.to_nat maxRetries) 1 None.

(** *** The operations on entries *)

(** [getAllEntries()] *)
Definition getAllEntries : M (list KnowledgeEntry) :=
  kb <- loadKnowledgeBase ;;
  ret (entries kb).

(** [getEntryById(id)]; [None] is [undefined]. *)
Definition getEntryById (i : string) : M (option KnowledgeEntry) :=
  entries <- getAllEntries ;;
  ret (find (fun entry => String.eqb (id entry) i) entries).

(** [generateId()] *)
Definition generateId : M string :=
  now <- Date_now ;;
  r <- Math_random36 ;;
  ret (toString36 now +:+ r).

Definition set_entries (es : list KnowledgeEntry) (kb : KnowledgeBaseDocument)
    : KnowledgeBaseDocument :=
  mkDocument es (lastUpdated kb) (version kb) (recovered kb).

(** [createEntry(key, value, tags)]: the id, [createdAt] and [updatedAt]
    come from three reads of the clock, one after the other. *)
Definition createEntry (k v : string) (ts : list string) : M KnowledgeEntry :=
  kb <- loadKnowledgeBase ;;
  newId <- generateId ;;
  _ <- elapse ;;
  created <- Date_now ;;
  _ <- elapse ;;
  updated <- Date_now ;;
  let newEntry := mkEntry newId (trim k) (trim v) ts created updated in
  let kb := set_entries (entries kb ++ [newEntry])%list kb in
  _ <- saveKnowledgeBase kb ;;
  ret newEntry.

(** The [updates] object of [updateEntry]: each field may be absent. *)
Record Updates := mkUpdates {
  u_id : option string;
  u_key : option string;
  u_value : option string;
  u_tags : option (list string);
  u_createdAt : option Timestamp;
  u_updatedAt : option Timestamp
}.

(** [{ ...existingEntry, ...updates, id: existingEntry.id, updatedAt: now }] *)
Definition merge_entry (existingEntry : KnowledgeEntry) (updates : Updates)
    (now : Timestamp) : KnowledgeEntry :=
  let spread :=
    mkEntry (default (id existingEntry) (u_id updates))
            (default (key existingEntry) (u_key updates))
            (default (value existingEntry) (u_value updates))
            (default (tags existingEntry) (u_tags updates))
            (default (createdAt existingEntry) (u_createdAt updates))
            (default (updatedAt existingEntry) (u_updatedAt updates)) in
  mkEntry (id existingEntry) (key spread) (value spread) (tags spread)
          (createdAt spread) now.

Definition not_found (i : string) : Error :=
  new_Error ("Entry with ID " +:+ i +:+ " not found").

Definition undefined_entry : Error :=
  mkError TypeError None (Some "Cannot read properties of undefined (reading 'id')").

(** [updateEntry(id, updates)] *)
Definition updateEntry (i : string) (updates : Updates) : M KnowledgeEntry :=
  kb <- loadKnowledgeBase ;;
  match findIndex (fun entry => String.eqb (id entry) i) (entries kb) with
  | None => throw (not_found i)
  | Some entryIndex =>
      match entries kb !! entryIndex with
      | None => throw undefined_entry
      | Some existingEntry =>
          now <- Date_now ;;
          let updatedEntry := merge_entry existingEntry updates now in
          let kb := set_entries (<[entryIndex := updatedEntry]> (entries kb)) kb in
          _ <- saveKnowledgeBase kb ;;
          ret updatedEntry
      end
  end.

(** [deleteEntry(id)] *)
Definition deleteEntry (i : string) : M KnowledgeEntry :=
  kb <- loadKnowledgeBase ;;
  match findIndex (fun entry => String.eqb (id entry) i) (entries kb) with
  | None => throw (not_found i)
  | Some entryIndex =>
      match entries kb !! entryIndex with
      | None => throw undefined_entry
      | Some deletedEntry =>
          let kb := set_entries (delete entryIndex (entries kb)) kb in
          _ <- saveKnowledgeBase kb ;;
          ret deletedEntry
      end
  end.

(** [searchEntries(query, limit)] *)
Definition searchEntries (query : string) (limit : Z) : M (list SearchResult) :=
  entries <- getAllEntries ;;
  ret (searchEntries_in entries query limit).

Definition newline : string := String (ascii_of_nat 10) EmptyString.

(** [getRelevantContext(userMessage, maxEntries)] *)
Definition getRelevantContext (userMessage : string) (maxEntries : Z) : M string :=
  searchResults <- searchEntries userMessage maxEntries ;;
  if (length searchResults =? 0)%nat then ret EmptyString
  else
    let contextParts :=
      map (fun r => key (entry r) +:+ ": " +:+ value (entry r)) searchResults in
    ret (join (newline +:+ newline) contextParts).

Record Stats := mkStats {
  totalEntries : nat;
  stats_lastUpdated : option Timestamp;
  averageKeyLength : Q;
  averageValueLength : Q
}.

(** [sum / entries.length], as an exact fraction. *)
Definition average (lengths : list nat) : Q :=
  if (0 <? length lengths)%nat
  then Qmake (Z.of_nat (fold_left Nat.add lengths O)) (Pos.of_nat (length lengths))
  else Qmake 0 1.

(** [getStats()] *)
Definition getStats : M Stats :=
  entries <- getAllEntries ;;
  kb <- loadKnowledgeBase ;;
  ret (mkStats (length entries) (lastUpdated kb)
         (average (map (fun e => String.length (key e)) entries))
         (average (map (fun e => String.length (value e)) entries))).

End KnowledgeBase.

(** ** The completion gateway *)

Module GeminiService.
Import Js.

Record ModelTier := mkTier { name : string; tier : string }.

(** The fields of a [GeminiService] instance, and around it the clock,
    the calls made to the external service so far (model name and full
    prompt, oldest first) and the delays of the pending reset timers. *)
Record Gateway := mkGateway {
  modelTiers : list ModelTier;
  currentModelIndex : nat;
  lastFailureTime : option Z;
  retryDelay : Z;
  clock : Z;
  calls : list (string * string);
  timers : list Z
}.

(** The external completion service: what the call number [n] (counted
    from 0), made to a model with a prompt, answers. *)
Definition Service : Type := nat -> string -> string -> Result string.

Definition G : Type -> Type := Eff Gateway.

Definition defaultTiers : list ModelTier :=
  [ mkTier "gemini-2.0-flash-exp" "pro";
    mkTier "gemini-1.5-flash" "flash";
    mkTier "gemini-1.5-flash-8b" "flash-lite" ].

(** [new GeminiService()] when [GEMINI_API_KEY] is set, at time [now]. *)
Definition constructor (now : Z) : Gateway :=
  mkGateway defaultTiers 0 None 60000 now [] [].

Definition set_index (i : nat) (g : Gateway) : Gateway :=
  mkGateway (modelTiers g) i (lastFailureTime g) (retryDelay g)
            (clock g) (calls g) (timers g).

(** [switchToNextTier()] *)
Definition switchToNextTier : G bool :=
  fun g =>
    if (Z.of_nat (currentModelIndex g) <? Z.of_nat (length (modelTiers g)) - 1)
    then (Ok true, set_index (S (currentModelIndex g)) g)
    else (Ok false, g).

(** [resetToHighestTier()] *)
Definition resetToHighestTier : G unit :=
  fun g =>
    if (0 <? currentModelIndex g)%nat then (Ok tt, set_index 0 g)
    else (Ok tt, g).

Definition quotaErrorMessages : list string :=
  [ "quota exceeded"; "rate limit"; "too many requests";
    "resource exhausted"; "RATE_LIMIT_EXCEEDED"; "QUOTA_EXCEEDED" ].

(** [isQuotaError(error)] *)
Definition isQuotaError (error : Error) : bool :=
  let errorMessage :=
    match err_message error with
    | Some m => toLowerCase m
    | None => EmptyString
    end in
  existsb (fun msg => includes errorMessage msg) quotaErrorMessages.

Definition newline : string := String (ascii_of_nat 10) EmptyString.

Definition systemInstructions : string :=
  "You are a helpful AI assistant for an architectural company's customer support. "
  +:+ newline +:+
  "Your role is to provide accurate, professional, and friendly responses to customer inquiries."
  +:+ newline +:+ newline +:+
  "Guidelines:" +:+ newline +:+
  "- Use the provided knowledge base information when relevant" +:+ newline +:+
  "- If you don't have specific information, politely suggest contacting human support"
  +:+ newline +:+
  "- Keep responses concise but informative" +:+ newline +:+
  "- Maintain a professional yet friendly tone" +:+ newline +:+
  "- Focus on architectural services, pricing, processes, and general company information".

(** [constructPrompt(userMessage, knowledgeContext)] *)
Definition constructPrompt (userMessage knowledgeContext : string) : string :=
  let prompt := systemInstructions +:+ newline +:+ newline in
  let prompt :=
    if String.eqb knowledgeContext EmptyString then prompt
    else prompt +:+ "Relevant company information:" +:+ newline
                +:+ knowledgeContext +:+ newline +:+ newline in
  prompt +:+ "Customer question: " +:+ userMessage
         +:+ newline +:+ newline +:+ "Response:".

Definition undefined_tier : Error :=
  mkError TypeError None (Some "Cannot read properties of undefined (reading 'name')").

(** [this.modelTiers[this.currentModelIndex]] where a field of it is read. *)
Definition currentTier : G ModelTier :=
  fun g => match modelTiers g !! currentModelIndex g with
           | Some t => (Ok t, g)
           | None => (Throw undefined_tier, g)
           end.

Record Response := mkResponse {
  response : string;
  modelUsed : string;
  tier_used : string
}.

Definition exhausted : Error :=
  new_Error "All Gemini model tiers have reached their limits. Please try again later.".

Section WithService.
Variable service : Service.

(** [model.generateContent(fullPrompt)] on the model of [t]. *)
Definition generateContent (t : ModelTier) (fullPrompt : string) : G string :=
  fun g =>
    let g' := mkGateway (modelTiers g) (currentModelIndex g) (lastFailureTime g)
                        (retryDelay g) (clock g)
                        (calls g ++ [(name t, fullPrompt)]) (timers g) in
    (service (length (calls g)) (name t) fullPrompt, g').

(** The [try] block of [generateResponse]. *)
Definition generateAttempt (prompt knowledgeContext : string) : G Response :=
  t <- currentTier ;;
  let fullPrompt := constructPrompt prompt knowledgeContext in
  text <- generateContent t fullPrompt ;;
  _ <- (fun g =>
          if (0 <? currentModelIndex g)%nat
          then (Ok tt, mkGateway (modelTiers g) (currentModelIndex g)
                         (lastFailureTime g) (retryDelay g) (clock g) (calls g)
                         (timers g ++ [retryDelay g]))
          else (Ok tt, g)) ;;
  used <- currentTier ;;
  ret (mkResponse text (name used) (tier used)).

(** The [catch] block of [generateResponse]: [Ok tt] is [continue].  Its
    first statement reads the name of the current tier for the log. *)
Definition generateCatch (error : Error) : G unit :=
  _ <- currentTier ;;
  if isQuotaError error then
    switched <- switchToNextTier ;;
    if switched then ret tt
    else
      _ <- (fun g => (Ok tt, mkGateway (modelTiers g) (currentModelIndex g)
                               (Some (clock g)) (retryDelay g) (clock g)
                               (calls g) (timers g))) ;;
      throw exhausted
  else throw error.

(** The [for] loop of [generateResponse]; [remaining] counts the
    iterations left. *)
Fixpoint generateLoop (remaining : nat) (lastError : option Error)
    (prompt knowledgeContext : string) : G Response :=
  match remaining with
  | O => throw (default (new_Error "Failed to generate response after all retries")
                        lastError)
  | S k =>
      fun g =>
        match generateAttempt prompt knowledgeContext g with
        | (Ok r, g') => (Ok r, g')
        | (Throw error, g') =>
            (_ <- generateCatch error ;;
             generateLoop k (Some error) prompt knowledgeContext) g'
        end
  end.

(** [generateResponse(prompt, knowledgeContext)] *)
Definition generateResponse (prompt knowledgeContext : string) : G Response :=
  fun g => generateLoop (length (modelTiers g)) None prompt knowledgeContext g.

End WithService.

End GeminiService.

(** ** What the specification says, in its own words *)

Module Spec.
Import Js KnowledgeBase.

(** Section 4.2, bullet by bullet, for a query [q]. *)
Definition key_bonus (e : KnowledgeEntry) (q : string) : Z :=
  if String.eqb (toLowerCase (key e)) q then 100
  else if includes (toLowerCase (key e)) q then 50
  else 0.

Definition tag_bonus (e : KnowledgeEntry) (q : string) : Z :=
  if existsb (fun t => String.eqb (toLowerCase t) q) (tags e) then 40 else 0.

Definition value_bonus (e : KnowledgeEntry) (q : string) : Z :=
  if includes (toLowerCase (value e)) q then 20 else 0.

(** One of the two words is a substring of the other. *)
Definition overlap (pair : string * string) : bool :=
  includes (snd pair) (fst pair) || includes (fst pair) (snd pair).

(** The pairs (query word, key word) that overlap. *)
Definition overlapping_pairs (e : KnowledgeEntry) (q : string) : list (string * string) :=
  List.filter overlap
    (list_prod (split_whitespace q) (split_whitespace (toLowerCase (key e)))).

Definition additive_score (e : KnowledgeEntry) (q : string) : Z :=
  key_bonus e q + tag_bonus e q + value_bonus e q
  + 10 * Z.of_nat (length (overlapping_pairs e q)).

(** A query that is empty or made of whitespace only. *)
Definition blank (query : string) : Prop :=
  Forall (fun c => is_whitespace c = true) (list_ascii_of_string query).

(** The query as [searchEntries] normalises it. *)
Definition normalized (query : string) : string := trim (toLowerCase query).

Definition scored (q : string) (e : KnowledgeEntry) : SearchResult :=
  mkResult e (Some (calculateRelevanceScore e q)).

Definition unscored (e : KnowledgeEntry) : SearchResult := mkResult e None.

(** Descending by score. *)
Definition descending (rs : list SearchResult) : Prop :=
  StronglySorted (fun a b => score_of b <= score_of a) rs.

(** The entries the store holds, as the file on disk describes them. *)
Definition stored_entries (w : World) : list KnowledgeEntry :=
  match files w !! KbFile with
  | Some (Rendered (PDoc d)) => entries d
  | Some (Rendered (PArray es)) => es
  | _ => []
  end.

(** The file system answers every call ([faults] is empty). *)
Definition reliable (w : World) : Prop := faults w = [].

(** The file holds the document [d]. *)
Definition holds (w : World) (d : KnowledgeBaseDocument) : Prop :=
  files w !! KbFile = Some (Rendered (PDoc d)).

(** The file parses to something that is neither a list of entries nor
    a document. *)
Definition malformed (w : World) : Prop :=
  files w !! KbFile = Some (Rendered PNull) \/
  files w !! KbFile = Some (Rendered PInvalid).

(** Section 4.1 on text that does not parse: the load backs off and
    tries again, and then resets to an empty document flagged
    [recovered]. *)
Definition recovers_after_retries (w : World) : Prop :=
  exists kb w', loadKnowledgeBase w = (Ok kb, w')
                /\ entries kb = [] /\ recovered kb = true
                /\ sleeps w' <> sleeps w.

(** A read that writes: on a reliable file system the operation [op]
    creates the document when the file is absent, migrates a legacy array,
    resets text that does not parse, and leaves the files as they are
    when the file holds a document; when [op] returns, the file is
    unchanged only in that last case. *)
Definition read_persists {A} (op : M A) : Prop :=
  forall w, reliable w ->
    (files w !! KbFile = None ->
     exists a w' kb, op w = (Ok a, w') /\ holds w' kb
                     /\ entries kb = [] /\ recovered kb = false)
    /\ (forall es, files w !! KbFile = Some (Rendered (PArray es)) ->
         exists a w' kb, op w = (Ok a, w') /\ holds w' kb /\ entries kb = es)
    /\ (forall raw, files w !! KbFile = Some (Garbage raw) ->
         exists a w' kb, op w = (Ok a, w') /\ holds w' kb
                         /\ entries kb = [] /\ recovered kb = true)
    /\ (forall d, holds w d -> exists a w', op w = (Ok a, w') /\ files w' = files w)
    /\ (forall a w', op w = (Ok a, w') ->
         files w' !! KbFile = files w !! KbFile -> exists d, holds w d).

(** The message of [e], compared without regard to case, contains one
    of the known quota phrases. *)
Definition has_quota_phrase (e : Error) : Prop :=
  exists phrase, phrase ∈ GeminiService.quotaErrorMessages
                 /\ includes (toLowerCase (default EmptyString (err_message e)))
                             (toLowerCase phrase) = true.

(** Neither empty nor whitespace only. *)
Definition filled (s : string) : Prop := trim s <> EmptyString.

(** The invariant of section 3 on a collection of entries. *)
Definition invariant (es : list KnowledgeEntry) : Prop :=
  NoDup (map id es) /\ Forall (fun e => filled (key e) /\ filled (value e)) es.

End Spec.

(** ** Worlds used in the proofs and in the examples *)

Module Worlds.
Import Js KnowledgeBase.

(** The world once [data/] exists. *)
Definition ready (w : World) : World :=
  if dataDir w then w else set_dir DataDir w.

(** What a step may change besides the snapshots in [backups/]. *)
Definition frame (w w' : World) : Prop :=
  faults w' = [] /\ clock w' = clock w /\ entropy w' = entropy w /\
  sleeps w' = sleeps w /\ dataDir w' = dataDir w /\
  forall p, is_safety_backup p = false -> files w' !! p = files w !! p.

(** What [saveKnowledgeBase] leaves behind. *)
Definition saved (w : World) (kb : KnowledgeBaseDocument) (w' : World) : Prop :=
  files w' !! KbFile = Some (JSON_stringify kb) /\
  faults w' = [] /\ clock w' = clock w /\ entropy w' = entropy w /\
  sleeps w' = sleeps w /\ dataDir w' = true /\
  forall t, files w' !! CorruptedBackup t = files w !! CorruptedBackup t.

(** An operation that returns when the load does, and then leaves the
    files as the load leaves them. *)
Definition loads_like {A} (op : M A) : Prop :=
  forall w, faults w = [] ->
    (forall kb wl, loadKnowledgeBase w = (Ok kb, wl) ->
       exists a w', op w = (Ok a, w') /\ files w' = files wl /\ faults w' = [])
    /\ (forall e wl, loadKnowledgeBase w = (Throw e, wl) ->
         exists w', op w = (Throw e, w')).

(** The entry [createEntry] makes in the world [w]. *)
Definition entry_made (w : World) (k v : string) (ts : list string) : KnowledgeEntry :=
  let created := clock w + nth 0 (ticks w) 0 in
  mkEntry (toString36 (clock w) +:+ hd EmptyString (entropy w))
          (trim k) (trim v) ts created (created + nth 1 (ticks w) 0).

Definition pricing : KnowledgeEntry :=
  mkEntry "e1" "Pricing" "Our rates" ["cost"] 10 10.
Definition plans : KnowledgeEntry :=
  mkEntry "e2" "Our Pricing Plans" "Monthly plans" ["pricing"] 20 20.
Definition contact : KnowledgeEntry :=
  mkEntry "e3" "Contact" "Call us about pricing" [] 30 30.
Definition hours : KnowledgeEntry :=
  mkEntry "e4" "Opening hours" "Nine to five" ["hours"] 40 40.

Definition shop : KnowledgeBaseDocument :=
  mkDocument [hours; contact; plans; pricing] (Some 40) (Some "1.0") false.

(** A world whose file holds [content], at a fixed time, with one
    random draw ready and a file system that answers [script]. *)
Definition world_of (content : option Text) (script : list (option Error)) : World :=
  mkWorld (match content with
           | Some t => {[ KbFile := t ]}
           | None => ∅
           end)
          true false 1700000000000 ["k3j9x"] script [] [].

Definition shop_world : World := world_of (Some (Rendered (PDoc shop))) [].
Definition legacy_world : World :=
  world_of (Some (Rendered (PArray [pricing; contact]))) [].
Definition corrupt_world : World := world_of (Some (Garbage "{oops")) [].
Definition empty_world : World := world_of None [].

(** A store with six snapshots on disk, older than the clock. *)
Definition crowded_world : World :=
  mkWorld (list_to_map
             [ (KbFile, Rendered (PDoc shop));
               (SafetyBackup 10, Garbage "a"); (SafetyBackup 60, Garbage "f");
               (SafetyBackup 30, Garbage "c"); (SafetyBackup 20, Garbage "b");
               (SafetyBackup 50, Garbage "e"); (SafetyBackup 40, Garbage "d") ])
          true true 1700000000000 [] [] [] [].




(** Five snapshots of 2023 on disk, at the first instant of the year
    10000. *)
Definition year_10000_world : World :=
  mkWorld (list_to_map
             [ (KbFile, Rendered (PDoc shop));
               (SafetyBackup 1700000000001, Garbage "a");
               (SafetyBackup 1700000000002, Garbage "b");
               (SafetyBackup 1700000000003, Garbage "c");
               (SafetyBackup 1700000000004, Garbage "d");
               (SafetyBackup 1700000000005, Garbage "e") ])
          true true 253402300800000 [] [] [] [].

Definition EIO : Error := mkError PlainError (Some "EIO") (Some "EIO: i/o error").

(** The first two reads of the file fail, the third finds text that
    does not parse. *)
Definition flaky_corrupt_world : World :=
  world_of (Some (Garbage "{oops")) [None; Some EIO; None; Some EIO].

End Worlds.

(** ** Services used in the examples *)

Module Services.
Import Js GeminiService.

Definition quota : Error :=
  mkError PlainError None (Some "429 Too Many Requests: Quota exceeded").
Definition forbidden : Error :=
  mkError PlainError None (Some "API key not valid").

(** The first two calls hit the quota, later ones answer. *)
Definition recovering : Service :=
  fun n _ _ => match n with
               | O | S O => Throw quota
               | _ => Ok "Hello"
               end.

Definition exhausted_everywhere : Service := fun _ _ _ => Throw quota.
Definition misconfigured : Service := fun _ _ _ => Throw forbidden.

End Services.

(** ** What a step of the store may change *)

Module Effects.
Import Js KnowledgeBase.

(** The backing file is as it was. *)
Definition kept (w w' : World) : Prop :=
  files w' !! KbFile = files w !! KbFile.

(** The backing file is as it was and no time was spent waiting. *)
Definition calm (w w' : World) : Prop :=
  files w' !! KbFile = files w !! KbFile /\
  sleeps w' = sleeps w /\ clock w' = clock w.

(** Every run of [m], whatever it answers, relates the worlds by [R]. *)
Definition keeps {A} (R : World -> World -> Prop) (m : M A) : Prop :=
  forall w r w', m w = (r, w') -> R w w'.

(** The stamps of the safety snapshots in [backups/]. *)
Definition has_snapshot (w : World) (t : Timestamp) : Prop :=
  is_Some (files w !! SafetyBackup t).

(** The script of ticks is as it was. *)
Definition steady (w w' : World) : Prop := ticks w' = ticks w.

(** Whatever [m] throws carries a [message]. *)
Definition worded {A} (m : M A) : Prop :=
  forall w e w', m w = (Throw e, w') -> is_Some (err_message e).

(** [m] never throws. *)
Definition returns {A} (m : M A) : Prop :=
  forall w, exists a w', m w = (Ok a, w').

End Effects.

(** ** Values of a parsed JSON text *)

Module Json.

(** A value as a handler finds it in a field of a parsed body.  An array
    holds strings, as the tags of the typed entries do; [VUndefined] is
    what reading an absent field gives. *)
Inductive Value :=
| VUndefined
| VNull
| VBool (b : bool)
| VNumber (n : Z)
| VString (s : string)
| VArray (items : list string)
| VObject.

(** [v] as a condition; [!v] is its negation. *)
Definition truthy (v : Value) : bool :=
  match v with
  | VUndefined | VNull => false
  | VBool b => b
  | VNumber n => negb (n =? 0)
  | VString s => negb (String.eqb s EmptyString)
  | VArray _ | VObject => true
  end.

(** [v === undefined] *)
Definition is_undefined (v : Value) : bool :=
  match v with VUndefined => true | _ => false end.

(** [typeof v === 'string'] *)
Definition is_string (v : Value) : bool :=
  match v with VString _ => true | _ => false end.

(** [Array.isArray(v)] *)
Definition isArray (v : Value) : bool :=
  match v with VArray _ => true | _ => false end.

End Json.

(** ** The HTTP handlers of the entries: [api/knowledge/index.js] and
       [api/knowledge/[id].js]

    The handlers of one request, on the store the module has already
    constructed.  A response is its [statusCode] and the object its
    [body] is the rendering of; the CORS headers are the same constants
    on every response and are left out. *)

Module Api.
Import Js KnowledgeBase Json.

(** The text of [req.body], by what [JSON.parse] makes of it and what
    [const { key, value, tags } = ...] then reads: text that does not
    parse, [null], or a value read field by field (a number, a string or
    an array has none of the three fields). *)
Inductive BodyText :=
| BadJson
| JsonNull
| JsonFields (key value tags : Value).

Record Fields := mkFields { f_key : Value; f_value : Value; f_tags : Value }.

Definition destructure_null : Error :=
  mkError TypeError None
    (Some "Cannot destructure property 'key' of 'JSON.parse(...)' as it is null.").

(** [const { key, value, tags } = JSON.parse(req.body)] *)
Definition parse_fields (body : BodyText) : M Fields :=
  match body with
  | BadJson => throw syntax_error
  | JsonNull => throw destructure_null
  | JsonFields k v t => ret (mkFields k v t)
  end.

Inductive Payload :=
| Failure (message code : string)
| EntryPayload (entry : KnowledgeEntry) (message : option string)
               (timestamp : Timestamp).

Record HttpResponse := mkHttp { statusCode : Z; payload : Payload }.

Definition fail (status : Z) (message code : string) : M HttpResponse :=
  ret (mkHttp status (Failure message code)).

(** [typeof v !== 'string' || v.trim() === ''] *)
Definition invalid_text (v : Value) : bool :=
  match v with
  | VString s => String.eqb (trim s) EmptyString
  | _ => true
  end.

(** [!v || typeof v !== 'string' || v.trim() === ''] *)
Definition missing_text (v : Value) : bool :=
  negb (truthy v) || invalid_text v.

(** [v.trim()], where [v] has passed the checks. *)
Definition trimmed (v : Value) : string :=
  match v with VString s => trim s | _ => EmptyString end.

(** The third argument of [createEntry] as the method keeps it:
    [Array.isArray(tags) ? tags : []]. *)
Definition tags_kept (v : Value) : list string :=
  match v with VArray items => items | _ => [] end.

(** [handleCreateEntry(req, headers)] *)
Definition handleCreateEntry (body : BodyText) : M HttpResponse :=
  fields <- parse_fields body ;;
  if missing_text (f_key fields) then
    fail 400 "Key is required and must be a non-empty string" "INVALID_KEY"
  else if missing_text (f_value fields) then
    fail 400 "Value is required and must be a non-empty string" "INVALID_VALUE"
  else
    try_catch
      (newEntry <- createEntry (trimmed (f_key fields)) (trimmed (f_value fields))
                     (tags_kept (if truthy (f_tags fields) then f_tags fields
                                 else VArray [])) ;;
       now <- Date_now ;;
       ret (mkHttp 201 (EntryPayload newEntry
                          (Some "Knowledge entry created successfully") now)))
      (fun _ => fail 500 "Failed to create knowledge entry" "CREATION_ERROR").

(** [handleGetEntry(req, id, headers)] *)
Definition handleGetEntry (i : string) : M HttpResponse :=
  try_catch
    (entry <- getEntryById i ;;
     match entry with
     | None => fail 404 "Knowledge entry not found" "ENTRY_NOT_FOUND"
     | Some e => now <- Date_now ;; ret (mkHttp 200 (EntryPayload e None now))
     end)
    (fun _ => fail 500 "Failed to retrieve knowledge entry" "RETRIEVAL_ERROR").

Definition no_updates : Updates := mkUpdates None None None None None None.

Definition set_key (k : string) (u : Updates) : Updates :=
  mkUpdates (u_id u) (Some k) (u_value u) (u_tags u) (u_createdAt u) (u_updatedAt u).
Definition set_value (v : string) (u : Updates) : Updates :=
  mkUpdates (u_id u) (u_key u) (Some v) (u_tags u) (u_createdAt u) (u_updatedAt u).
Definition set_tags (ts : list string) (u : Updates) : Updates :=
  mkUpdates (u_id u) (u_key u) (u_value u) (Some ts) (u_createdAt u) (u_updatedAt u).

(** [Object.keys(updates).length === 0] *)
Definition no_keys (u : Updates) : bool :=
  match u with
  | mkUpdates None None None None None None => true
  | _ => false
  end.

Definition undefined_message : Error :=
  mkError TypeError None
    (Some "Cannot read properties of undefined (reading 'includes')").

(** The [catch] block of [handleUpdateEntry] and of [handleDeleteEntry]:
    a thrown value whose message contains [not found] is answered 404. *)
Definition not_found_or (message code : string) (error : Error) : M HttpResponse :=
  match err_message error with
  | None => throw undefined_message
  | Some m =>
      if includes m "not found"
      then fail 404 "Knowledge entry not found" "ENTRY_NOT_FOUND"
      else fail 500 message code
  end.

(** [handleUpdateEntry(req, id, headers)] *)
Definition handleUpdateEntry (i : string) (body : BodyText) : M HttpResponse :=
  fields <- parse_fields body ;;
  let key := f_key fields in
  let value := f_value fields in
  let tags := f_tags fields in
  let updates := no_updates in
  if negb (is_undefined key) && invalid_text key then
    fail 400 "Key must be a non-empty string" "INVALID_KEY"
  else
    let updates :=
      if is_undefined key then updates
      else set_key (trimmed key) updates in
    if negb (is_undefined value) && invalid_text value then
      fail 400 "Value must be a non-empty string" "INVALID_VALUE"
    else
      let updates :=
        if is_undefined value then updates
        else set_value (trimmed value) updates in
      if negb (is_undefined tags) && negb (isArray tags) then
        fail 400 "Tags must be an array" "INVALID_TAGS"
      else
        let updates :=
          if is_undefined tags then updates
          else set_tags (tags_kept tags) updates in
        if no_keys updates then
          fail 400
            "At least one field (key, value, or tags) must be provided for update"
            "NO_UPDATE_DATA"
        else
          try_catch
            (updatedEntry <- updateEntry i updates ;;
             now <- Date_now ;;
             ret (mkHttp 200 (EntryPayload updatedEntry
                                (Some "Knowledge entry updated successfully") now)))
            (not_found_or "Failed to update knowledge entry" "UPDATE_ERROR").

(** [handleDeleteEntry(req, id, headers)] *)
Definition handleDeleteEntry (i : string) : M HttpResponse :=
  try_catch
    (deletedEntry <- deleteEntry i ;;
     now <- Date_now ;;
     ret (mkHttp 200 (EntryPayload deletedEntry
                        (Some "Knowledge entry deleted successfully") now)))
    (not_found_or "Failed to delete knowledge entry" "DELETE_ERROR").

End Api.

(** ** What a request asks for *)

Module Requests.
Import Js KnowledgeBase Json Api.

(** The [updates] that a body which passes the checks of
    [handleUpdateEntry] asks for. *)
Definition updates_given (k v t : Value) : Updates :=
  mkUpdates None
    (match k with VString s => Some (trim s) | _ => None end)
    (match v with VString s => Some (trim s) | _ => None end)
    (match t with VArray items => Some items | _ => None end)
    None None.

(** The first check of [handleUpdateEntry] that a body fails, as the
    message and the code of the answer. *)
Definition update_rejection (k v t : Value) : option (string * string) :=
  if negb (is_undefined k) && invalid_text k then
    Some ("Key must be a non-empty string", "INVALID_KEY")
  else if negb (is_undefined v) && invalid_text v then
    Some ("Value must be a non-empty string", "INVALID_VALUE")
  else if negb (is_undefined t) && negb (isArray t) then
    Some ("Tags must be an array", "INVALID_TAGS")
  else if is_undefined k && is_undefined v && is_undefined t then
    Some ("At least one field (key, value, or tags) must be provided for update",
          "NO_UPDATE_DATA")
  else None.

(** The id [generateId] would make in [w] is not among the stored ones. *)
Definition fresh_id (w : World) : Prop :=
  (toString36 (clock w) +:+ hd EmptyString (entropy w))
    ∉ map id (Spec.stored_entries w).

End Requests.

(** ** The helpers of [lib/utils.js] *)

Module Utils.
Import Js Json.

(** [str.replace(/[<>]/g, '')] *)
Fixpoint remove_angles (str : string) : string :=
  match str with
  | EmptyString => EmptyString
  | String c r =>
      if Ascii.eqb c "<" || Ascii.eqb c ">" then remove_angles r
      else String c (remove_angles r)
  end.

(** [sanitizeString(str)] *)
Definition sanitizeString (str : Value) : string :=
  match str with
  | VString s => trim (remove_angles s)
  | _ => EmptyString
  end.

(** [text.substring(0, stop)] for an integer [stop]: a negative [stop]
    is taken as 0, one beyond the end as the length. *)
Definition substring0 (text : string) (stop : Z) : string :=
  String.substring 0 (Z.to_nat stop) text.

(** [truncateText(text, maxLength)] for an integer [maxLength]. *)
Definition truncateText (text : Value) (maxLength : Z) : string :=
  match text with
  | VString t =>
      if Z.of_nat (String.length t) <=? maxLength then t
      else substring0 t (maxLength - 3) +:+ "..."
  | _ => EmptyString
  end.

(** [isEmptyOrWhitespace(str)] *)
Definition isEmptyOrWhitespace (str : Value) : bool :=
  negb (truthy str) || negb (is_string str)
  || match str with
     | VString s => (String.length (trim s) =? 0)%nat
     | _ => false
     end.

End Utils.

(** ** Lemmas on strings and arrays *)

Section ArrayFacts.
Import Js.

Lemma fold_count {A} (f : A -> bool) (l : list A) (acc : Z) :
  fold_left (fun score x => if f x then score + 10 else score) l acc
  = acc + 10 * Z.of_nat (length (List.filter f l)).
Proof.
  revert acc; induction l as [|x l IH]; intros acc; simpl.
  - lia.
  - rewrite IH. destruct (f x); simpl length; lia.
Qed.

Lemma fold_pairs {A B} (f : A * B -> bool) (xs : list A) (ys : list B) (acc : Z) :
  fold_left
    (fun score x =>
       fold_left (fun score y => if f (x, y) then score + 10 else score) ys score)
    xs acc
  = acc + 10 * Z.of_nat (length (List.filter f (list_prod xs ys))).
Proof.
  revert acc; induction xs as [|x xs IH]; intros acc; simpl.
  - lia.
  - rewrite IH, (fold_count (fun y => f (x, y))).
    rewrite List.filter_app, length_app.
    assert (E : forall l, length (List.filter f (List.map (fun y => (x, y)) l))
                          = length (List.filter (fun y => f (x, y)) l)).
    { induction l as [|y l IHl]; simpl; [reflexivity|].
      destruct (f (x, y)); simpl; rewrite IHl; reflexivity. }
    rewrite E. lia.
Qed.

Lemma fold_push {A B} (keep : A -> bool) (g : A -> B) (l : list A) (acc : list B) :
  fold_left (fun results x => if keep x then (results ++ [g x])%list else results) l acc
  = (acc ++ List.map g (List.filter keep l))%list.
Proof.
  revert acc; induction l as [|x l IH]; intros acc; simpl.
  - now rewrite app_nil_r.
  - rewrite IH. destruct (keep x); simpl; [|reflexivity].
    now rewrite <- app_assoc.
Qed.

(** [slice(0, limit)] keeps the first [limit] elements when [limit] is
    not negative. *)
Lemma slice0_take {A} (l : list A) (limit : Z) :
  0 <= limit -> slice0 l limit = take (Z.to_nat limit) l.
Proof.
  intros H. unfold slice0.
  destruct (limit <? 0) eqn:E; [apply Z.ltb_lt in E; lia|].
  destruct (Z.le_gt_cases limit (Z.of_nat (length l))) as [Hle|Hgt].
  - now rewrite Z.min_l.
  - rewrite Z.min_r by lia. rewrite Nat2Z.id.
    rewrite !take_ge; [reflexivity | lia | lia].
Qed.

(** A negative [limit] is not a count: it drops elements from the end. *)
Example slice0_negative : slice0 [1; 2; 3] (-1) = [1; 2].
Proof. reflexivity. Qed.

Lemma sort_insert_perm {A} (cmp : A -> A -> Z) (x : A) (l : list A) :
  sort_insert cmp x l ≡ₚ x :: l.
Proof.
  induction l as [|y l IH]; simpl; [reflexivity|].
  destruct (cmp x y <=? 0); [reflexivity|].
  rewrite IH. apply Permutation_swap.
Qed.

Lemma sort_perm {A} (cmp : A -> A -> Z) (l : list A) : sort cmp l ≡ₚ l.
Proof.
  induction l as [|x l IH]; simpl; [reflexivity|].
  fold (sort cmp l). now rewrite sort_insert_perm, IH.
Qed.

Section Sorting.
Context {A : Type} (sc : A -> Z).

Let cmp (a b : A) : Z := sc b - sc a.
Let above (a b : A) : Prop := sc b <= sc a.

Lemma sort_insert_sorted (x : A) (l : list A) :
  StronglySorted above l -> StronglySorted above (sort_insert cmp x l).
Proof.
  induction 1 as [|y l Hl IH Hy]; simpl.
  - repeat constructor.
  - destruct (cmp x y <=? 0) eqn:E.
    + apply Z.leb_le in E. unfold cmp in E.
      constructor; [now constructor|].
      constructor; [unfold above; lia|].
      eapply Forall_impl; [exact Hy|]. unfold above; simpl; intros; lia.
    + apply Z.leb_gt in E. unfold cmp in E.
      constructor; [exact IH|].
      rewrite sort_insert_perm. constructor; [unfold above; lia | exact Hy].
Qed.

Lemma sort_sorted (l : list A) : StronglySorted above (sort cmp l).
Proof.
  induction l as [|x l IH]; simpl; [constructor|].
  now apply sort_insert_sorted.
Qed.

(** Stability: the elements of one score keep their relative order. *)
Lemma sort_insert_stable (s : Z) (x : A) (l : list A) :
  filter (fun a => sc a = s) (sort_insert cmp x l)
  = filter (fun a => sc a = s) (x :: l).
Proof.
  induction l as [|y l IH]; simpl; [reflexivity|].
  destruct (cmp x y <=? 0) eqn:E; [reflexivity|].
  apply Z.leb_gt in E. unfold cmp in E.
  rewrite (filter_cons _ y), IH, !filter_cons.
  repeat case_decide; try reflexivity; lia.
Qed.

Lemma sort_stable (s : Z) (l : list A) :
  filter (fun a => sc a = s) (sort cmp l) = filter (fun a => sc a = s) l.
Proof.
  induction l as [|x l IH]; simpl; [reflexivity|].
  fold (sort cmp l). rewrite sort_insert_stable, !filter_cons, IH. reflexivity.
Qed.

End Sorting.

End ArrayFacts.

Section StringFacts.
Import Js.

Lemma trimEnd_head (c : ascii) (r : string) :
  is_whitespace c = false -> trimEnd (String c r) = String c (trimEnd r).
Proof. intros H. simpl. rewrite H. now destruct (trimEnd r). Qed.

Lemma trimStart_shape (s : string) :
  trimStart s = EmptyString \/
  exists c r, trimStart s = String c r /\ is_whitespace c = false.
Proof.
  induction s as [|c r IH]; simpl; [now left|].
  destruct (is_whitespace c) eqn:E; [exact IH|]. right; eauto.
Qed.

(** [trim] answers the empty string or a string that starts with a
    character that is not whitespace. *)
Lemma trim_shape (s : string) :
  trim s = EmptyString \/
  exists c r, trim s = String c r /\ is_whitespace c = false.
Proof.
  unfold trim. destruct (trimStart_shape s) as [E|(c & r & E & Hc)]; rewrite E.
  - now left.
  - right. exists c, (trimEnd r). now rewrite trimEnd_head.
Qed.

Lemma trimStart_blank (s : string) :
  trimStart s = EmptyString <->
  Forall (fun c => is_whitespace c = true) (list_ascii_of_string s).
Proof.
  induction s as [|c r IH]; simpl.
  - split; [constructor | reflexivity].
  - destruct (is_whitespace c) eqn:E.
    + rewrite IH. split; [now constructor | now inversion 1].
    + split; [discriminate|]. inversion 1; congruence.
Qed.

Lemma trim_blank (s : string) : trim s = EmptyString <-> Spec.blank s.
Proof.
  unfold Spec.blank. rewrite <- trimStart_blank. unfold trim.
  destruct (trimStart_shape s) as [E|(c & r & E & Hc)]; rewrite E.
  - tauto.
  - rewrite trimEnd_head by assumption. split; discriminate.
Qed.

(** Trimming a filled string leaves a filled string. *)
Lemma trim_filled (s : string) : Spec.filled s -> Spec.filled (trim s).
Proof.
  unfold Spec.filled. intros H.
  destruct (trim_shape s) as [E|(c & r & E & Hc)]; [contradiction|].
  rewrite E. unfold trim. simpl. rewrite Hc.
  rewrite trimEnd_head by assumption. discriminate.
Qed.

Lemma eqb_empty_blank (query : string) :
  String.eqb query EmptyString || String.eqb (trim query) EmptyString = true
  <-> Spec.blank query.
Proof.
  rewrite <- trim_blank, orb_true_iff, !String.eqb_eq.
  split; [intros [->|H]; [reflexivity | exact H] | now right].
Qed.

End StringFacts.

(** ** The ranker and the search *)

Section Ranker.
Import Js KnowledgeBase.

Lemma includes_tag (q : string) (ts : list string) :
  existsb (String.eqb q) (map toLowerCase ts)
  = existsb (fun t => String.eqb (toLowerCase t) q) ts.
Proof.
  induction ts as [|t ts IH]; simpl; [reflexivity|].
  now rewrite IH, String.eqb_sym.
Qed.

Lemma additive_score_eq (e : KnowledgeEntry) (q : string) :
  calculateRelevanceScore e q = Spec.additive_score e q.
Proof.
  unfold calculateRelevanceScore, Spec.additive_score, Spec.overlapping_pairs.
  rewrite (fold_pairs Spec.overlap), includes_tag.
  unfold Spec.key_bonus, Spec.tag_bonus, Spec.value_bonus.
  destruct (String.eqb (toLowerCase (key e)) q);
    destruct (includes (toLowerCase (key e)) q);
    destruct (existsb _ (tags e));
    destruct (includes (toLowerCase (value e)) q); lia.
Qed.

Lemma score_nonneg (e : KnowledgeEntry) (q : string) :
  0 <= calculateRelevanceScore e q.
Proof.
  rewrite additive_score_eq. unfold Spec.additive_score, Spec.key_bonus,
    Spec.tag_bonus, Spec.value_bonus.
  destruct (String.eqb (toLowerCase (key e)) q);
    destruct (includes (toLowerCase (key e)) q);
    destruct (existsb _ (tags e));
    destruct (includes (toLowerCase (value e)) q); lia.
Qed.

(** C1. [calculateRelevanceScore] computes the additive formula of
    section 4.2: the key bonus (100 for equality, else 50 for
    containment), plus 40 for a tag equal to the query, plus 20 when the
    value contains the query, plus 10 for every overlapping pair of a
    query word and a key word.  The bonuses stack: the entry with key
    "Pricing" scores 110 for the query "pricing", 100 for the key and 10
    for the one pair of words. *)
Theorem calculateRelevanceScore_formula :
  (forall (e : KnowledgeEntry) (q : string),
      calculateRelevanceScore e q
      = Spec.key_bonus e q + Spec.tag_bonus e q + Spec.value_bonus e q
        + 10 * Z.of_nat (length (Spec.overlapping_pairs e q)))
  /\ (forall i v ts c u,
         calculateRelevanceScore (mkEntry i "Pricing" v ts c u) "pricing"
         = 110 + Spec.tag_bonus (mkEntry i "Pricing" v ts c u) "pricing"
               + Spec.value_bonus (mkEntry i "Pricing" v ts c u) "pricing").
Proof.
  split.
  - exact additive_score_eq.
  - intros. rewrite additive_score_eq. unfold Spec.additive_score.
    change (Spec.key_bonus _ "pricing") with 100.
    change (length (Spec.overlapping_pairs _ "pricing")) with 1%nat. lia.
Qed.

(** The body of [searchEntries] on a blank query. *)
Lemma search_blank (es : list KnowledgeEntry) (query : string) (limit : Z) :
  Spec.blank query -> 0 <= limit ->
  searchEntries_in es query limit = take (Z.to_nat limit) (map Spec.unscored es).
Proof.
  intros Hb Hl. unfold searchEntries_in.
  apply eqb_empty_blank in Hb. rewrite Hb. now apply slice0_take.
Qed.

(** The body of [searchEntries] on any other query. *)
Lemma search_ranked (es : list KnowledgeEntry) (query : string) (limit : Z) :
  ~ Spec.blank query -> 0 <= limit ->
  let q := Spec.normalized query in
  exists ranked,
    searchEntries_in es query limit = take (Z.to_nat limit) ranked
    /\ ranked ≡ₚ map (Spec.scored q)
                   (filter (fun e => calculateRelevanceScore e q <> 0) es)
    /\ Spec.descending ranked
    /\ (forall s, filter (fun r => score_of r = s) ranked
                  = map (Spec.scored q)
                      (filter (fun e => calculateRelevanceScore e q = s /\ s <> 0) es)).
Proof.
  intros Hb Hl q. unfold searchEntries_in.
  destruct (String.eqb query "" || String.eqb (trim query) "") eqn:E.
  { apply eqb_empty_blank in E. contradiction. }
  fold (Spec.normalized query). fold q.
  rewrite (fold_push (fun e => 0 <? calculateRelevanceScore e q) (Spec.scored q)).
  simpl app.
  set (hits := List.map (Spec.scored q)
                 (List.filter (fun e => 0 <? calculateRelevanceScore e q) es)).
  assert (Hhits : forall s, filter (fun r => score_of r = s) hits
                  = map (Spec.scored q)
                      (filter (fun e => calculateRelevanceScore e q = s /\ s <> 0) es)).
  { intros s. unfold hits. clear. induction es as [|e es IH]; [reflexivity|].
    simpl List.filter. rewrite filter_cons.
    pose proof (score_nonneg e q) as Hn.
    destruct (0 <? calculateRelevanceScore e q) eqn:E.
    - apply Z.ltb_lt in E. simpl List.map. rewrite filter_cons.
      destruct (decide (calculateRelevanceScore e q = s /\ s <> 0)) as [[? ?]|Hno];
        destruct (decide (score_of (Spec.scored q e) = s)) as [Hs|Hs];
        unfold score_of in Hs; simpl in Hs; simpl; rewrite ?IH;
        try reflexivity; lia.
    - apply Z.ltb_ge in E.
      destruct (decide (calculateRelevanceScore e q = s /\ s <> 0)) as [[? ?]|Hno];
        [lia | exact IH]. }
  exists (sort (fun a b => score_of b - score_of a) hits).
  split; [now apply slice0_take|]. split; [|split].
  - rewrite sort_perm. unfold hits. clear.
    induction es as [|e es IH]; [reflexivity|].
    simpl List.filter. rewrite filter_cons.
    pose proof (score_nonneg e q) as Hn.
    destruct (0 <? calculateRelevanceScore e q) eqn:E.
    + apply Z.ltb_lt in E.
      destruct (decide (calculateRelevanceScore e q <> 0)) as [?|Hno]; [|lia].
      simpl. now rewrite IH.
    + apply Z.ltb_ge in E.
      destruct (decide (calculateRelevanceScore e q <> 0)) as [?|Hno];
        [lia | exact IH].
  - apply (sort_sorted score_of).
  - intros s. now rewrite (sort_stable score_of).
Qed.

End Ranker.

(** ** The store on a file system that answers every call *)

Section ReliableStore.
Import Js KnowledgeBase Worlds.

Lemma frame_refl (w : World) : faults w = [] -> frame w w.
Proof. unfold frame; intuition. Qed.

Lemma frame_trans (w1 w2 w3 : World) : frame w1 w2 -> frame w2 w3 -> frame w1 w3.
Proof.
  unfold frame. intros (? & ? & ? & ? & ? & H12) (? & ? & ? & ? & ? & H23).
  repeat split; try congruence. intros p Hp. now rewrite H23, H12.
Qed.

Lemma ensure_reliable (w : World) :
  faults w = [] -> ensureDataDirectory w = (Ok tt, ready w).
Proof.
  intros H. destruct w as [f dd bd c en fl sl tk]. simpl in H. subst fl.
  unfold ensureDataDirectory, try_catch, fs_access, fs_mkdir, bind, fs_call, ready.
  simpl. now destruct dd.
Qed.

Lemma fs_readFile_reliable (p : Path) (w : World) :
  faults w = [] -> has_dir (dirname p) w = true ->
  fs_readFile p w = (match files w !! p with
                     | Some t => Ok t
                     | None => Throw ENOENT
                     end, w).
Proof.
  intros H Hd. unfold fs_readFile, bind, fs_call. rewrite H at 1. rewrite Hd.
  now destruct (files w !! p).
Qed.

Lemma fs_writeFile_reliable (p : Path) (t : Text) (w : World) :
  faults w = [] -> has_dir (dirname p) w = true ->
  fs_writeFile p t w = (Ok tt, set_files (<[p := t]> (files w)) w).
Proof.
  intros H Hd. unfold fs_writeFile, bind, fs_call. rewrite H at 1. now rewrite Hd.
Qed.

Lemma bind_unfold {S A B} (m : Eff S A) (k : A -> Eff S B) (w : S) :
  bind m k w = match m w with
               | (Ok a, w') => k a w'
               | (Throw e, w') => (Throw e, w')
               end.
Proof. reflexivity. Qed.

Lemma bind_ok {S A B} (m : Eff S A) (k : A -> Eff S B) (w w' : S) (a : A) :
  m w = (Ok a, w') -> bind m k w = k a w'.
Proof. intros H. now rewrite bind_unfold, H. Qed.

Lemma bind_throw {S A B} (m : Eff S A) (k : A -> Eff S B) (w w' : S) (e : Error) :
  m w = (Throw e, w') -> bind m k w = (Throw e, w').
Proof. intros H. now rewrite bind_unfold, H. Qed.

Lemma fs_mkdir_reliable (d : Dir) (w : World) :
  faults w = [] -> fs_mkdir d w = (Ok tt, set_dir d w).
Proof. intros H. unfold fs_mkdir, bind, fs_call. now rewrite H at 1. Qed.

Lemma fs_readdir_reliable (d : Dir) (w : World) :
  faults w = [] -> has_dir d w = true ->
  fs_readdir d w
  = (Ok (List.filter (in_dir d) (map fst (map_to_list (files w)))), w).
Proof.
  intros H Hd. unfold fs_readdir, bind, fs_call. rewrite H at 1. now rewrite Hd.
Qed.

Lemma fs_rename_reliable (from to : Path) (t : Text) (w : World) :
  faults w = [] -> has_dir (dirname from) w = true -> has_dir (dirname to) w = true ->
  files w !! from = Some t ->
  fs_rename from to w
  = (Ok tt, set_files (<[to := t]> (delete from (files w))) w).
Proof.
  intros H Hf Ht Hl. unfold fs_rename, bind, fs_call. rewrite H at 1.
  now rewrite Hf, Ht, Hl.
Qed.

Lemma unlink_each_frame (l : list Path) :
  forall w r w', faults w = [] ->
    Forall (fun p => is_safety_backup p = true) l ->
    unlink_each l w = (r, w') -> frame w w'.
Proof.
  induction l as [|p l IH]; intros w r w' Hf Hl; simpl.
  - unfold ret. intros [= <- <-]. now apply frame_refl.
  - inversion Hl as [|? ? Hp Hrest]; subst.
    rewrite bind_unfold. unfold fs_unlink, bind, fs_call. rewrite Hf at 1.
    destruct (has_dir (dirname p) w); [|intros [= <- <-]; now apply frame_refl].
    destruct (files w !! p) eqn:E; [|intros [= <- <-]; now apply frame_refl].
    intros Hrun. apply IH in Hrun; [|destruct w; exact Hf|exact Hrest].
    eapply frame_trans; [|exact Hrun].
    destruct w; unfold frame; simpl in *. repeat split; try assumption.
    intros q Hq. apply lookup_delete_ne. intros ->. congruence.
Qed.

Lemma createSafetyBackup_frame (w : World) :
  faults w = [] -> exists w', createSafetyBackup w = (Ok tt, w') /\ frame w w'.
Proof.
  intros Hf. unfold createSafetyBackup, try_catch.
  match goal with |- context [match ?b w with _ => _ end] => set (body := b) end.
  assert (Hbody : forall r w', body w = (r, w') -> frame w w').
  { subst body. intros r w'.
    rewrite (bind_ok _ _ _ _ _ (fs_mkdir_reliable BackupDir w Hf)).
    set (w1 := set_dir BackupDir w).
    assert (F1 : frame w w1) by (destruct w; unfold frame; simpl in *; intuition).
    assert (Hf1 : faults w1 = []) by apply F1.
    rewrite (bind_ok Date_now _ w1 w1 (clock w1) eq_refl).
    rewrite bind_unfold.
    destruct (fs_readFile KbFile w1) as [[t|e] w2] eqn:Hread.
    2:{ intros [= <- <-]. unfold fs_readFile, bind, fs_call in Hread.
        rewrite Hf1 in Hread.
        destruct (has_dir (dirname KbFile) w1); [destruct (files w1 !! KbFile)|];
          inversion Hread; subst; exact F1. }
    assert (w2 = w1) as ->.
    { unfold fs_readFile, bind, fs_call in Hread. rewrite Hf1 in Hread.
      destruct (has_dir (dirname KbFile) w1); [destruct (files w1 !! KbFile)|];
        now inversion Hread. }
    rewrite (bind_ok _ _ _ _ _
               (fs_writeFile_reliable (SafetyBackup (clock w1)) t w1 Hf1
                  ltac:(destruct w; reflexivity))).
    set (w3 := set_files _ w1).
    assert (F3 : frame w w3).
    { eapply frame_trans; [exact F1|]. subst w3. destruct w1; unfold frame; simpl in *.
      repeat split; try assumption. intros q Hq. apply lookup_insert_ne.
      intros <-. discriminate. }
    assert (Hf3 : faults w3 = []) by apply F3.
    rewrite (bind_ok _ _ _ _ _
               (fs_readdir_reliable BackupDir w3 Hf3 ltac:(destruct w; reflexivity))).
    match goal with |- context [(5 <? length ?l)%nat] => set (old := l) end.
    destruct (5 <? length old)%nat; [|unfold ret; intros [= <- <-]; exact F3].
    intros Hrun. eapply frame_trans; [exact F3|].
    eapply unlink_each_frame; [exact Hf3| |exact Hrun].
    apply Forall_drop. subst old. apply Forall_rev.
    rewrite sort_perm. apply Forall_forall. intros x Hx.
    apply list_elem_of_In, List.filter_In in Hx. tauto. }
  destruct (body w) as [[[]|e] w']; exists w'; split; try reflexivity;
    eapply Hbody; reflexivity.
Qed.

Lemma ready_facts (w : World) :
  files (ready w) = files w /\ clock (ready w) = clock w /\
  entropy (ready w) = entropy w /\ faults (ready w) = faults w /\
  sleeps (ready w) = sleeps w /\ dataDir (ready w) = true.
Proof. unfold ready. destruct w as [f [] bd c en fl sl tk]; simpl; intuition. Qed.

Lemma save_reliable (kb : KnowledgeBaseDocument) (w : World) :
  faults w = [] ->
  exists w', saveKnowledgeBase kb w = (Ok (stamp_document (clock w) kb), w')
             /\ saved w (stamp_document (clock w) kb) w'.
Proof.
  intros Hf. destruct (ready_facts w) as (Rf & Rc & Re & Rfl & Rs & Rd).
  unfold saveKnowledgeBase. change (Z.to_nat maxRetries) with 3%nat.
  cbn [saveLoop]. unfold saveAttempt. rewrite (ensure_reliable w Hf), Rc.
  set (kb1 := stamp_document (clock w) kb).
  destruct (createSafetyBackup_frame (ready w)) as (w2 & E2 & F2); [congruence|].
  destruct F2 as (Hf2 & Hc2 & He2 & Hs2 & Hd2 & Hfiles2).
  change (1 =? 1) with true. cbv iota.
  rewrite (bind_ok _ _ _ _ _ E2).
  rewrite (bind_ok _ _ _ _ _
             (fs_writeFile_reliable KbTmp (JSON_stringify kb1) w2 Hf2
                ltac:(simpl; congruence))).
  set (w3 := set_files _ w2).
  rewrite (fs_rename_reliable KbTmp KbFile (JSON_stringify kb1) w3);
    [| subst w3; destruct w2; exact Hf2
     | subst w3; destruct w2; simpl in *; congruence
     | subst w3; destruct w2; simpl in *; congruence
     | subst w3; destruct w2; simpl; apply lookup_insert_eq ].
  eexists; split; [reflexivity|].
  subst w3. destruct w2; unfold saved; simpl in *.
  repeat split; try congruence.
  - apply lookup_insert_eq.
  - intros t. rewrite lookup_insert_ne, lookup_delete_ne, lookup_insert_ne by discriminate.
    rewrite Hfiles2 by reflexivity. now rewrite Rf.
Qed.

Lemma save_ready (kb : KnowledgeBaseDocument) (w : World) :
  faults w = [] ->
  exists w', saveKnowledgeBase kb (ready w) = (Ok (stamp_document (clock w) kb), w')
             /\ saved w (stamp_document (clock w) kb) w'.
Proof.
  intros Hf. destruct (ready_facts w) as (Rf & Rc & Re & Rfl & Rs & Rd).
  destruct (save_reliable kb (ready w)) as (w' & E & S); [congruence|].
  rewrite Rc in E, S. exists w'. split; [exact E|].
  destruct S as (S1 & S2 & S3 & S4 & S5 & S6 & S7).
  unfold saved. split; [exact S1|]. split; [exact S2|].
  split; [congruence|]. split; [congruence|]. split; [congruence|].
  split; [exact S6|]. intros t. now rewrite S7, Rf.
Qed.

Lemma loadAttempt_reliable (w : World) :
  faults w = [] ->
  loadAttempt w =
  match files w !! KbFile with
  | None => (Throw ENOENT, ready w)
  | Some (Garbage _) => (Throw syntax_error, ready w)
  | Some (Rendered (PArray legacy)) =>
      saveKnowledgeBase (mkDocument legacy (Some (clock w)) (Some "1.0") false) (ready w)
  | Some (Rendered (PDoc kb)) => (Ok kb, ready w)
  | Some (Rendered PNull) =>
      (Throw (mkError TypeError None
                (Some "Cannot read properties of null (reading 'entries')")), ready w)
  | Some (Rendered PInvalid) =>
      (Throw (new_Error "Invalid knowledge base format: entries must be an array"),
       ready w)
  end.
Proof.
  intros Hf. destruct (ready_facts w) as (Rf & Rc & Re & Rfl & Rs & Rd).
  unfold loadAttempt.
  rewrite (bind_ok _ _ _ _ _ (ensure_reliable w Hf)).
  rewrite bind_unfold, fs_readFile_reliable by (simpl; congruence).
  rewrite Rf. destruct (files w !! KbFile) as [[raw|[es|d| |]]|]; try reflexivity.
  cbv [JSON_parse bind ret Date_now]. now rewrite Rc.
Qed.

Lemma createCorruptionBackup_reliable (t : Text) (w : World) :
  faults w = [] -> dataDir w = true -> files w !! KbFile = Some t ->
  createCorruptionBackup w
  = (Ok tt, set_files (<[CorruptedBackup (clock w) := t]> (files w)) w).
Proof.
  intros Hf Hd Ht. unfold createCorruptionBackup, try_catch.
  rewrite (bind_ok Date_now _ _ _ _ eq_refl).
  rewrite bind_unfold, fs_readFile_reliable, Ht by assumption.
  now rewrite fs_writeFile_reliable.
Qed.

(** A well-formed document is returned as it is; only [data/] is
    created when it was missing. *)
Lemma load_document (d : KnowledgeBaseDocument) (w : World) :
  faults w = [] -> Spec.holds w d -> loadKnowledgeBase w = (Ok d, ready w).
Proof.
  intros Hf Hd. unfold loadKnowledgeBase. change (Z.to_nat maxRetries) with 3%nat.
  cbn [loadLoop]. rewrite bind_unfold. unfold try_catch.
  rewrite bind_unfold, (loadAttempt_reliable w Hf), Hd. reflexivity.
Qed.

(** A missing file: an empty document is created and saved. *)
Lemma load_absent (w : World) :
  faults w = [] -> files w !! KbFile = None ->
  let kb := mkDocument [] (Some (clock w)) (Some "1.0") false in
  exists w', loadKnowledgeBase w = (Ok kb, w') /\ saved w kb w'.
Proof.
  intros Hf Hn kb. destruct (ready_facts w) as (Rf & Rc & Re & Rfl & Rs & Rd).
  unfold loadKnowledgeBase. change (Z.to_nat maxRetries) with 3%nat.
  cbn [loadLoop]. rewrite bind_unfold. unfold try_catch.
  rewrite bind_unfold, (loadAttempt_reliable w Hf), Hn.
  unfold loadCatch. change (bool_decide (err_code ENOENT = Some "ENOENT")) with true.
  cbv iota. rewrite (bind_ok Date_now _ _ _ _ eq_refl), Rc.
  destruct (save_ready (mkDocument [] (Some (clock w)) (Some "1.0") false) w Hf)
    as (w' & E & S).
  rewrite (bind_ok _ _ _ _ _ E). exists w'. split; [reflexivity | exact S].
Qed.

(** The legacy shape: the array is wrapped and the document saved. *)
Lemma load_legacy (es : list KnowledgeEntry) (w : World) :
  faults w = [] -> files w !! KbFile = Some (Rendered (PArray es)) ->
  let kb := mkDocument es (Some (clock w)) (Some "1.0") false in
  exists w', loadKnowledgeBase w = (Ok kb, w') /\ saved w kb w'.
Proof.
  intros Hf Hn kb. destruct (ready_facts w) as (Rf & Rc & Re & Rfl & Rs & Rd).
  unfold loadKnowledgeBase. change (Z.to_nat maxRetries) with 3%nat.
  cbn [loadLoop]. rewrite bind_unfold. unfold try_catch.
  rewrite bind_unfold, (loadAttempt_reliable w Hf), Hn.
  destruct (save_ready (mkDocument es (Some (clock w)) (Some "1.0") false) w Hf)
    as (w' & E & S).
  rewrite E. exists w'. split; [reflexivity | exact S].
Qed.

(** Text that does not parse: it is copied aside and an empty document,
    flagged [recovered], is saved, in the first pass of the loop. *)
Lemma load_garbage (raw : string) (w : World) :
  faults w = [] -> files w !! KbFile = Some (Garbage raw) ->
  let kb := mkDocument [] (Some (clock w)) (Some "1.0") true in
  exists w', loadKnowledgeBase w = (Ok kb, w')
             /\ files w' !! KbFile = Some (JSON_stringify kb)
             /\ files w' !! CorruptedBackup (clock w) = Some (Garbage raw)
             /\ faults w' = [] /\ clock w' = clock w /\ entropy w' = entropy w
             /\ sleeps w' = sleeps w /\ dataDir w' = true.
Proof.
  intros Hf Hn kb. destruct (ready_facts w) as (Rf & Rc & Re & Rfl & Rs & Rd).
  unfold loadKnowledgeBase. change (Z.to_nat maxRetries) with 3%nat.
  cbn [loadLoop]. rewrite bind_unfold. unfold try_catch.
  rewrite bind_unfold, (loadAttempt_reliable w Hf), Hn.
  unfold loadCatch.
  change (bool_decide (err_code syntax_error = Some "ENOENT")) with false.
  change (bool_decide (err_class syntax_error = SyntaxError) && (1 <? maxRetries))
    with true.
  cbv iota.
  rewrite (bind_ok _ _ _ _ _
             (createCorruptionBackup_reliable (Garbage raw) (ready w)
                ltac:(congruence) Rd ltac:(congruence))).
  set (w1 := set_files _ (ready w)).
  assert (H1 : faults w1 = [] /\ clock w1 = clock w /\ entropy w1 = entropy w
               /\ sleeps w1 = sleeps w
               /\ files w1 !! CorruptedBackup (clock w) = Some (Garbage raw)).
  { subst w1. destruct (ready w); simpl in *. subst.
    repeat split; try congruence. apply lookup_insert_eq. }
  destruct H1 as (Hf1 & Hc1 & He1 & Hs1 & Hb1).
  rewrite (bind_ok Date_now _ _ _ _ eq_refl), Hc1.
  destruct (save_reliable (mkDocument [] (Some (clock w)) (Some "1.0") true) w1)
    as (w' & E & S); [exact Hf1|].
  rewrite Hc1 in E, S.
  rewrite (bind_ok _ _ _ _ _ E). exists w'. split; [reflexivity|].
  destruct S as (S1 & S2 & S3 & S4 & S5 & S6 & S7).
  split; [exact S1|]. split; [now rewrite S7|].
  repeat split; congruence.
Qed.

(** A value that is neither an array nor a document: every pass of the
    loop fails and the load throws, without writing. *)
Lemma loadLoop_malformed (n : nat) :
  forall attempt lastError w,
    faults w = [] -> Spec.malformed w -> (n = O -> lastError <> None) ->
    exists e w', loadLoop n attempt lastError w = (Throw e, w')
                 /\ files w' = files w /\ faults w' = [].
Proof.
  induction n as [|k IH]; intros attempt lastError w Hf Hm Hl.
  - destruct lastError as [e|]; [|now destruct Hl].
    simpl. eexists _, w. now split.
  - destruct (ready_facts w) as (Rf & Rc & Re & Rfl & Rs & Rd).
    cbn [loadLoop]. rewrite bind_unfold. unfold try_catch.
    rewrite bind_unfold, (loadAttempt_reliable w Hf).
    assert (Hnext : forall error w1, files w1 = files w -> faults w1 = [] ->
              exists e w', loadLoop k (attempt + 1) (Some error) w1 = (Throw e, w')
                           /\ files w' = files w /\ faults w' = []).
    { intros error w1 E1 F1.
      destruct (IH (attempt + 1) (Some error) w1) as (e & w' & E & Efiles & Ef);
        [exact F1| unfold Spec.malformed in *; now rewrite E1 | discriminate |].
      exists e, w'. repeat split; congruence. }
    destruct Hm as [Hm|Hm]; rewrite Hm; unfold loadCatch;
      match goal with |- context [bool_decide (err_code ?e = _)] =>
        change (bool_decide (err_code e = Some "ENOENT")) with false;
        change (bool_decide (err_class e = SyntaxError)) with false
      end; cbv iota; cbn [andb];
      (destruct (attempt <? maxRetries);
       [ rewrite (bind_ok (sleep _) _ _ _ _ eq_refl)
       | ]; unfold ret at 1; apply Hnext; simpl; congruence).
Qed.

Lemma load_malformed (w : World) :
  faults w = [] -> Spec.malformed w ->
  exists e w', loadKnowledgeBase w = (Throw e, w') /\ files w' = files w.
Proof.
  intros Hf Hm.
  destruct (loadLoop_malformed (Z.to_nat maxRetries) 1 None w Hf Hm)
    as (e & w' & E & Efiles & _); [discriminate|].
  now exists e, w'.
Qed.

(** Whatever the file holds, unless it is malformed, the load returns
    the stored entries and leaves a well-formed document behind. *)
Lemma load_total (w : World) :
  faults w = [] -> ~ Spec.malformed w ->
  exists kb w1, loadKnowledgeBase w = (Ok kb, w1)
                /\ entries kb = Spec.stored_entries w
                /\ Spec.holds w1 kb /\ faults w1 = []
                /\ clock w1 = clock w /\ entropy w1 = entropy w
                /\ sleeps w1 = sleeps w.
Proof.
  intros Hf Hm. destruct (ready_facts w) as (Rf & Rc & Re & Rfl & Rs & Rd).
  unfold Spec.stored_entries, Spec.malformed in *.
  destruct (files w !! KbFile) as [[raw|[es|d| |]]|] eqn:E.
  - destruct (load_garbage raw w Hf E) as (w1 & L & ? & ? & ? & ? & ? & ? & ?).
    eexists _, w1. now repeat (split; [eassumption || reflexivity|]).
  - destruct (load_legacy es w Hf E) as (w1 & L & S).
    destruct S as (? & ? & ? & ? & ? & ? & ?).
    eexists _, w1. now repeat (split; [eassumption || reflexivity|]).
  - exists d, (ready w). rewrite (load_document d w Hf E).
    unfold Spec.holds. rewrite Rf. repeat split; congruence.
  - exfalso; apply Hm; now left.
  - exfalso; apply Hm; now right.
  - destruct (load_absent w Hf E) as (w1 & L & S).
    destruct S as (? & ? & ? & ? & ? & ? & ?).
    eexists _, w1. now repeat (split; [eassumption || reflexivity|]).
Qed.

Lemma find_findIndex {A} (p : A -> bool) (l : list A) :
  match find p l with
  | Some x => exists n, findIndex p l = Some n /\ l !! n = Some x /\ p x = true
  | None => findIndex p l = None
  end.
Proof.
  induction l as [|y l IH]; simpl; [reflexivity|].
  destruct (p y) eqn:E; [now exists O|].
  destruct (find p l) as [x|].
  - destruct IH as (n & -> & Hn & Hp). now exists (S n).
  - now rewrite IH.
Qed.


End ReliableStore.

(** ** Search, load and repair *)

Section LoadAndSearch.
Import Js KnowledgeBase Worlds.

Lemma getAllEntries_document (d : KnowledgeBaseDocument) (w : World) :
  faults w = [] -> Spec.holds w d -> getAllEntries w = (Ok (entries d), ready w).
Proof.
  intros Hf Hd. unfold getAllEntries.
  now rewrite (bind_ok _ _ _ _ _ (load_document d w Hf Hd)).
Qed.

(** C2. On a blank query [searchEntries] answers the first [limit]
    entries in stored order, unscored.  On any other query it scores
    every entry against the trimmed, lowercased query, leaves out
    exactly the entries of score 0, orders the rest by descending score,
    entries of equal score staying in stored order, and keeps at most
    [limit] of them. *)
Theorem searchEntries_ranked (w : World) (d : KnowledgeBaseDocument)
    (query : string) (limit : Z) :
  Spec.reliable w -> Spec.holds w d -> 0 <= limit ->
  exists results w',
    searchEntries query limit w = (Ok results, w')
    /\ Z.of_nat (length results) <= limit
    /\ (Spec.blank query ->
        results = take (Z.to_nat limit) (map Spec.unscored (entries d)))
    /\ (~ Spec.blank query ->
        let q := Spec.normalized query in
        exists ranked,
          results = take (Z.to_nat limit) ranked
          /\ ranked ≡ₚ map (Spec.scored q)
                         (filter (fun e => calculateRelevanceScore e q <> 0) (entries d))
          /\ Spec.descending ranked
          /\ (forall s, filter (fun r => score_of r = s) ranked
                        = map (Spec.scored q)
                            (filter (fun e => calculateRelevanceScore e q = s /\ s <> 0)
                               (entries d)))).
Proof.
  intros Hf Hd Hl. unfold searchEntries.
  rewrite (bind_ok _ _ _ _ _ (getAllEntries_document d w Hf Hd)).
  eexists _, _. split; [reflexivity|]. split; [|split].
  - unfold searchEntries_in.
    destruct (String.eqb query "" || String.eqb (trim query) "");
      rewrite slice0_take by assumption; rewrite length_take; lia.
  - intros Hb. now apply search_blank.
  - intros Hb. now apply search_ranked.
Qed.

Lemma searchEntries_ranked_witness :
  exists results w',
    searchEntries "  Pricing " 2 shop_world = (Ok results, w')
    /\ results = [Spec.scored "pricing" pricing; Spec.scored "pricing" plans].
Proof.
  destruct (searchEntries_ranked shop_world shop "  Pricing " 2)
    as (results & w' & E & _); [reflexivity | reflexivity | lia |].
  exists results, w'. split; [exact E|].
  vm_compute in E. now inversion E.
Defined.

(** C6. A file that holds a bare array of entries is loaded as a
    document with those entries, a [version] and a [lastUpdated] stamp,
    and that document is written to the file before the load returns. *)
Theorem load_migrates_legacy (w : World) (es : list KnowledgeEntry) :
  Spec.reliable w -> files w !! KbFile = Some (Rendered (PArray es)) ->
  exists kb w',
    loadKnowledgeBase w = (Ok kb, w')
    /\ entries kb = es
    /\ version kb = Some "1.0"
    /\ lastUpdated kb = Some (clock w)
    /\ files w' !! KbFile = Some (JSON_stringify kb).
Proof.
  intros Hf Hl. destruct (load_legacy es w Hf Hl) as (w' & E & S).
  eexists _, w'. split; [exact E|]. repeat split. apply S.
Qed.

Lemma load_migrates_legacy_witness :
  exists kb w',
    loadKnowledgeBase legacy_world = (Ok kb, w')
    /\ entries kb = [pricing; contact]
    /\ version kb = Some "1.0"
    /\ lastUpdated kb = Some 1700000000000
    /\ files w' !! KbFile = Some (JSON_stringify kb).
Proof.
  apply (load_migrates_legacy legacy_world [pricing; contact]); reflexivity.
Defined.

(** C5, as the code has it.  Text that does not parse is not retried:
    in the first pass of the loop, with no back-off, the load copies the
    text to a side file named after the time, saves an empty document
    flagged [recovered] and returns it without raising. *)
Theorem load_recovers_at_once (w : World) (raw : string) :
  Spec.reliable w -> files w !! KbFile = Some (Garbage raw) ->
  exists kb w',
    loadKnowledgeBase w = (Ok kb, w')
    /\ entries kb = [] /\ recovered kb = true
    /\ files w' !! CorruptedBackup (clock w) = Some (Garbage raw)
    /\ files w' !! KbFile = Some (JSON_stringify kb)
    /\ sleeps w' = sleeps w.
Proof.
  intros Hf Hg. destruct (load_garbage raw w Hf Hg)
    as (w' & E & Hk & Hb & _ & _ & _ & Hs & _).
  eexists _, w'. split; [exact E|]. repeat split; assumption.
Qed.

Lemma load_recovers_at_once_witness :
  exists kb w',
    loadKnowledgeBase corrupt_world = (Ok kb, w')
    /\ entries kb = [] /\ recovered kb = true
    /\ files w' !! CorruptedBackup 1700000000000 = Some (Garbage "{oops")
    /\ files w' !! KbFile = Some (JSON_stringify kb)
    /\ sleeps w' = [].
Proof.
  apply (load_recovers_at_once corrupt_world "{oops"); reflexivity.
Defined.

(** The load of a corrupt file does not back off before it recovers;
    and when the parse error is what the third pass meets, the load
    raises instead of recovering. *)
Lemma load_does_not_retry_corrupt :
  ~ Spec.recovers_after_retries corrupt_world
  /\ files flaky_corrupt_world !! KbFile = Some (Garbage "{oops")
  /\ fst (loadKnowledgeBase flaky_corrupt_world)
     = Throw (new_Error
         "Failed to load knowledge base after 3 attempts: Unexpected token in JSON")
  /\ sleeps (snd (loadKnowledgeBase flaky_corrupt_world)) = [100; 200].
Proof.
  split; [|split; [reflexivity | split; vm_compute; reflexivity]].
  intros (kb & w' & E & _ & _ & Hs).
  destruct (load_garbage "{oops" corrupt_world)
    as (w'' & E' & _ & _ & _ & _ & _ & Hs' & _); [reflexivity | reflexivity |].
  rewrite E in E'. inversion E'; subst. contradiction.
Qed.

End LoadAndSearch.

(** ** Only [createEntry] uses up the ticks *)

Section Ticks.
Import Js KnowledgeBase Worlds Effects.

Lemma steady_ret {A} (a : A) : keeps steady (ret a).
Proof. intros w r w' Hrun. inversion Hrun. reflexivity. Qed.

Lemma steady_throw {A} (e : Error) : keeps steady (@throw World A e).
Proof. intros w r w' Hrun. inversion Hrun. reflexivity. Qed.

Lemma steady_bind {A B} (m : M A) (k : A -> M B) :
  keeps steady m -> (forall a, keeps steady (k a)) -> keeps steady (bind m k).
Proof.
  intros Hm Hk w r w'. rewrite bind_unfold.
  destruct (m w) as [[a|e] w1] eqn:E; specialize (Hm _ _ _ E).
  - intros Hrun. apply Hk in Hrun. unfold steady in *. congruence.
  - intros Hrun. inversion Hrun; subst. exact Hm.
Qed.

Lemma steady_try_catch {A} (body : M A) (handler : Error -> M A) :
  keeps steady body -> (forall e, keeps steady (handler e)) ->
  keeps steady (try_catch body handler).
Proof.
  intros Hb Hh w r w'. unfold try_catch.
  destruct (body w) as [[a|e] w1] eqn:E; specialize (Hb _ _ _ E).
  - intros Hrun. inversion Hrun; subst. exact Hb.
  - intros Hrun. apply Hh in Hrun. unfold steady in *. congruence.
Qed.

Lemma steady_fs_call : keeps steady fs_call.
Proof.
  intros w r w'. unfold fs_call.
  destruct (faults w) as [|[e|] rest]; intros Hrun; inversion Hrun; reflexivity.
Qed.

Lemma steady_world {A} (f : World -> Result A * World) :
  (forall w, ticks (snd (f w)) = ticks w) -> keeps steady f.
Proof. intros H w r w' Hrun. specialize (H w). now rewrite Hrun in H. Qed.

Lemma steady_fs_access (d : Dir) : keeps steady (fs_access d).
Proof.
  apply steady_bind; [apply steady_fs_call|]. intros _.
  apply steady_world. intros w. now destruct (has_dir d w).
Qed.

Lemma steady_fs_mkdir (d : Dir) : keeps steady (fs_mkdir d).
Proof.
  apply steady_bind; [apply steady_fs_call|]. intros _.
  apply steady_world. intros w. now destruct d.
Qed.

Lemma steady_fs_readFile (p : Path) : keeps steady (fs_readFile p).
Proof.
  apply steady_bind; [apply steady_fs_call|]. intros _.
  apply steady_world. intros w.
  destruct (has_dir _ w); [|reflexivity]. now destruct (files w !! p).
Qed.

Lemma steady_fs_writeFile (p : Path) (t : Text) : keeps steady (fs_writeFile p t).
Proof.
  apply steady_bind; [apply steady_fs_call|]. intros _.
  apply steady_world. intros w. now destruct (has_dir _ w).
Qed.

Lemma steady_fs_rename (from to : Path) : keeps steady (fs_rename from to).
Proof.
  apply steady_bind; [apply steady_fs_call|]. intros _.
  apply steady_world. intros w.
  destruct (_ && _); [|reflexivity]. now destruct (files w !! from).
Qed.

Lemma steady_fs_readdir (d : Dir) : keeps steady (fs_readdir d).
Proof.
  apply steady_bind; [apply steady_fs_call|]. intros _.
  apply steady_world. intros w. now destruct (has_dir d w).
Qed.

Lemma steady_fs_unlink (p : Path) : keeps steady (fs_unlink p).
Proof.
  apply steady_bind; [apply steady_fs_call|]. intros _.
  apply steady_world. intros w.
  destruct (has_dir _ w); [|reflexivity]. now destruct (files w !! p).
Qed.

Lemma steady_Date_now : keeps steady Date_now.
Proof. now apply steady_world. Qed.

Lemma steady_sleep (delay : Z) : keeps steady (sleep delay).
Proof. now apply steady_world. Qed.

Lemma steady_unlink_each (l : list Path) : keeps steady (unlink_each l).
Proof.
  induction l as [|p l IH]; simpl; [apply steady_ret|].
  apply steady_bind; [apply steady_fs_unlink | intros _; exact IH].
Qed.

Lemma steady_ensureDataDirectory : keeps steady ensureDataDirectory.
Proof.
  apply steady_try_catch; [apply steady_fs_access | intros _; apply steady_fs_mkdir].
Qed.

Lemma steady_createCorruptionBackup : keeps steady createCorruptionBackup.
Proof.
  apply steady_try_catch; [|intros _; apply steady_ret].
  apply steady_bind; [apply steady_Date_now|]. intros t.
  apply steady_bind; [apply steady_fs_readFile|]. intros d.
  apply steady_fs_writeFile.
Qed.

Lemma steady_createSafetyBackup : keeps steady createSafetyBackup.
Proof.
  apply steady_try_catch; [|intros _; apply steady_ret].
  apply steady_bind; [apply steady_fs_mkdir|]. intros _.
  apply steady_bind; [apply steady_Date_now|]. intros t.
  apply steady_bind; [apply steady_fs_readFile|]. intros d.
  apply steady_bind; [apply steady_fs_writeFile|]. intros _.
  apply steady_bind; [apply steady_fs_readdir|]. intros l. cbv zeta.
  destruct (_ <? _)%nat; [apply steady_unlink_each | apply steady_ret].
Qed.

Lemma steady_saveAttempt (attempt : Z) (kb kb1 : KnowledgeBaseDocument)
    (w w' : World) (r : Result unit) :
  saveAttempt attempt kb w = ((kb1, r), w') -> ticks w' = ticks w.
Proof.
  unfold saveAttempt.
  destruct (ensureDataDirectory w) as [[u|e] w1] eqn:E0;
    apply steady_ensureDataDirectory in E0; cbv beta iota zeta.
  - assert (K : keeps steady
              (_ <- (if attempt =? 1 then createSafetyBackup else ret tt) ;;
               _ <- fs_writeFile KbTmp
                      (JSON_stringify (stamp_document (clock w1) kb)) ;;
               fs_rename KbTmp KbFile)).
    { apply steady_bind.
      - destruct (attempt =? 1); [apply steady_createSafetyBackup | apply steady_ret].
      - intros _. apply steady_bind; [apply steady_fs_writeFile|].
        intros _. apply steady_fs_rename. }
    match goal with
    | |- context [let '(_, _) := ?blk in _] => destruct blk as [r2 w2] eqn:E2
    end.
    apply K in E2. intros Hrun. inversion Hrun; subst.
    unfold steady in *. congruence.
  - intros Hrun. inversion Hrun; subst. exact E0.
Qed.

Lemma steady_saveLoop (n : nat) :
  forall attempt lastError kb, keeps steady (saveLoop n attempt lastError kb).
Proof.
  induction n as [|k IH]; intros attempt lastError kb.
  - simpl. destruct lastError; apply steady_throw.
  - intros w r w'. cbn [saveLoop].
    destruct (saveAttempt attempt kb w) as [[kb1 [u|err]] w1] eqn:E;
      apply steady_saveAttempt in E.
    + intros Hrun. inversion Hrun; subst. exact E.
    + intros Hrun.
      assert (K : keeps steady
                (if attempt <? maxRetries
                 then (_ <- sleep (100 * attempt) ;;
                       saveLoop k (attempt + 1) (Some err) kb1)
                 else saveLoop k (attempt + 1) (Some err) kb1)).
      { destruct (attempt <? maxRetries); [|apply IH].
        apply steady_bind; [apply steady_sleep | intros _; apply IH]. }
      destruct (attempt <? maxRetries); apply K in Hrun;
        unfold steady in *; congruence.
Qed.

Lemma steady_saveKnowledgeBase (kb : KnowledgeBaseDocument) :
  keeps steady (saveKnowledgeBase kb).
Proof. apply steady_saveLoop. Qed.

Lemma steady_loadAttempt : keeps steady loadAttempt.
Proof.
  apply steady_bind; [apply steady_ensureDataDirectory|]. intros _.
  apply steady_bind; [apply steady_fs_readFile|]. intros data.
  apply steady_bind.
  { destruct data; [apply steady_throw | apply steady_ret]. }
  intros [legacy|kb| |]; try apply steady_throw; [|apply steady_ret].
  apply steady_bind; [apply steady_Date_now|]. intros now.
  apply steady_saveKnowledgeBase.
Qed.

Lemma steady_loadCatch (attempt : Z) (error : Error) :
  keeps steady (loadCatch attempt error).
Proof.
  unfold loadCatch.
  destruct (bool_decide _).
  { apply steady_bind; [apply steady_Date_now|]. intros now.
    apply steady_bind; [apply steady_saveKnowledgeBase|]. intros kb.
    apply steady_ret. }
  destruct (_ && _).
  { apply steady_bind; [apply steady_createCorruptionBackup|]. intros _.
    apply steady_bind; [apply steady_Date_now|]. intros now.
    apply steady_bind; [apply steady_saveKnowledgeBase|]. intros kb.
    apply steady_ret. }
  destruct (attempt <? maxRetries); [|apply steady_ret].
  apply steady_bind; [apply steady_sleep|]. intros _. apply steady_ret.
Qed.

Lemma steady_loadLoop (n : nat) :
  forall attempt lastError, keeps steady (loadLoop n attempt lastError).
Proof.
  induction n as [|k IH]; intros attempt lastError.
  - simpl. destruct lastError; apply steady_throw.
  - cbn [loadLoop]. apply steady_bind.
    + apply steady_try_catch; [|apply steady_loadCatch].
      apply steady_bind; [apply steady_loadAttempt | intros kb; apply steady_ret].
    + intros [kb|error]; [apply steady_ret | apply IH].
Qed.

Lemma steady_loadKnowledgeBase : keeps steady loadKnowledgeBase.
Proof. apply steady_loadLoop. Qed.

(** What [elapse] does. *)
Lemma elapse_effect (w : World) :
  exists w', elapse w = (Ok tt, w')
             /\ clock w' = clock w + nth 0 (ticks w) 0
             /\ ticks w' = tl (ticks w)
             /\ files w' = files w /\ faults w' = faults w
             /\ entropy w' = entropy w /\ sleeps w' = sleeps w
             /\ dataDir w' = dataDir w.
Proof.
  unfold elapse. destruct w as [f dd bd c en fl sl [|d tk]]; simpl.
  - eexists. split; [reflexivity|]. simpl. repeat split. lia.
  - eexists. split; [reflexivity|]. simpl. now repeat split.
Qed.

End Ticks.

(** ** Creating, updating and deleting entries *)

Section Entries.
Import Js KnowledgeBase Worlds.

Lemma generateId_reliable (w : World) :
  exists w2, generateId w
             = (Ok (toString36 (clock w) +:+ hd EmptyString (entropy w)), w2)
             /\ faults w2 = faults w /\ clock w2 = clock w /\ files w2 = files w
             /\ ticks w2 = ticks w.
Proof.
  unfold generateId, bind, Date_now, Math_random36, ret.
  destruct w as [f dd bd c en fl sl tk]; simpl. destruct en; simpl; eauto 10.
Qed.

Lemma stored_entries_holds (w : World) (d : KnowledgeBaseDocument) :
  Spec.holds w d -> Spec.stored_entries w = entries d.
Proof. unfold Spec.holds, Spec.stored_entries. now intros ->. Qed.

Lemma saved_holds (w w' : World) (kb : KnowledgeBaseDocument) :
  saved w kb w' -> Spec.holds w' kb /\ faults w' = [].
Proof. intros (? & ? & _). now split. Qed.

Lemma createEntry_reliable (w : World) (k v : string) (ts : list string) :
  faults w = [] -> ~ Spec.malformed w ->
  exists w', createEntry k v ts w = (Ok (entry_made w k v ts), w')
             /\ faults w' = []
             /\ exists d, Spec.holds w' d
                          /\ entries d = (Spec.stored_entries w ++ [entry_made w k v ts])%list.
Proof.
  intros Hf Hm.
  destruct (load_total w Hf Hm) as (kb & w1 & L & Hent & Hh & Hf1 & Hc1 & He1 & Hs1).
  pose proof (steady_loadKnowledgeBase _ _ _ L) as Ht1. unfold Effects.steady in Ht1.
  destruct (generateId_reliable w1) as (w2 & G & Hf2 & Hc2 & Hfiles2 & Ht2).
  destruct (elapse_effect w2) as (w3 & E3 & Hc3 & Ht3 & _ & Hf3 & _).
  destruct (elapse_effect w3) as (w4 & E4 & Hc4 & Ht4 & _ & Hf4 & _).
  unfold createEntry.
  rewrite (bind_ok _ _ _ _ _ L), (bind_ok _ _ _ _ _ G), (bind_ok _ _ _ _ _ E3).
  rewrite (bind_ok Date_now _ w3 w3 (clock w3) eq_refl), (bind_ok _ _ _ _ _ E4).
  rewrite (bind_ok Date_now _ w4 w4 (clock w4) eq_refl).
  assert (Hentry : mkEntry (toString36 (clock w1) +:+ hd EmptyString (entropy w1))
                     (trim k) (trim v) ts (clock w3) (clock w4)
                   = entry_made w k v ts).
  { unfold entry_made. rewrite Hc4, Ht3, Hc3, Hc2, Ht2, Ht1, Hc1, He1.
    now destruct (ticks w) as [|t1 [|t2 tk]]. }
  rewrite Hentry, Hent.
  set (kb' := set_entries _ kb).
  destruct (save_reliable kb' w4) as (w' & E & S); [congruence|].
  rewrite (bind_ok _ _ _ _ _ E). exists w'. split; [reflexivity|].
  apply saved_holds in S. destruct S as [Hh' Hf'].
  split; [exact Hf'|]. eexists. split; [exact Hh'|]. reflexivity.
Qed.

(** What [updateEntry] does to the entry it finds, and when it finds
    none. *)
Lemma updateEntry_reliable (w : World) (i : string) (u : Updates) :
  faults w = [] -> ~ Spec.malformed w ->
  match find (fun e => String.eqb (id e) i) (Spec.stored_entries w) with
  | Some existing =>
      let merged := merge_entry existing u (clock w) in
      exists n w' d,
        updateEntry i u w = (Ok merged, w')
        /\ Spec.stored_entries w !! n = Some existing
        /\ Spec.holds w' d
        /\ entries d = <[n := merged]> (Spec.stored_entries w)
  | None =>
      exists kb w1,
        updateEntry i u w = (Throw (not_found i), w1)
        /\ loadKnowledgeBase w = (Ok kb, w1)
        /\ Spec.holds w1 kb /\ entries kb = Spec.stored_entries w
  end.
Proof.
  intros Hf Hm.
  destruct (load_total w Hf Hm) as (kb & w1 & L & Hent & Hh & Hf1 & Hc1 & He1 & Hs1).
  unfold updateEntry. rewrite (bind_ok _ _ _ _ _ L), Hent.
  pose proof (find_findIndex (fun e => String.eqb (id e) i) (Spec.stored_entries w)) as F.
  destruct (find _ (Spec.stored_entries w)) as [existing|].
  - destruct F as (n & -> & Hn & _). rewrite Hn.
    rewrite (bind_ok Date_now _ w1 w1 (clock w1) eq_refl), Hc1.
    cbv zeta.
    set (kb' := set_entries _ kb).
    destruct (save_reliable kb' w1 Hf1) as (w' & E & S).
    rewrite (bind_ok _ _ _ _ _ E). exists n, w'. eexists.
    split; [reflexivity|]. split; [exact Hn|].
    apply saved_holds in S. split; [apply S | reflexivity].
  - rewrite F. exists kb, w1. now repeat split.
Qed.

Lemma deleteEntry_reliable (w : World) (i : string) :
  faults w = [] -> ~ Spec.malformed w ->
  match find (fun e => String.eqb (id e) i) (Spec.stored_entries w) with
  | Some deleted =>
      exists n w' d,
        deleteEntry i w = (Ok deleted, w')
        /\ Spec.stored_entries w !! n = Some deleted
        /\ Spec.holds w' d
        /\ entries d = delete n (Spec.stored_entries w)
  | None =>
      exists kb w1,
        deleteEntry i w = (Throw (not_found i), w1)
        /\ Spec.holds w1 kb /\ entries kb = Spec.stored_entries w
  end.
Proof.
  intros Hf Hm.
  destruct (load_total w Hf Hm) as (kb & w1 & L & Hent & Hh & Hf1 & Hc1 & He1 & Hs1).
  unfold deleteEntry. rewrite (bind_ok _ _ _ _ _ L), Hent.
  pose proof (find_findIndex (fun e => String.eqb (id e) i) (Spec.stored_entries w)) as F.
  destruct (find _ (Spec.stored_entries w)) as [deleted|].
  - destruct F as (n & -> & Hn & _). rewrite Hn.
    set (kb' := set_entries _ kb).
    destruct (save_reliable kb' w1 Hf1) as (w' & E & S).
    rewrite (bind_ok _ _ _ _ _ E). exists n, w'. eexists.
    split; [reflexivity|]. split; [exact Hn|].
    apply saved_holds in S. split; [apply S | reflexivity].
  - rewrite F. exists kb, w1. now repeat split.
Qed.





(** C8. For the entry that carries a known id, [updateEntry] replaces
    the fields that [updates] provides, keeps the others, never changes
    the id, and stamps [updatedAt] with the time of the call, which is
    not before the earlier stamp when the clock has not gone back; with
    [{ value: v2 }] the key, the tags, [createdAt] and the id stay.  For
    an unknown id it throws the not-found error and the file is left as
    it was. *)
Theorem updateEntry_merges :
  (forall (w : World) (d : KnowledgeBaseDocument) (i : string) (u : Updates)
          (existing : KnowledgeEntry),
      Spec.reliable w -> Spec.holds w d ->
      find (fun e => String.eqb (id e) i) (entries d) = Some existing ->
      updatedAt existing <= clock w ->
      exists merged n w',
        updateEntry i u w = (Ok merged, w')
        /\ entries d !! n = Some existing
        /\ Spec.stored_entries w' = <[n := merged]> (entries d)
        /\ id merged = id existing
        /\ key merged = default (key existing) (u_key u)
        /\ value merged = default (value existing) (u_value u)
        /\ tags merged = default (tags existing) (u_tags u)
        /\ createdAt merged = default (createdAt existing) (u_createdAt u)
        /\ updatedAt merged = clock w
        /\ updatedAt existing <= updatedAt merged
        /\ (forall v2, u = mkUpdates None None (Some v2) None None None ->
              key merged = key existing /\ tags merged = tags existing
              /\ createdAt merged = createdAt existing
              /\ id merged = id existing /\ value merged = v2))
  /\ (forall (w : World) (d : KnowledgeBaseDocument) (i : string) (u : Updates),
         Spec.reliable w -> Spec.holds w d ->
         find (fun e => String.eqb (id e) i) (entries d) = None ->
         exists w', updateEntry i u w = (Throw (not_found i), w')
                    /\ files w' = files w).
Proof.
  split.
  - intros w d i u existing Hf Hd Hfind Hclock.
    assert (Hm : ~ Spec.malformed w).
    { unfold Spec.holds in Hd. intros [H|H]; congruence. }
    pose proof (updateEntry_reliable w i u Hf Hm) as U.
    rewrite (stored_entries_holds w d Hd), Hfind in U.
    destruct U as (n & w' & d' & E & Hn & Hh' & Hd').
    exists (merge_entry existing u (clock w)), n, w'.
    split; [exact E|]. split; [exact Hn|].
    split; [now rewrite (stored_entries_holds w' d' Hh')|].
    repeat (split; [reflexivity|]). split; [exact Hclock|].
    intros v2 ->. now repeat split.
  - intros w d i u Hf Hd Hfind.
    assert (Hm : ~ Spec.malformed w).
    { unfold Spec.holds in Hd. intros [H|H]; congruence. }
    pose proof (updateEntry_reliable w i u Hf Hm) as U.
    rewrite (stored_entries_holds w d Hd), Hfind in U.
    destruct U as (kb & w1 & E & L & _).
    exists w1. split; [exact E|].
    rewrite (load_document d w Hf Hd) in L. inversion L.
    apply ready_facts.
Qed.

Lemma updateEntry_merges_witness :
  (exists merged n w',
      updateEntry "e3" (mkUpdates None None (Some "Write to us") None None None)
        shop_world = (Ok merged, w')
      /\ entries shop !! n = Some contact
      /\ Spec.stored_entries w' = <[n := merged]> (entries shop)
      /\ id merged = "e3" /\ key merged = "Contact" /\ value merged = "Write to us"
      /\ updatedAt merged = 1700000000000)
  /\ (exists w', updateEntry "nobody" (mkUpdates None None (Some "x") None None None)
                   shop_world = (Throw (not_found "nobody"), w')
                 /\ files w' = files shop_world).
Proof.
  destruct updateEntry_merges as [Known Unknown]. split.
  - destruct (Known shop_world shop "e3"
                (mkUpdates None None (Some "Write to us") None None None) contact)
      as (merged & n & w' & E & Hn & Hs & Hid & Hkey & Hval & _ & _ & Hup & _);
      [reflexivity | reflexivity | reflexivity | vm_compute; discriminate |].
    exists merged, n, w'. repeat (split; [assumption|]). exact Hup.
  - apply (Unknown shop_world shop "nobody"); reflexivity.
Defined.

Lemma sublist_map {A B} (f : A -> B) (l k : list A) :
  l `sublist_of` k -> map f l `sublist_of` map f k.
Proof. induction 1; simpl; now constructor. Qed.

Lemma filled_default (old : string) (new : option string) :
  Spec.filled old -> (forall s, new = Some s -> Spec.filled s) ->
  Spec.filled (default old new).
Proof. intros Ho Hn. destruct new as [s|]; simpl; [now apply Hn | exact Ho]. Qed.

Lemma ids_insert (es : list KnowledgeEntry) (n : nat) (old new : KnowledgeEntry) :
  es !! n = Some old -> id new = id old -> map id (<[n := new]> es) = map id es.
Proof.
  revert n; induction es as [|e es IH]; intros [|n] Hn Hid; simpl in *;
    try discriminate; [inversion Hn; subst; now rewrite Hid|].
  f_equal. now apply IH.
Qed.

(** C9, as the code has it.  The store does not check its inputs: the
    invariant of section 3 is kept by [createEntry] when the key and the
    value are filled and the generated id is new, by [updateEntry] when
    the key and the value it is given are filled, and by [deleteEntry]
    always. *)
Theorem store_keeps_invariant_on_filled_inputs (w : World) :
  Spec.reliable w -> ~ Spec.malformed w -> Spec.invariant (Spec.stored_entries w) ->
  (forall k v ts,
      Spec.filled k -> Spec.filled v ->
      (toString36 (clock w) +:+ hd EmptyString (entropy w))
        ∉ map id (Spec.stored_entries w) ->
      Spec.invariant (Spec.stored_entries (snd (createEntry k v ts w))))
  /\ (forall i u,
         (forall k, u_key u = Some k -> Spec.filled k) ->
         (forall v, u_value u = Some v -> Spec.filled v) ->
         Spec.invariant (Spec.stored_entries (snd (updateEntry i u w))))
  /\ (forall i, Spec.invariant (Spec.stored_entries (snd (deleteEntry i w)))).
Proof.
  intros Hf Hm [Hnodup Hfilled]. split; [|split].
  - intros k v ts Hk Hv Hfresh.
    destruct (createEntry_reliable w k v ts Hf Hm) as (w' & E & _ & d & Hh & Hd).
    rewrite E. simpl. rewrite (stored_entries_holds w' d Hh), Hd.
    split.
    + rewrite map_app. apply NoDup_app. split; [exact Hnodup|].
      split; [|apply NoDup_singleton].
      intros x Hx Hx'. simpl in Hx'. apply list_elem_of_singleton in Hx'.
      subst x. contradiction.
    + apply Forall_app. split; [exact Hfilled|].
      constructor; [|constructor]. split; simpl; now apply trim_filled.
  - intros i u Hk Hv.
    pose proof (updateEntry_reliable w i u Hf Hm) as U.
    destruct (find _ (Spec.stored_entries w)) as [existing|].
    + destruct U as (n & w' & d & E & Hn & Hh & Hd).
      rewrite E. simpl. rewrite (stored_entries_holds w' d Hh), Hd.
      split.
      * now rewrite (ids_insert _ n existing).
      * apply Forall_insert; [exact Hfilled|].
        assert (He : Spec.filled (key existing) /\ Spec.filled (value existing)).
        { eapply Forall_lookup_1 in Hfilled; [exact Hfilled | exact Hn]. }
        split; simpl; apply filled_default; tauto.
    + destruct U as (kb & w1 & E & _ & Hh & Hd).
      rewrite E. simpl. rewrite (stored_entries_holds w1 kb Hh), Hd. now split.
  - intros i.
    pose proof (deleteEntry_reliable w i Hf Hm) as U.
    destruct (find _ (Spec.stored_entries w)) as [deleted|].
    + destruct U as (n & w' & d & E & Hn & Hh & Hd).
      rewrite E. simpl. rewrite (stored_entries_holds w' d Hh), Hd.
      split.
      * apply (sublist_NoDup _ (map id (Spec.stored_entries w)));
          [exact Hnodup | apply sublist_map, sublist_delete].
      * apply Forall_delete, Hfilled.
    + destruct U as (kb & w1 & E & Hh & Hd).
      rewrite E. simpl. rewrite (stored_entries_holds w1 kb Hh), Hd. now split.
Qed.

Lemma store_keeps_invariant_on_filled_inputs_witness :
  Spec.invariant (Spec.stored_entries
    (snd (createEntry " Delivery" "We ship worldwide" ["shipping"] shop_world)))
  /\ Spec.invariant (Spec.stored_entries
       (snd (updateEntry "e3" (mkUpdates None None (Some "Write to us") None None None)
               shop_world)))
  /\ Spec.invariant (Spec.stored_entries (snd (deleteEntry "e2" shop_world))).
Proof.
  assert (Hinv : Spec.invariant (Spec.stored_entries shop_world)).
  { split.
    - apply (bool_decide_unpack _). vm_compute. reflexivity.
    - repeat constructor; vm_compute; discriminate. }
  assert (Hm : ~ Spec.malformed shop_world).
  { intros [H|H]; vm_compute in H; discriminate. }
  destruct (store_keeps_invariant_on_filled_inputs shop_world eq_refl Hm Hinv)
    as (C & U & D).
  split; [|split].
  - apply C; [vm_compute; discriminate | vm_compute; discriminate |].
    apply (bool_decide_unpack _). vm_compute. reflexivity.
  - apply U; intros s [= <-] || intros s [=]. vm_compute; discriminate.
  - apply D.
Defined.

(** The store takes a blank key, and a blank value in an update, and
    saves them. *)
Lemma store_saves_blank_inputs :
  (Spec.invariant (Spec.stored_entries empty_world)
   /\ ~ Spec.invariant (Spec.stored_entries
          (snd (createEntry "   " "We ship worldwide" [] empty_world))))
  /\ (Spec.invariant (Spec.stored_entries shop_world)
      /\ ~ Spec.invariant (Spec.stored_entries
             (snd (updateEntry "e3" (mkUpdates None None (Some "  ") None None None)
                     shop_world)))).
Proof.
  split; split.
  - split; [constructor | constructor].
  - intros [_ H]. vm_compute in H. inversion H as [|? ? [Hk _] _]; subst.
    now apply Hk.
  - split.
    + apply (bool_decide_unpack _). vm_compute. reflexivity.
    + repeat constructor; vm_compute; discriminate.
  - intros [_ H]. vm_compute in H.
    inversion H as [|? ? _ H1]; subst. inversion H1 as [|? ? [_ Hv] _]; subst.
    now apply Hv.
Qed.

End Entries.

(** ** Reads that write *)

Section Reads.
Import Js KnowledgeBase Worlds.

Lemma load_ok_reliable (w wl : World) (kb : KnowledgeBaseDocument) :
  faults w = [] -> loadKnowledgeBase w = (Ok kb, wl) ->
  Spec.holds wl kb /\ faults wl = [].
Proof.
  intros Hf L.
  assert (Hm : ~ Spec.malformed w).
  { intros Hm. destruct (load_malformed w Hf Hm) as (e & w' & E & _). congruence. }
  destruct (load_total w Hf Hm) as (kb' & w1 & L' & _ & Hh & Hf1 & _).
  rewrite L in L'. inversion L'; subst. now split.
Qed.

Lemma loads_like_getAllEntries : loads_like getAllEntries.
Proof.
  intros w Hf. unfold getAllEntries. split.
  - intros kb wl L. rewrite (bind_ok _ _ _ _ _ L).
    exists (entries kb), wl. repeat split. now apply (load_ok_reliable w wl kb).
  - intros e wl L. rewrite (bind_throw _ _ _ _ _ L). now exists wl.
Qed.

(** A continuation that only computes keeps the effect of the load. *)
Lemma loads_like_then {A B} (m : M A) (k : A -> M B) :
  loads_like m -> (forall a w, exists b, k a w = (Ok b, w)) -> loads_like (bind m k).
Proof.
  intros Hm Hk w Hf. destruct (Hm w Hf) as [HOk HThrow]. split.
  - intros kb wl L. destruct (HOk kb wl L) as (a & w' & E & Hfiles & Hf').
    destruct (Hk a w') as (b & Eb).
    exists b, w'. now rewrite (bind_ok _ _ _ _ _ E).
  - intros e wl L. destruct (HThrow e wl L) as (w' & E).
    exists w'. now rewrite (bind_throw _ _ _ _ _ E).
Qed.

Lemma loads_like_getStats : loads_like getStats.
Proof.
  intros w Hf. destruct (loads_like_getAllEntries w Hf) as [HOk HThrow].
  unfold getStats. split.
  - intros kb wl L. destruct (HOk kb wl L) as (a & w' & E & Hfiles & Hf').
    rewrite (bind_ok _ _ _ _ _ E).
    destruct (load_ok_reliable w wl kb Hf L) as [Hh _].
    assert (Hh' : Spec.holds w' kb) by (unfold Spec.holds in *; now rewrite Hfiles).
    rewrite (bind_ok _ _ _ _ _ (load_document kb w' Hf' Hh')).
    eexists _, (ready w'). split; [reflexivity|].
    destruct (ready_facts w') as (Rf & _ & _ & Rfl & _). split; congruence.
  - intros e wl L. destruct (HThrow e wl L) as (w' & E).
    exists w'. now rewrite (bind_throw _ _ _ _ _ E).
Qed.

Lemma loads_like_persists {A} (op : M A) : loads_like op -> Spec.read_persists op.
Proof.
  intros Hop w Hf. destruct (Hop w Hf) as [HOk HThrow].
  assert (Habsent : files w !! KbFile = None ->
            exists a w' kb, op w = (Ok a, w') /\ Spec.holds w' kb
                            /\ entries kb = [] /\ recovered kb = false).
  { intros Hn. destruct (load_absent w Hf Hn) as (wl & L & S).
    destruct (HOk _ _ L) as (a & w' & E & Hfiles & _).
    exists a, w', (mkDocument [] (Some (clock w)) (Some "1.0") false).
    split; [exact E|]. split; [|split; reflexivity].
    unfold Spec.holds. rewrite Hfiles. apply S. }
  assert (Hlegacy : forall es, files w !! KbFile = Some (Rendered (PArray es)) ->
            exists a w' kb, op w = (Ok a, w') /\ Spec.holds w' kb /\ entries kb = es).
  { intros es Hn. destruct (load_legacy es w Hf Hn) as (wl & L & S).
    destruct (HOk _ _ L) as (a & w' & E & Hfiles & _).
    exists a, w', (mkDocument es (Some (clock w)) (Some "1.0") false).
    split; [exact E|]. split; [|reflexivity].
    unfold Spec.holds. rewrite Hfiles. apply S. }
  assert (Hgarbage : forall raw, files w !! KbFile = Some (Garbage raw) ->
            exists a w' kb, op w = (Ok a, w') /\ Spec.holds w' kb
                            /\ entries kb = [] /\ recovered kb = true).
  { intros raw Hn. destruct (load_garbage raw w Hf Hn) as (wl & L & S & _).
    destruct (HOk _ _ L) as (a & w' & E & Hfiles & _).
    exists a, w', (mkDocument [] (Some (clock w)) (Some "1.0") true).
    split; [exact E|]. split; [|split; reflexivity].
    unfold Spec.holds. now rewrite Hfiles. }
  split; [exact Habsent|]. split; [exact Hlegacy|]. split; [exact Hgarbage|]. split.
  - intros d Hd. destruct (HOk _ _ (load_document d w Hf Hd)) as (a & w' & E & Hfiles & _).
    exists a, w'. split; [exact E|]. rewrite Hfiles. apply ready_facts.
  - intros a w' E Hsame.
    destruct (files w !! KbFile) as [[raw|[es|d| |]]|] eqn:Hfile.
    + destruct (Hgarbage raw eq_refl) as (a2 & w2 & kb & E2 & Hh & _).
      rewrite E in E2. inversion E2; subst. unfold Spec.holds in Hh. congruence.
    + destruct (Hlegacy es eq_refl) as (a2 & w2 & kb & E2 & Hh & _).
      rewrite E in E2. inversion E2; subst. unfold Spec.holds in Hh. congruence.
    + now exists d.
    + destruct (load_malformed w Hf) as (e & wl & L & _); [now left|].
      destruct (HThrow e wl L) as (w2 & E2). congruence.
    + destruct (load_malformed w Hf) as (e & wl & L & _); [now right|].
      destruct (HThrow e wl L) as (w2 & E2). congruence.
    + destruct (Habsent eq_refl) as (a2 & w2 & kb & E2 & Hh & _).
      rewrite E in E2. inversion E2; subst. unfold Spec.holds in Hh. congruence.
Qed.

(** C10. The read operations write: [getAllEntries], [getEntryById],
    [searchEntries], [getRelevantContext] and [getStats] each create the
    document when the file is absent, migrate a legacy array and reset
    text that does not parse, as [loadKnowledgeBase] does; they leave
    the files as they are when the file holds a document, and a read
    that returns leaves the file unchanged in that case only. *)
Theorem reads_persist_on_load :
  Spec.read_persists getAllEntries
  /\ (forall i, Spec.read_persists (getEntryById i))
  /\ (forall query limit, Spec.read_persists (searchEntries query limit))
  /\ (forall userMessage maxEntries,
        Spec.read_persists (getRelevantContext userMessage maxEntries))
  /\ Spec.read_persists getStats.
Proof.
  assert (Hsearch : forall query limit, loads_like (searchEntries query limit)).
  { intros query limit. apply loads_like_then; [apply loads_like_getAllEntries|].
    intros a w. eexists. reflexivity. }
  split; [|split; [|split; [|split]]].
  - apply loads_like_persists, loads_like_getAllEntries.
  - intros i. apply loads_like_persists, loads_like_then;
      [apply loads_like_getAllEntries|]. intros a w. eexists. reflexivity.
  - intros query limit. apply loads_like_persists, Hsearch.
  - intros userMessage maxEntries.
    apply loads_like_persists, loads_like_then; [apply Hsearch|].
    intros a w. destruct (length a =? 0)%nat; eexists; reflexivity.
  - apply loads_like_persists, loads_like_getStats.
Qed.

Lemma reads_persist_on_load_witness :
  (exists a w' kb, getStats empty_world = (Ok a, w') /\ Spec.holds w' kb
                   /\ entries kb = [] /\ recovered kb = false)
  /\ (exists a w' kb, getEntryById "e1" legacy_world = (Ok a, w') /\ Spec.holds w' kb
                      /\ entries kb = [pricing; contact])
  /\ (exists a w' kb, getRelevantContext "pricing" 3 corrupt_world = (Ok a, w')
                      /\ Spec.holds w' kb /\ entries kb = [] /\ recovered kb = true)
  /\ (exists a w', searchEntries "pricing" 3 shop_world = (Ok a, w')
                   /\ files w' = files shop_world).
Proof.
  destruct reads_persist_on_load as (Hall & Hid & Hsearch & Hctx & Hstats).
  split; [|split; [|split]].
  - destruct (Hstats empty_world eq_refl) as (H & _). now apply H.
  - destruct (Hid "e1" legacy_world eq_refl) as (_ & H & _). now apply H.
  - destruct (Hctx "pricing" 3 corrupt_world eq_refl) as (_ & _ & H & _).
    now apply (H "{oops").
  - destruct (Hsearch "pricing" 3 shop_world eq_refl) as (_ & _ & _ & H & _).
    now apply (H shop).
Defined.

End Reads.

(** ** The gateway: fallback on quota errors, passthrough of the others *)

Section Gateway.
Import Js GeminiService.
Variable service : Service.
Variables prompt knowledgeContext : string.

Let fullPrompt : string := constructPrompt prompt knowledgeContext.

(** What one pass of the loop does when the call succeeds. *)
Lemma attempt_succeeds (g : Gateway) (t : ModelTier) (text : string) :
  modelTiers g !! currentModelIndex g = Some t ->
  service (length (calls g)) (name t) fullPrompt = Ok text ->
  exists g', generateAttempt service prompt knowledgeContext g
             = (Ok (mkResponse text (name t) (tier t)), g')
             /\ currentModelIndex g' = currentModelIndex g
             /\ modelTiers g' = modelTiers g
             /\ lastFailureTime g' = lastFailureTime g
             /\ clock g' = clock g
             /\ calls g' = (calls g ++ [(name t, fullPrompt)])%list.
Proof.
  intros Ht Hs. unfold generateAttempt, bind, currentTier, generateContent.
  rewrite Ht. fold fullPrompt. rewrite Hs. simpl.
  destruct (0 <? currentModelIndex g)%nat; simpl; rewrite Ht;
    eexists; split; reflexivity || (repeat split; reflexivity).
Qed.

(** ... and when the call throws. *)
Lemma attempt_fails (g : Gateway) (t : ModelTier) (e : Error) :
  modelTiers g !! currentModelIndex g = Some t ->
  service (length (calls g)) (name t) fullPrompt = Throw e ->
  generateAttempt service prompt knowledgeContext g
  = (Throw e, mkGateway (modelTiers g) (currentModelIndex g) (lastFailureTime g)
                (retryDelay g) (clock g)
                (calls g ++ [(name t, fullPrompt)]) (timers g)).
Proof.
  intros Ht Hs. unfold generateAttempt, bind, currentTier, generateContent.
  rewrite Ht. fold fullPrompt. now rewrite Hs.
Qed.

(** A pass that meets a quota error on a tier that is not the last moves
    to the next tier and goes round the loop again. *)
Lemma loop_switches (k : nat) (lastError : option Error) (g : Gateway)
    (t : ModelTier) (e : Error) :
  modelTiers g !! currentModelIndex g = Some t ->
  service (length (calls g)) (name t) fullPrompt = Throw e ->
  isQuotaError e = true ->
  (S (currentModelIndex g) < length (modelTiers g))%nat ->
  generateLoop service (S k) lastError prompt knowledgeContext g
  = generateLoop service k (Some e) prompt knowledgeContext
      (mkGateway (modelTiers g) (S (currentModelIndex g)) (lastFailureTime g)
         (retryDelay g) (clock g) (calls g ++ [(name t, fullPrompt)]) (timers g)).
Proof.
  intros Ht Hs Hq Hlt. cbn [generateLoop]. rewrite (attempt_fails g t e Ht Hs).
  unfold generateCatch, bind at 1, bind at 1, currentTier. simpl. rewrite Ht, Hq.
  unfold bind at 1, switchToNextTier. simpl.
  destruct (Z.of_nat (currentModelIndex g) <? Z.of_nat (length (modelTiers g)) - 1)
    eqn:E; [reflexivity|]. apply Z.ltb_ge in E. lia.
Qed.

(** A pass that meets a quota error on the last tier records the time
    and gives up. *)
Lemma loop_exhausts (k : nat) (lastError : option Error) (g : Gateway)
    (t : ModelTier) (e : Error) :
  modelTiers g !! currentModelIndex g = Some t ->
  service (length (calls g)) (name t) fullPrompt = Throw e ->
  isQuotaError e = true ->
  S (currentModelIndex g) = length (modelTiers g) ->
  generateLoop service (S k) lastError prompt knowledgeContext g
  = (Throw exhausted,
     mkGateway (modelTiers g) (currentModelIndex g) (Some (clock g))
       (retryDelay g) (clock g) (calls g ++ [(name t, fullPrompt)]) (timers g)).
Proof.
  intros Ht Hs Hq Hlast. cbn [generateLoop]. rewrite (attempt_fails g t e Ht Hs).
  unfold generateCatch, bind at 1, bind at 1, currentTier. simpl. rewrite Ht, Hq.
  unfold bind at 1, switchToNextTier. simpl.
  destruct (Z.of_nat (currentModelIndex g) <? Z.of_nat (length (modelTiers g)) - 1)
    eqn:E; [apply Z.ltb_lt in E; lia | reflexivity].
Qed.

(** Any other error leaves the loop at once, the gateway as it was. *)
Lemma loop_rethrows (k : nat) (lastError : option Error) (g : Gateway)
    (t : ModelTier) (e : Error) :
  modelTiers g !! currentModelIndex g = Some t ->
  service (length (calls g)) (name t) fullPrompt = Throw e ->
  isQuotaError e = false ->
  generateLoop service (S k) lastError prompt knowledgeContext g
  = (Throw e,
     mkGateway (modelTiers g) (currentModelIndex g) (lastFailureTime g)
       (retryDelay g) (clock g) (calls g ++ [(name t, fullPrompt)]) (timers g)).
Proof.
  intros Ht Hs Hq. cbn [generateLoop]. rewrite (attempt_fails g t e Ht Hs).
  unfold generateCatch, bind at 1, bind at 1, currentTier. simpl. now rewrite Ht, Hq.
Qed.

(** The loop calls the service at most once per pass. *)
Lemma loop_bounded (k : nat) :
  forall lastError g,
    (length (calls (snd (generateLoop service k lastError prompt knowledgeContext g)))
     <= length (calls g) + k)%nat.
Proof.
  induction k as [|k IH]; intros lastError g; [simpl; lia|].
  cbn [generateLoop]. unfold generateAttempt, bind at 1, currentTier.
  destruct (modelTiers g !! currentModelIndex g) as [t|] eqn:Ht.
  2:{ unfold bind at 1, generateCatch, bind at 1, currentTier. rewrite Ht. simpl. lia. }
  unfold bind at 1, generateContent.
  destruct (service (length (calls g)) (name t) (constructPrompt prompt knowledgeContext))
    as [text|e].
  - unfold bind, ret, currentTier. simpl.
    destruct (0 <? currentModelIndex g)%nat; simpl; rewrite Ht; simpl;
      rewrite length_app; simpl; lia.
  - unfold bind at 1, generateCatch, bind at 1, currentTier. simpl. rewrite Ht.
    destruct (isQuotaError e); [|simpl; rewrite length_app; simpl; lia].
    unfold bind at 1, switchToNextTier. simpl.
    destruct (Z.of_nat (currentModelIndex g) <? Z.of_nat (length (modelTiers g)) - 1).
    + unfold ret at 1.
      match goal with |- context [generateLoop _ k ?le _ _ ?g1] =>
        specialize (IH le g1) end.
      simpl in IH. rewrite length_app in IH. simpl in IH. lia.
    + simpl. rewrite length_app. simpl. lia.
Qed.

End Gateway.

Section GatewayClaims.
Import Js GeminiService.

Lemma length_snoc {A} (l : list A) (x : A) : length (l ++ [x]) = S (length l).
Proof. rewrite length_app. simpl. lia. Qed.

(** C3. With three tiers and the cursor on the first: when the service
    answers the first two calls with quota errors and the third with a
    text, [generateResponse] returns that text with the model name and
    the tier label of the third tier; when the third call hits the quota
    too, it throws the exhaustion error and records the time in
    [lastFailureTime].  The loop makes at most one call per tier. *)
Theorem generateResponse_falls_back :
  (forall (service : Service) (g : Gateway) (t0 t1 t2 : ModelTier)
          (prompt knowledgeContext : string) (e0 e1 : Error),
      modelTiers g = [t0; t1; t2] -> currentModelIndex g = O ->
      let n := length (calls g) in
      let fullPrompt := constructPrompt prompt knowledgeContext in
      service n (name t0) fullPrompt = Throw e0 -> isQuotaError e0 = true ->
      service (S n) (name t1) fullPrompt = Throw e1 -> isQuotaError e1 = true ->
      (forall text,
          service (S (S n)) (name t2) fullPrompt = Ok text ->
          exists g',
            generateResponse service prompt knowledgeContext g
            = (Ok (mkResponse text (name t2) (tier t2)), g')
            /\ currentModelIndex g' = 2%nat
            /\ lastFailureTime g' = lastFailureTime g)
      /\ (forall e2,
            service (S (S n)) (name t2) fullPrompt = Throw e2 ->
            isQuotaError e2 = true ->
            exists g',
              generateResponse service prompt knowledgeContext g = (Throw exhausted, g')
              /\ lastFailureTime g' = Some (clock g)))
  /\ (forall (service : Service) (g : Gateway) (prompt knowledgeContext : string),
         (length (calls (snd (generateResponse service prompt knowledgeContext g)))
          <= length (calls g) + length (modelTiers g))%nat).
Proof.
  split; [|intros; apply loop_bounded].
  intros service g t0 t1 t2 prompt knowledgeContext e0 e1 Htiers Hidx n fullPrompt
    H0 Hq0 H1 Hq1.
  destruct g as [tiers idx lft rd clk cs tm]. simpl in *. subst tiers idx n.
  unfold generateResponse. simpl length.
  rewrite (loop_switches service prompt knowledgeContext 2 None _ t0 e0);
    [| reflexivity | exact H0 | exact Hq0 | simpl; lia ].
  cbn [modelTiers currentModelIndex lastFailureTime retryDelay clock calls timers].
  set (cs1 := (cs ++ [(name t0, constructPrompt prompt knowledgeContext)])%list).
  assert (L1 : length cs1 = S (length cs)) by apply length_snoc.
  rewrite (loop_switches service prompt knowledgeContext 1 (Some e0) _ t1 e1);
    [| reflexivity | simpl; rewrite L1; exact H1 | exact Hq1 | simpl; lia ].
  cbn [modelTiers currentModelIndex lastFailureTime retryDelay clock calls timers].
  set (cs2 := (cs1 ++ [(name t1, constructPrompt prompt knowledgeContext)])%list).
  assert (L2 : length cs2 = S (S (length cs))).
  { subst cs2. now rewrite length_snoc, L1. }
  split.
  - intros text H2. cbn [generateLoop].
    destruct (attempt_succeeds service prompt knowledgeContext
                (mkGateway [t0; t1; t2] 2 lft rd clk cs2 tm) t2 text)
      as (g' & E & Hi & _ & Hl & _); [reflexivity | simpl; rewrite L2; exact H2 |].
    rewrite E. exists g'. now repeat split.
  - intros e2 H2 Hq2.
    rewrite (loop_exhausts service prompt knowledgeContext 0 (Some e1) _ t2 e2);
      [| reflexivity | simpl; rewrite L2; exact H2 | exact Hq2 | reflexivity ].
    eexists. split; reflexivity.
Qed.

Lemma generateResponse_falls_back_witness :
  (exists g', generateResponse Services.recovering "Hi" "" (constructor 5)
              = (Ok (mkResponse "Hello" "gemini-1.5-flash-8b" "flash-lite"), g')
              /\ currentModelIndex g' = 2%nat /\ lastFailureTime g' = None)
  /\ (exists g', generateResponse Services.exhausted_everywhere "Hi" "" (constructor 5)
                 = (Throw exhausted, g')
                 /\ lastFailureTime g' = Some 5).
Proof.
  destruct generateResponse_falls_back as [Fallback _]. split.
  - destruct (Fallback Services.recovering (constructor 5)
                (mkTier "gemini-2.0-flash-exp" "pro") (mkTier "gemini-1.5-flash" "flash")
                (mkTier "gemini-1.5-flash-8b" "flash-lite") "Hi" ""
                Services.quota Services.quota) as [H _]; try reflexivity.
    now apply (H "Hello").
  - destruct (Fallback Services.exhausted_everywhere (constructor 5)
                (mkTier "gemini-2.0-flash-exp" "pro") (mkTier "gemini-1.5-flash" "flash")
                (mkTier "gemini-1.5-flash-8b" "flash-lite") "Hi" ""
                Services.quota Services.quota) as [_ H]; try reflexivity.
    now apply (H Services.quota).
Defined.

Lemma lower_char_not_upper (c : ascii) :
  lower_char c <> "R"%char /\ lower_char c <> "Q"%char.
Proof. destruct c as [[] [] [] [] [] [] [] []]; vm_compute; split; discriminate. Qed.

Lemma includes_head (s p : string) (a : ascii) :
  includes s (String a p) = true -> In a (list_ascii_of_string s).
Proof.
  induction s as [|c s IH]; simpl; [discriminate|].
  destruct (Ascii.eqb c a) eqn:E; simpl.
  - apply Ascii.eqb_eq in E. intros _. now left.
  - intros H. right. apply IH. exact H.
Qed.

Lemma lowered_chars (s : string) (a : ascii) :
  In a (list_ascii_of_string (toLowerCase s)) -> exists c, a = lower_char c.
Proof.
  induction s as [|c s IH]; simpl; [tauto|].
  intros [<-|H]; [now exists c | now apply IH].
Qed.

(** A message that, compared without regard to case, contains none of
    the known phrases is not classified as a quota error. *)
Lemma no_quota_phrase_not_classified (e : Error) :
  ~ Spec.has_quota_phrase e -> isQuotaError e = false.
Proof.
  intros Hno. destruct (isQuotaError e) eqn:E; [|reflexivity]. exfalso.
  unfold isQuotaError in E. apply existsb_exists in E.
  destruct E as (phrase & Hin & Hinc).
  assert (Hmsg : match err_message e with
                 | Some m => toLowerCase m
                 | None => EmptyString
                 end = toLowerCase (default EmptyString (err_message e))).
  { now destruct (err_message e). }
  rewrite Hmsg in Hinc. clear Hmsg.
  simpl in Hin.
  destruct Hin as [<-|[<-|[<-|[<-|[<-|[<-|[]]]]]]];
    match type of Hinc with
    | includes _ ?p = true =>
        try (apply Hno; exists p; split;
             [apply list_elem_of_In; simpl; tauto | exact Hinc])
    end.
  - apply includes_head, lowered_chars in Hinc. destruct Hinc as (c & Hc).
    symmetry in Hc. now apply lower_char_not_upper in Hc.
  - apply includes_head, lowered_chars in Hinc. destruct Hinc as (c & Hc).
    symmetry in Hc. now apply lower_char_not_upper in Hc.
Qed.

(** C4. An error of the service that [isQuotaError] does not classify
    as a quota error (in particular one whose message contains none of
    the known phrases, see [no_quota_phrase_not_classified]) is thrown
    again as it is, in whichever pass of the loop it occurs, after that
    one call and without a tier switch: the cursor and
    [lastFailureTime] are as before the call. *)
Theorem non_quota_error_propagates (service : Service) (g : Gateway) (t : ModelTier)
    (prompt knowledgeContext : string) (e : Error) :
  modelTiers g !! currentModelIndex g = Some t ->
  service (length (calls g)) (name t) (constructPrompt prompt knowledgeContext) = Throw e ->
  isQuotaError e = false ->
  (forall k lastError, exists g',
      generateLoop service (S k) lastError prompt knowledgeContext g = (Throw e, g')
      /\ currentModelIndex g' = currentModelIndex g
      /\ lastFailureTime g' = lastFailureTime g
      /\ length (calls g') = S (length (calls g)))
  /\ (exists g',
        generateResponse service prompt knowledgeContext g = (Throw e, g')
        /\ currentModelIndex g' = currentModelIndex g
        /\ lastFailureTime g' = lastFailureTime g
        /\ length (calls g') = S (length (calls g))).
Proof.
  intros Ht Hs Hq.
  assert (Hloop : forall k lastError, exists g',
            generateLoop service (S k) lastError prompt knowledgeContext g = (Throw e, g')
            /\ currentModelIndex g' = currentModelIndex g
            /\ lastFailureTime g' = lastFailureTime g
            /\ length (calls g') = S (length (calls g))).
  { intros k lastError.
    rewrite (loop_rethrows service prompt knowledgeContext k lastError g t e Ht Hs Hq).
    eexists. split; [reflexivity|]. simpl. repeat split. apply length_snoc. }
  split; [exact Hloop|]. unfold generateResponse.
  destruct (modelTiers g) as [|t' ts]; [discriminate|]. apply Hloop.
Qed.

Lemma non_quota_error_propagates_witness :
  exists g',
    generateResponse Services.misconfigured "Hi" "" (constructor 5)
    = (Throw Services.forbidden, g')
    /\ currentModelIndex g' = O /\ lastFailureTime g' = None
    /\ length (calls g') = 1%nat.
Proof.
  apply (non_quota_error_propagates Services.misconfigured (constructor 5)
           (mkTier "gemini-2.0-flash-exp" "pro") "Hi" "" Services.forbidden);
    reflexivity.
Defined.

End GatewayClaims.

(** ** The store on a file system that may fail *)

Section FaultyStore.
Import Js KnowledgeBase Worlds Effects.

Lemma calm_refl (w : World) : calm w w.
Proof. now repeat split. Qed.

Lemma calm_trans (w1 w2 w3 : World) : calm w1 w2 -> calm w2 w3 -> calm w1 w3.
Proof. unfold calm. intros (? & ? & ?) (? & ? & ?). repeat split; congruence. Qed.

Lemma calm_kept (w w' : World) : calm w w' -> kept w w'.
Proof. now intros (? & _). Qed.

Lemma keeps_ret {A} (a : A) : keeps calm (ret a : M A).
Proof. intros w r w' [= <- <-]. apply calm_refl. Qed.

Lemma keeps_throw {A} (e : Error) : keeps calm (throw e : M A).
Proof. intros w r w' [= <- <-]. apply calm_refl. Qed.

Lemma keeps_bind {A B} (m : M A) (k : A -> M B) :
  keeps calm m -> (forall a, keeps calm (k a)) -> keeps calm (bind m k).
Proof.
  intros Hm Hk w r w'. rewrite bind_unfold.
  destruct (m w) as [[a|e] w1] eqn:E; specialize (Hm _ _ _ E).
  - intros Hrun. eapply calm_trans; [exact Hm|]. eapply Hk. exact Hrun.
  - now intros [= <- <-].
Qed.

Lemma keeps_try_catch {A} (body : M A) (handler : Error -> M A) :
  keeps calm body -> (forall e, keeps calm (handler e)) ->
  keeps calm (try_catch body handler).
Proof.
  intros Hb Hh w r w'. unfold try_catch.
  destruct (body w) as [[a|e] w1] eqn:E; specialize (Hb _ _ _ E).
  - now intros [= <- <-].
  - intros Hrun. eapply calm_trans; [exact Hb|]. eapply Hh. exact Hrun.
Qed.

Lemma keeps_fs_call : keeps calm fs_call.
Proof.
  intros w r w'. unfold fs_call.
  destruct (faults w) as [|[e|] rest]; intros [= <- <-]; now repeat split.
Qed.

Lemma keeps_world {A} (f : World -> Result A * World) :
  (forall w, calm w (snd (f w))) -> keeps calm (f : M A).
Proof. intros H w r w' E. specialize (H w). now rewrite E in H. Qed.

Lemma keeps_fs_access (d : Dir) : keeps calm (fs_access d).
Proof.
  apply keeps_bind; [apply keeps_fs_call|]. intros _. apply keeps_world.
  intros w. destruct (has_dir d w); apply calm_refl.
Qed.

Lemma keeps_fs_mkdir (d : Dir) : keeps calm (fs_mkdir d).
Proof.
  apply keeps_bind; [apply keeps_fs_call|]. intros _. apply keeps_world.
  intros w. destruct d; now repeat split.
Qed.

Lemma keeps_fs_readFile (p : Path) : keeps calm (fs_readFile p).
Proof.
  apply keeps_bind; [apply keeps_fs_call|]. intros _. apply keeps_world.
  intros w. destruct (has_dir (dirname p) w); [destruct (files w !! p)|];
    apply calm_refl.
Qed.

Lemma keeps_fs_writeFile (p : Path) (t : Text) :
  p <> KbFile -> keeps calm (fs_writeFile p t).
Proof.
  intros Hp. apply keeps_bind; [apply keeps_fs_call|]. intros _. apply keeps_world.
  intros w. destruct (has_dir (dirname p) w); [|apply calm_refl].
  destruct w; repeat split; simpl. now apply lookup_insert_ne.
Qed.

Lemma keeps_fs_unlink (p : Path) : p <> KbFile -> keeps calm (fs_unlink p).
Proof.
  intros Hp. apply keeps_bind; [apply keeps_fs_call|]. intros _. apply keeps_world.
  intros w. destruct (has_dir (dirname p) w); [|apply calm_refl].
  destruct (files w !! p); [|apply calm_refl].
  destruct w; repeat split; simpl. now apply lookup_delete_ne.
Qed.

Lemma keeps_fs_readdir (d : Dir) : keeps calm (fs_readdir d).
Proof.
  apply keeps_bind; [apply keeps_fs_call|]. intros _. apply keeps_world.
  intros w. destruct (has_dir d w); apply calm_refl.
Qed.

Lemma keeps_Date_now : keeps calm Date_now.
Proof. apply keeps_world. intros w. apply calm_refl. Qed.

Lemma keeps_unlink_each (l : list Path) :
  Forall (fun p => is_safety_backup p = true) l -> keeps calm (unlink_each l).
Proof.
  induction 1 as [|p l Hp _ IH]; simpl; [apply keeps_ret|].
  apply keeps_bind; [|intros _; exact IH].
  apply keeps_fs_unlink. intros ->. discriminate.
Qed.

Lemma keeps_ensureDataDirectory : keeps calm ensureDataDirectory.
Proof.
  apply keeps_try_catch; [apply keeps_fs_access | intros _; apply keeps_fs_mkdir].
Qed.

Lemma keeps_createCorruptionBackup : keeps calm createCorruptionBackup.
Proof.
  apply keeps_try_catch; [|intros _; apply keeps_ret].
  apply keeps_bind; [apply keeps_Date_now|]. intros t.
  apply keeps_bind; [apply keeps_fs_readFile|]. intros data.
  now apply keeps_fs_writeFile.
Qed.

Lemma keeps_createSafetyBackup : keeps calm createSafetyBackup.
Proof.
  apply keeps_try_catch; [|intros _; apply keeps_ret].
  apply keeps_bind; [apply keeps_fs_mkdir|]. intros _.
  apply keeps_bind; [apply keeps_Date_now|]. intros t.
  apply keeps_bind; [apply keeps_fs_readFile|]. intros data.
  apply keeps_bind; [now apply keeps_fs_writeFile|]. intros _.
  apply keeps_bind; [apply keeps_fs_readdir|]. intros backupFiles.
  cbv zeta.
  match goal with |- context [(5 <? ?n)%nat] => destruct (5 <? n)%nat end;
    [|apply keeps_ret].
  apply keeps_unlink_each, Forall_drop, Forall_rev.
  rewrite sort_perm. apply Forall_forall. intros x Hx.
  apply list_elem_of_In, List.filter_In in Hx. tauto.
Qed.

Lemma fs_readFile_ok (p : Path) (w w' : World) (t : Text) :
  fs_readFile p w = (Ok t, w') -> files w' !! p = Some t.
Proof.
  unfold fs_readFile, bind, fs_call.
  destruct (faults w) as [|[e|] rest]; try discriminate;
    match goal with |- context [has_dir ?d ?x] => destruct (has_dir d x) end;
    try discriminate; simpl;
    destruct (files w !! p) eqn:E; intros [= <- <-]; exact E.
Qed.

Lemma fs_writeFile_ok (p : Path) (t : Text) (w w' : World) (u : unit) :
  fs_writeFile p t w = (Ok u, w') -> files w' = <[p := t]> (files w).
Proof.
  unfold fs_writeFile, bind, fs_call.
  destruct (faults w) as [|[e|] rest]; try discriminate;
    match goal with |- context [has_dir ?d ?x] => destruct (has_dir d x) end;
    try discriminate; now intros [= <- <-].
Qed.

Lemma fs_rename_effect (from to : Path) (w w' : World) (r : Result unit) :
  fs_rename from to w = (r, w') ->
  sleeps w' = sleeps w /\ clock w' = clock w /\
  match r with
  | Ok _ => exists t, files w !! from = Some t
                      /\ files w' = <[to := t]> (delete from (files w))
  | Throw _ => files w' = files w
  end.
Proof.
  unfold fs_rename, bind, fs_call.
  destruct (faults w) as [|[e|] rest]; simpl;
    try (intros [= <- <-]; now repeat split);
    match goal with |- context [has_dir ?d ?x && has_dir ?d' ?x'] =>
      destruct (has_dir d x && has_dir d' x') end;
    try (intros [= <- <-]; now repeat split); simpl;
    destruct (files w !! from) eqn:E; intros [= <- <-]; repeat split; eauto.
Qed.

(** The writes of one pass: the snapshot, the temporary file and the
    rename over the backing file. *)
Lemma write_block_effect (attempt : Z) (t : Text) (w w' : World) (r : Result unit) :
  (_ <- (if attempt =? 1 then createSafetyBackup else ret tt) ;;
   _ <- fs_writeFile KbTmp t ;;
   fs_rename KbTmp KbFile) w = (r, w') ->
  sleeps w' = sleeps w /\ clock w' = clock w
  /\ match r with
     | Ok _ => files w' !! KbFile = Some t /\ files w' !! KbTmp = None
     | Throw _ => kept w w'
     end.
Proof.
  rewrite bind_unfold.
  match goal with |- context [?m w] =>
    match m with
    | (if _ then _ else _) =>
        assert (Kb : keeps calm m)
          by (destruct (attempt =? 1); [apply keeps_createSafetyBackup | apply keeps_ret]);
        destruct (m w) as [[u1|e1] w2] eqn:E1
    end
  end; pose proof (Kb _ _ _ E1) as (K1 & S1 & C1).
  2:{ intros [= <- <-]. unfold kept. now repeat split. }
  rewrite bind_unfold.
  destruct (fs_writeFile KbTmp t w2) as [[u2|e2] w3] eqn:E2;
    pose proof (keeps_fs_writeFile KbTmp _ ltac:(discriminate) _ _ _ E2)
      as (K2 & S2 & C2).
  2:{ intros [= <- <-]. unfold kept. repeat split; congruence. }
  apply fs_writeFile_ok in E2. intros E3.
  apply fs_rename_effect in E3. destruct E3 as (S3 & C3 & H3).
  split; [congruence|]. split; [congruence|].
  destruct r as [u3|e3].
  - destruct H3 as (t' & Ht & Hfiles). rewrite E2, lookup_insert_eq in Ht.
    inversion Ht; subst t'. rewrite Hfiles. split.
    + apply lookup_insert_eq.
    + rewrite lookup_insert_ne by discriminate. apply lookup_delete_eq.
  - unfold kept. rewrite H3. congruence.
Qed.

(** One pass of the [try] block of [saveKnowledgeBase], whatever fails. *)
Lemma saveAttempt_effect (attempt : Z) (kb kb1 : KnowledgeBaseDocument)
    (w w' : World) (r : Result unit) :
  saveAttempt attempt kb w = ((kb1, r), w') ->
  entries kb1 = entries kb /\ recovered kb1 = recovered kb
  /\ sleeps w' = sleeps w /\ clock w' = clock w
  /\ match r with
     | Ok _ => files w' !! KbFile = Some (JSON_stringify kb1)
               /\ files w' !! KbTmp = None
     | Throw _ => kept w w'
     end.
Proof.
  unfold saveAttempt.
  destruct (ensureDataDirectory w) as [[u|e] w1] eqn:E0;
    pose proof (keeps_ensureDataDirectory _ _ _ E0) as (K0 & S0 & C0);
    cbv beta iota zeta.
  2:{ intros Hrun; inversion Hrun; subst; clear Hrun.
      unfold kept. repeat split; congruence. }
  match goal with |- context [let '(_, _) := ?blk in _] =>
    destruct blk as [r2 w2] eqn:E1 end.
  apply write_block_effect in E1. destruct E1 as (S1 & C1 & H1).
  intros Hrun; inversion Hrun; subst kb1 r w'; clear Hrun.
  split; [reflexivity|]. split; [reflexivity|].
  split; [congruence|]. split; [congruence|].
  destruct r2; [exact H1|]. unfold kept in *. congruence.
Qed.

Lemma sleep_effect (delay : Z) (w w' : World) (r : Result unit) :
  sleep delay w = (r, w') ->
  r = Ok tt /\ files w' = files w /\ sleeps w' = (sleeps w ++ [delay])%list
  /\ clock w' = clock w + delay.
Proof. unfold sleep. now intros [= <- <-]. Qed.

Lemma saveLoop_effect (n : nat) :
  forall attempt lastError kb w,
    match saveLoop n attempt lastError kb w with
    | (Ok kb', w') =>
        files w' !! KbFile = Some (JSON_stringify kb')
        /\ files w' !! KbTmp = None
        /\ entries kb' = entries kb /\ recovered kb' = recovered kb
    | (Throw _, w') => kept w w'
    end.
Proof.
  induction n as [|k IH]; intros attempt lastError kb w.
  - simpl. destruct lastError; reflexivity.
  - cbn [saveLoop].
    destruct (saveAttempt attempt kb w) as [[kb1 [u|e]] w1] eqn:E;
      apply saveAttempt_effect in E; destruct E as (He & Hr & _ & _ & H).
    + destruct H. now repeat split.
    + assert (Hnext : forall w2, files w2 = files w1 ->
                match saveLoop k (attempt + 1) (Some e) kb1 w2 with
                | (Ok kb', w') =>
                    files w' !! KbFile = Some (JSON_stringify kb')
                    /\ files w' !! KbTmp = None
                    /\ entries kb' = entries kb /\ recovered kb' = recovered kb
                | (Throw _, w') => kept w w'
                end).
      { intros w2 E2. specialize (IH (attempt + 1) (Some e) kb1 w2).
        destruct (saveLoop k (attempt + 1) (Some e) kb1 w2) as [[kb'|e'] w'].
        - destruct IH as (? & ? & ? & ?). repeat split; congruence.
        - unfold kept in *. rewrite IH, E2. exact H. }
      destruct (attempt <? maxRetries); [|now apply Hnext].
      rewrite (bind_ok (sleep _) _ _ _ _ eq_refl). now apply Hnext.
Qed.

(** X1. Whatever the file system does, [saveKnowledgeBase] is all or
    nothing on the backing file: when it returns, the file holds the
    document it returns, which has the entries it was given, and the
    temporary file is gone; when it throws, the backing file is as it
    was. *)
Theorem save_is_all_or_nothing (kb : KnowledgeBaseDocument) (w : World) :
  match saveKnowledgeBase kb w with
  | (Ok kb', w') =>
      files w' !! KbFile = Some (JSON_stringify kb')
      /\ files w' !! KbTmp = None
      /\ entries kb' = entries kb /\ recovered kb' = recovered kb
  | (Throw _, w') => files w' !! KbFile = files w !! KbFile
  end.
Proof. apply saveLoop_effect. Qed.

(** X2. [saveKnowledgeBase] makes three passes at most: it waits 100 ms
    after the first failure and 200 ms after the second, and throws only
    when the three passes have failed, each starting where the one before
    has left the world and the document; what it throws then carries the
    message of the failure of the third pass.  So when the directory can
    be neither reached nor made, six calls failing with one error, it
    throws with the message of that error. *)
Theorem save_backs_off_twice (kb : KnowledgeBaseDocument) (w : World) :
  match saveKnowledgeBase kb w with
  | (Ok _, w') =>
      sleeps w' = sleeps w \/ sleeps w' = (sleeps w ++ [100])%list
      \/ sleeps w' = (sleeps w ++ [100; 200])%list
  | (Throw e, w') =>
      sleeps w' = (sleeps w ++ [100; 200])%list
      /\ clock w' = clock w + 300
      /\ exists kb1 kb2 kb3 w1 w2 first second third,
           saveAttempt 1 kb w = ((kb1, Throw first), w1)
           /\ saveAttempt 2 kb1 (snd (sleep 100 w1)) = ((kb2, Throw second), w2)
           /\ saveAttempt 3 kb2 (snd (sleep 200 w2)) = ((kb3, Throw third), w')
           /\ e = new_Error ("Failed to save knowledge base after 3 attempts: "
                             +:+ message_text third)
  end
  /\ (forall cause rest,
        faults w = (replicate 6 (Some cause) ++ rest)%list ->
        exists w',
          saveKnowledgeBase kb w
          = (Throw (new_Error ("Failed to save knowledge base after 3 attempts: "
                               +:+ message_text cause)), w')
          /\ faults w' = rest).
Proof.
  split; cycle 1.
  { intros cause rest Hfaults. destruct w as [f dd bd c en fl sl tk].
    simpl in Hfaults. subst fl. eexists. split; [reflexivity | reflexivity]. }
  unfold saveKnowledgeBase. change (Z.to_nat maxRetries) with 3%nat.
  cbn [saveLoop].
  destruct (saveAttempt 1 kb w) as [[kb1 [u1|e1]] w1] eqn:A1;
    pose proof (saveAttempt_effect _ _ _ _ _ _ A1) as (_ & _ & S1 & C1 & _);
    [now left|].
  change (1 <? maxRetries) with true. cbv iota.
  rewrite (bind_ok (sleep _) _ _ _ _ eq_refl).
  match goal with |- context [saveAttempt ?a kb1 ?x] =>
    destruct (saveAttempt a kb1 x) as [[kb2 [u2|e2]] w2] eqn:A2 end;
    pose proof (saveAttempt_effect _ _ _ _ _ _ A2) as (_ & _ & S2 & C2 & _);
    simpl in S2, C2; change (100 * 1) with 100 in S2, C2;
    [right; left; congruence|].
  change (1 + 1 <? maxRetries) with true. cbv iota.
  rewrite (bind_ok (sleep _) _ _ _ _ eq_refl).
  match goal with |- context [saveAttempt ?a kb2 ?x] =>
    destruct (saveAttempt a kb2 x) as [[kb3 [u3|e3]] w3] eqn:A3 end;
    pose proof (saveAttempt_effect _ _ _ _ _ _ A3) as (_ & _ & S3 & C3 & _);
    simpl in S3, C3; change (100 * (1 + 1)) with 200 in S3, C3.
  - right; right. rewrite S3, S2, S1, <- app_assoc. reflexivity.
  - change (1 + 1 + 1 <? maxRetries) with false. cbv iota. simpl.
    split; [rewrite S3, S2, S1, <- app_assoc; reflexivity|].
    split; [lia|].
    exists kb1, kb2, kb3, w1, w2, e1, e2, e3.
    split; [reflexivity|]. split; [exact A2|]. split; [exact A3 | reflexivity].
Qed.

Lemma fs_readFile_effect (p : Path) (w w' : World) (r : Result Text) :
  fs_readFile p w = (r, w') ->
  calm w w' /\ match r with Ok t => files w' !! p = Some t | Throw _ => True end.
Proof.
  intros E. split; [eapply keeps_fs_readFile; exact E|].
  destruct r; [|exact I]. eapply fs_readFile_ok; exact E.
Qed.

Lemma kept_trans (w1 w2 w3 : World) : kept w1 w2 -> kept w2 w3 -> kept w1 w3.
Proof. unfold kept. congruence. Qed.

(** The [try] block of [loadKnowledgeBase], whatever fails. *)
Lemma loadAttempt_effect (w : World) :
  match loadAttempt w with
  | (Ok kb, w') => Spec.holds w' kb
  | (Throw _, w') => kept w w'
  end.
Proof.
  unfold loadAttempt. rewrite bind_unfold.
  destruct (ensureDataDirectory w) as [[u|e] w1] eqn:E0;
    pose proof (calm_kept _ _ (keeps_ensureDataDirectory _ _ _ E0)) as K0;
    [|exact K0].
  rewrite bind_unfold.
  destruct (fs_readFile KbFile w1) as [[data|e] w2] eqn:E1;
    apply fs_readFile_effect in E1; destruct E1 as (K1 & H1);
    apply calm_kept in K1; [|eapply kept_trans; eassumption].
  destruct data as [raw|[legacy|d| |]]; cbv [JSON_parse]; rewrite bind_unfold;
    cbv [ret throw]; cbv beta iota;
    try (eapply kept_trans; eassumption); [|exact H1].
  rewrite (bind_ok Date_now _ _ _ _ eq_refl).
  pose proof (save_is_all_or_nothing
                (mkDocument legacy (Some (clock w2)) (Some "1.0") false) w2) as S.
  destruct (saveKnowledgeBase _ w2) as [[kb'|e] w3].
  - apply S.
  - eapply kept_trans; [|exact S]. eapply kept_trans; eassumption.
Qed.

(** The [catch] block of [loadKnowledgeBase], whatever fails. *)
Lemma loadCatch_effect (attempt : Z) (error : Error) (w : World) :
  match loadCatch attempt error w with
  | (Ok (Return kb), w') => Spec.holds w' kb
  | (_, w') => kept w w'
  end.
Proof.
  assert (Hsave : forall kb0 w0, kept w w0 ->
            match (kb <- saveKnowledgeBase kb0 ;; ret (Return kb)) w0 with
            | (Ok (Return kb), w') => Spec.holds w' kb
            | (_, w') => kept w w'
            end).
  { intros kb0 w0 K. rewrite bind_unfold.
    pose proof (save_is_all_or_nothing kb0 w0) as S.
    destruct (saveKnowledgeBase kb0 w0) as [[kb'|e] w3]; cbv [ret].
    - apply S.
    - eapply kept_trans; eassumption. }
  unfold loadCatch.
  destruct (bool_decide (err_code error = Some "ENOENT")).
  { rewrite (bind_ok Date_now _ _ _ _ eq_refl). apply Hsave. reflexivity. }
  destruct (bool_decide (err_class error = SyntaxError) && (attempt <? maxRetries)).
  { rewrite bind_unfold.
    destruct (createCorruptionBackup w) as [[u|e] w1] eqn:E;
      pose proof (calm_kept _ _ (keeps_createCorruptionBackup _ _ _ E)) as K;
      [|exact K].
    rewrite (bind_ok Date_now _ _ _ _ eq_refl). now apply Hsave. }
  destruct (attempt <? maxRetries); [|reflexivity].
  rewrite (bind_ok (sleep _) _ _ _ _ eq_refl). reflexivity.
Qed.

Lemma loadLoop_effect (n : nat) :
  forall attempt lastError w,
    match loadLoop n attempt lastError w with
    | (Ok kb, w') => Spec.holds w' kb
    | (Throw _, w') => kept w w'
    end.
Proof.
  induction n as [|k IH]; intros attempt lastError w.
  - simpl. destruct lastError; reflexivity.
  - cbn [loadLoop]. rewrite bind_unfold. unfold try_catch. rewrite bind_unfold.
    pose proof (loadAttempt_effect w) as A.
    destruct (loadAttempt w) as [[kb|e] w1]; [exact A|].
    pose proof (loadCatch_effect attempt e w1) as C.
    destruct (loadCatch attempt e w1) as [[[kb|e']|e'] w2].
    + exact C.
    + specialize (IH (attempt + 1) (Some e') w2).
      destruct (loadLoop k (attempt + 1) (Some e') w2) as [[kb|e''] w3];
        [exact IH|]. eapply kept_trans; [|exact IH]. eapply kept_trans; eassumption.
    + eapply kept_trans; eassumption.
Qed.

(** X3. Whatever the file system does, [loadKnowledgeBase] agrees with
    the disk: the document it returns is the one the backing file holds
    when it returns, and a load that throws leaves the backing file as it
    was. *)
Theorem load_agrees_with_disk (w : World) :
  match loadKnowledgeBase w with
  | (Ok kb, w') => files w' !! KbFile = Some (Rendered (PDoc kb))
  | (Throw _, w') => files w' !! KbFile = files w !! KbFile
  end.
Proof. apply loadLoop_effect. Qed.

End FaultyStore.

(** ** More on strings *)

Section MoreStrings.
Import Js.

Lemma lower_char_idem (c : ascii) : lower_char (lower_char c) = lower_char c.
Proof. destruct c as [[] [] [] [] [] [] [] []]; vm_compute; reflexivity. Qed.

Lemma lower_char_whitespace (c : ascii) :
  is_whitespace (lower_char c) = is_whitespace c.
Proof. destruct c as [[] [] [] [] [] [] [] []]; vm_compute; reflexivity. Qed.

Lemma toLowerCase_idem (s : string) : toLowerCase (toLowerCase s) = toLowerCase s.
Proof. induction s as [|c s IH]; simpl; [reflexivity|]. now rewrite lower_char_idem, IH. Qed.

Lemma toLowerCase_trimStart (s : string) :
  toLowerCase (trimStart s) = trimStart (toLowerCase s).
Proof.
  induction s as [|c s IH]; simpl; [reflexivity|].
  rewrite lower_char_whitespace. now destruct (is_whitespace c).
Qed.

Lemma toLowerCase_trimEnd (s : string) :
  toLowerCase (trimEnd s) = trimEnd (toLowerCase s).
Proof.
  induction s as [|c s IH]; simpl; [reflexivity|].
  rewrite <- IH, lower_char_whitespace.
  destruct (trimEnd s); simpl; [now destruct (is_whitespace c) | reflexivity].
Qed.

Lemma toLowerCase_trim (s : string) : toLowerCase (trim s) = trim (toLowerCase s).
Proof. unfold trim. now rewrite toLowerCase_trimEnd, toLowerCase_trimStart. Qed.

Lemma trimEnd_idem (s : string) : trimEnd (trimEnd s) = trimEnd s.
Proof.
  induction s as [|c s IH]; simpl; [reflexivity|].
  destruct (trimEnd s) as [|c' s'] eqn:E.
  - destruct (is_whitespace c) eqn:Ec; simpl; [reflexivity | now rewrite Ec].
  - simpl in *. rewrite IH. reflexivity.
Qed.

Lemma trim_idem (s : string) : trim (trim s) = trim s.
Proof.
  destruct (trim_shape s) as [E|(c & r & E & Hc)].
  - now rewrite E.
  - unfold trim at 1. rewrite E. simpl trimStart. rewrite Hc, <- E.
    unfold trim. apply trimEnd_idem.
Qed.

(** [includes] and concatenation. *)
Lemma startsWith_empty (s : string) : startsWith s EmptyString = true.
Proof. now destruct s. Qed.

Lemma startsWith_app (s t u : string) :
  startsWith s t = true -> startsWith (s +:+ u) t = true.
Proof.
  revert s; induction t as [|b t IH]; intros s; [intros _; apply startsWith_empty|].
  destruct s as [|a s]; simpl; [discriminate|].
  intros H. apply andb_true_iff in H. destruct H as [-> H]. now apply IH.
Qed.

Lemma startsWith_self (s u : string) : startsWith (s +:+ u) s = true.
Proof.
  induction s as [|a s IH]; simpl; [apply startsWith_empty|].
  now rewrite Ascii.eqb_refl.
Qed.

Lemma includes_app_l (s t u : string) :
  includes s t = true -> includes (s +:+ u) t = true.
Proof.
  induction s as [|a s IH]; simpl.
  - rewrite orb_false_r. destruct t; [|discriminate]. intros _.
    destruct u; simpl; reflexivity.
  - intros H. apply orb_true_iff in H. apply orb_true_iff. destruct H as [H|H].
    + left. now apply (startsWith_app (String a s)).
    + right. now apply IH.
Qed.

Lemma includes_app_r (s t u : string) :
  includes s t = true -> includes (u +:+ s) t = true.
Proof.
  intros H. induction u as [|a u IH]; simpl; [exact H|].
  apply orb_true_iff. now right.
Qed.

Lemma startsWith_refl (s : string) : startsWith s s = true.
Proof. induction s as [|a s IH]; simpl; [reflexivity|]. now rewrite Ascii.eqb_refl. Qed.

Lemma includes_self (s : string) : includes s s = true.
Proof.
  destruct s as [|a s]; [reflexivity|].
  cbn [includes]. now rewrite startsWith_refl.
Qed.

End MoreStrings.

(** ** More on the search *)

Section MoreSearch.
Import Js KnowledgeBase Worlds.

Lemma toLowerCase_empty (s : string) : toLowerCase s = EmptyString -> s = EmptyString.
Proof. now destruct s. Qed.

Lemma normalized_blank (query : string) :
  Spec.blank query <-> Spec.normalized query = EmptyString.
Proof.
  unfold Spec.normalized. rewrite <- toLowerCase_trim, <- trim_blank. split.
  - now intros ->.
  - apply toLowerCase_empty.
Qed.

Lemma normalized_idem (query : string) :
  Spec.normalized (Spec.normalized query) = Spec.normalized query.
Proof.
  unfold Spec.normalized.
  now rewrite <- toLowerCase_trim, trim_idem, toLowerCase_trim, toLowerCase_idem.
Qed.

(** The entry with its key, value and tags in lower case. *)
Lemma score_of_lowered_entry (e : KnowledgeEntry) (q : string) :
  calculateRelevanceScore
    (mkEntry (id e) (toLowerCase (key e)) (toLowerCase (value e))
             (map toLowerCase (tags e)) (createdAt e) (updatedAt e)) q
  = calculateRelevanceScore e q.
Proof.
  unfold calculateRelevanceScore. simpl.
  rewrite !toLowerCase_idem.
  replace (map toLowerCase (map toLowerCase (tags e))) with (map toLowerCase (tags e));
    [reflexivity|].
  induction (tags e) as [|t ts IH]; simpl; [reflexivity|].
  now rewrite toLowerCase_idem, <- IH.
Qed.

(** X4. The search does not see the case of the query or the whitespace
    around it: a query and its trimmed, lower-cased form give the same
    result, so two queries with the same normal form do; nor does the
    score see the case of the key, the value and the tags of the entry. *)
Theorem search_ignores_case_and_margins :
  (forall (es : list KnowledgeEntry) (query : string) (limit : Z),
      searchEntries_in es query limit
      = searchEntries_in es (trim (toLowerCase query)) limit)
  /\ (forall (e : KnowledgeEntry) (q : string),
        calculateRelevanceScore
          (mkEntry (id e) (toLowerCase (key e)) (toLowerCase (value e))
                   (map toLowerCase (tags e)) (createdAt e) (updatedAt e)) q
        = calculateRelevanceScore e q).
Proof.
  split; [|exact score_of_lowered_entry].
  intros es query limit. fold (Spec.normalized query). unfold searchEntries_in.
  destruct (String.eqb query "" || String.eqb (trim query) "") eqn:E.
  - apply eqb_empty_blank, normalized_blank in E. rewrite E. reflexivity.
  - assert (Hn : Spec.normalized query <> EmptyString).
    { intros H. apply normalized_blank, eqb_empty_blank in H. congruence. }
    assert (Ht : trim (Spec.normalized query) = Spec.normalized query).
    { unfold Spec.normalized. apply trim_idem. }
    rewrite Ht.
    destruct (String.eqb_spec (Spec.normalized query) ""); [contradiction|].
    simpl orb. cbv iota.
    fold (Spec.normalized query). fold (Spec.normalized (Spec.normalized query)).
    now rewrite normalized_idem.
Qed.

End MoreSearch.

(** ** More on the operations of the store *)

Section MoreEntries.
Import Js KnowledgeBase Worlds Effects.

(** X5. Round trip: on a file system that answers every call, what
    [saveKnowledgeBase] returns is what the next [loadKnowledgeBase]
    returns, with the entries that were given, and that load writes
    nothing; and loading then saving keeps the stored entries. *)
Theorem save_then_load :
  (forall (kb : KnowledgeBaseDocument) (w : World),
      Spec.reliable w ->
      exists kb' w1 w2,
        saveKnowledgeBase kb w = (Ok kb', w1)
        /\ loadKnowledgeBase w1 = (Ok kb', w2)
        /\ entries kb' = entries kb
        /\ files w2 = files w1)
  /\ (forall (w : World),
        Spec.reliable w -> ~ Spec.malformed w ->
        exists kb' w',
          (kb <- loadKnowledgeBase ;; saveKnowledgeBase kb) w = (Ok kb', w')
          /\ Spec.stored_entries w' = Spec.stored_entries w).
Proof.
  split.
  - intros kb w Hf. destruct (save_reliable kb w Hf) as (w1 & E & S).
    apply saved_holds in S. destruct S as [Hh Hf1].
    exists (stamp_document (clock w) kb), w1, (ready w1).
    split; [exact E|]. split; [now apply load_document|].
    split; [reflexivity | apply ready_facts].
  - intros w Hf Hm.
    destruct (load_total w Hf Hm) as (kb & w1 & L & Hent & _ & Hf1 & _).
    destruct (save_reliable kb w1 Hf1) as (w' & E & S).
    apply saved_holds in S. destruct S as [Hh _].
    eexists _, w'. rewrite (bind_ok _ _ _ _ _ L). split; [exact E|].
    now rewrite (stored_entries_holds w' _ Hh).
Qed.

Lemma save_then_load_witness :
  (exists kb' w1 w2,
      saveKnowledgeBase shop empty_world = (Ok kb', w1)
      /\ loadKnowledgeBase w1 = (Ok kb', w2)
      /\ entries kb' = [hours; contact; plans; pricing]
      /\ files w2 = files w1)
  /\ (exists kb' w',
        (kb <- loadKnowledgeBase ;; saveKnowledgeBase kb) legacy_world = (Ok kb', w')
        /\ Spec.stored_entries w' = [pricing; contact]).
Proof.
  destruct save_then_load as [Save Load]. split.
  - apply (Save shop empty_world). reflexivity.
  - apply (Load legacy_world); [reflexivity|].
    intros [H|H]; vm_compute in H; discriminate.
Defined.

Lemma find_delete_other (p : KnowledgeEntry -> bool) (l : list KnowledgeEntry)
    (n : nat) (x : KnowledgeEntry) :
  l !! n = Some x -> p x = false -> find p (delete n l) = find p l.
Proof.
  revert n; induction l as [|y l IH]; intros [|n] Hn Hp; simpl in *; try discriminate.
  - inversion Hn; subst. now rewrite Hp.
  - destruct (p y); [reflexivity|]. now apply IH.
Qed.

Lemma find_delete_first (i : string) (l : list KnowledgeEntry) (n : nat) :
  findIndex (fun e => String.eqb (id e) i) l = Some n -> NoDup (map id l) ->
  find (fun e => String.eqb (id e) i) (delete n l) = None.
Proof.
  revert n; induction l as [|y l IH]; intros n Hn Hnd; simpl in *; [discriminate|].
  apply NoDup_cons in Hnd. destruct Hnd as [Hy Hnd].
  destruct (String.eqb (id y) i) eqn:E.
  - inversion Hn; subst n. simpl. apply String.eqb_eq in E. subst i.
    clear IH Hn. induction l as [|z l IH]; simpl; [reflexivity|].
    destruct (String.eqb (id z) (id y)) eqn:Ez.
    + apply String.eqb_eq in Ez. exfalso. apply Hy. simpl. rewrite Ez. left.
    + apply IH.
      * intros H. apply Hy. simpl. now right.
      * simpl in Hnd. now apply NoDup_cons in Hnd.
  - destruct (findIndex _ l) as [m|] eqn:Em; [|discriminate].
    inversion Hn; subst n. simpl. rewrite E. now apply IH.
Qed.

(** X6. [deleteEntry] removes the first entry that carries the id and
    returns it; the entries of other ids are found as before.  When the
    ids are unique, [getEntryById] on that id then answers [undefined].
    For an unknown id it throws the not-found error and the files are as
    they were. *)
Theorem deleteEntry_removes :
  (forall (w : World) (d : KnowledgeBaseDocument) (i : string) (e : KnowledgeEntry),
      Spec.reliable w -> Spec.holds w d ->
      find (fun x => String.eqb (id x) i) (entries d) = Some e ->
      exists n w',
        deleteEntry i w = (Ok e, w')
        /\ entries d !! n = Some e
        /\ Spec.stored_entries w' = delete n (entries d)
        /\ (forall j, j <> i ->
              find (fun x => String.eqb (id x) j) (Spec.stored_entries w')
              = find (fun x => String.eqb (id x) j) (entries d))
        /\ (NoDup (map id (entries d)) ->
            exists w'', getEntryById i w' = (Ok None, w'')))
  /\ (forall (w : World) (d : KnowledgeBaseDocument) (i : string),
        Spec.reliable w -> Spec.holds w d ->
        find (fun x => String.eqb (id x) i) (entries d) = None ->
        exists w', deleteEntry i w = (Throw (not_found i), w')
                   /\ files w' = files w).
Proof.
  split.
  - intros w d i e Hf Hd Hfind.
    assert (Hm : ~ Spec.malformed w).
    { unfold Spec.holds in Hd. intros [H|H]; congruence. }
    destruct (load_total w Hf Hm) as (kb & w1 & L & Hent & Hh & Hf1 & _).
    rewrite (load_document d w Hf Hd) in L. inversion L; subst kb w1. clear L.
    pose proof (find_findIndex (fun x => String.eqb (id x) i) (entries d)) as F.
    rewrite Hfind in F. destruct F as (n & Hidx & Hn & Hp).
    unfold deleteEntry.
    rewrite (bind_ok _ _ _ _ _ (load_document d w Hf Hd)), Hidx, Hn.
    destruct (save_reliable (set_entries (delete n (entries d)) d) (ready w) Hf1)
      as (w' & E & S).
    rewrite (bind_ok _ _ _ _ _ E). apply saved_holds in S. destruct S as [Hh' Hf'].
    exists n, w'. split; [reflexivity|]. split; [exact Hn|].
    rewrite (stored_entries_holds w' _ Hh'). simpl.
    split; [reflexivity|]. split.
    + intros j Hj. apply (find_delete_other _ _ n e Hn).
      apply String.eqb_eq in Hp. apply String.eqb_neq. congruence.
    + intros Hnd. exists (ready w'). unfold getEntryById.
      rewrite (bind_ok _ _ _ _ _ (getAllEntries_document _ w' Hf' Hh')). simpl.
      unfold ret. now rewrite find_delete_first.
  - intros w d i Hf Hd Hfind.
    pose proof (find_findIndex (fun x => String.eqb (id x) i) (entries d)) as F.
    rewrite Hfind in F. unfold deleteEntry.
    rewrite (bind_ok _ _ _ _ _ (load_document d w Hf Hd)), F.
    exists (ready w). split; [reflexivity | apply ready_facts].
Qed.

Lemma deleteEntry_removes_witness :
  (exists n w',
      deleteEntry "e2" shop_world = (Ok plans, w')
      /\ entries shop !! n = Some plans
      /\ Spec.stored_entries w' = delete n (entries shop)
      /\ (exists w'', getEntryById "e2" w' = (Ok None, w'')))
  /\ (exists w', deleteEntry "nobody" shop_world = (Throw (not_found "nobody"), w')
                 /\ files w' = files shop_world).
Proof.
  destruct deleteEntry_removes as [Known Unknown]. split.
  - destruct (Known shop_world shop "e2" plans) as (n & w' & E & Hn & Hs & _ & Hget);
      [reflexivity | reflexivity | reflexivity |].
    exists n, w'. repeat (split; [assumption|]). apply Hget.
    apply (bool_decide_unpack _). vm_compute. reflexivity.
  - apply (Unknown shop_world shop "nobody"); reflexivity.
Defined.

End MoreEntries.

(** ** The context handed to the prompt *)

Section Context.
Import Js KnowledgeBase Worlds.

Lemma append_filled_r (s t : string) : t <> EmptyString -> s +:+ t <> EmptyString.
Proof. destruct s; simpl; [tauto | discriminate]. Qed.

Lemma join_filled (sep p : string) (rest : list string) :
  p <> EmptyString -> join sep (p :: rest) <> EmptyString.
Proof.
  intros Hp. destruct rest as [|q rest]; [exact Hp|].
  cbn [join]. destruct p; [contradiction | discriminate].
Qed.

Lemma join_includes (sep p : string) (parts : list string) :
  In p parts -> includes (join sep parts) p = true.
Proof.
  induction parts as [|q parts IH]; [contradiction|].
  intros Hin. destruct parts as [|q' parts].
  - destruct Hin as [->|[]]. apply includes_self.
  - change (join sep (q :: q' :: parts))
      with (q +:+ sep +:+ join sep (q' :: parts)).
    destruct Hin as [->|Hin].
    + apply includes_app_l, includes_self.
    + apply includes_app_r, includes_app_r, IH, Hin.
Qed.

(** X7. [getRelevantContext] answers the empty string exactly when the
    search has no result, and otherwise a text that contains the line
    [key: value] of every result. *)
Theorem getRelevantContext_of_results (w : World) (d : KnowledgeBaseDocument)
    (userMessage : string) (maxEntries : Z) :
  Spec.reliable w -> Spec.holds w d ->
  exists results context w1 w2,
    searchEntries userMessage maxEntries w = (Ok results, w1)
    /\ getRelevantContext userMessage maxEntries w = (Ok context, w2)
    /\ (context = EmptyString <-> results = [])
    /\ (forall r, In r results ->
          includes context (key (entry r) +:+ ": " +:+ value (entry r)) = true).
Proof.
  intros Hf Hd.
  assert (S : searchEntries userMessage maxEntries w
              = (Ok (searchEntries_in (entries d) userMessage maxEntries), ready w)).
  { unfold searchEntries.
    now rewrite (bind_ok _ _ _ _ _ (getAllEntries_document d w Hf Hd)). }
  unfold getRelevantContext. rewrite (bind_ok _ _ _ _ _ S), S.
  destruct (searchEntries_in (entries d) userMessage maxEntries) as [|r rs].
  - exists [], EmptyString, (ready w), (ready w).
    split; [reflexivity|]. split; [reflexivity|]. split; [tauto | contradiction].
  - eexists (r :: rs), _, (ready w), (ready w).
    split; [reflexivity|]. split; [reflexivity|]. split.
    + split; [|discriminate]. intros H. exfalso. revert H.
      cbn [map]. apply join_filled, append_filled_r. discriminate.
    + intros r' Hin. apply join_includes.
      apply (in_map (fun r => key (entry r) +:+ ": " +:+ value (entry r))) in Hin.
      exact Hin.
Qed.

Lemma getRelevantContext_of_results_witness :
  exists results context w1 w2,
    searchEntries "hours" 3 shop_world = (Ok results, w1)
    /\ getRelevantContext "hours" 3 shop_world = (Ok context, w2)
    /\ (context = EmptyString <-> results = [])
    /\ (forall r, In r results ->
          includes context (key (entry r) +:+ ": " +:+ value (entry r)) = true).
Proof.
  apply (getRelevantContext_of_results shop_world shop "hours" 3); reflexivity.
Defined.

End Context.

(** ** More on the gateway *)

Section GatewayWalk.
Import Js GeminiService.
Variable service : Service.
Variables prompt knowledgeContext : string.

Let call_of (t : ModelTier) : string * string :=
  (name t, constructPrompt prompt knowledgeContext).

Lemma attempt_ok (g : Gateway) (t : ModelTier) (text : string) :
  modelTiers g !! currentModelIndex g = Some t ->
  service (length (calls g)) (name t) (constructPrompt prompt knowledgeContext) = Ok text ->
  generateAttempt service prompt knowledgeContext g
  = (Ok (mkResponse text (name t) (tier t)),
     mkGateway (modelTiers g) (currentModelIndex g) (lastFailureTime g)
       (retryDelay g) (clock g) (calls g ++ [call_of t])
       (timers g ++ if (0 <? currentModelIndex g)%nat then [retryDelay g] else [])).
Proof.
  intros Ht Hs. unfold generateAttempt, bind, currentTier, generateContent.
  rewrite Ht, Hs. simpl.
  destruct (0 <? currentModelIndex g)%nat; simpl; rewrite Ht; [reflexivity|].
  now rewrite app_nil_r.
Qed.

Lemma take_one_drop {A} (l : list A) (i : nat) (x : A) :
  l !! i = Some x -> take 1 (drop i l) = [x].
Proof. intros H. now rewrite (drop_S _ _ _ H). Qed.

Lemma exhausted_not_quota : isQuotaError exhausted = false.
Proof. vm_compute. reflexivity. Qed.

(** The loop, from a cursor inside the list, with enough passes left to
    reach the last tier. *)
Lemma loop_walk (k : nat) :
  forall lastError g,
    (currentModelIndex g < length (modelTiers g))%nat ->
    (length (modelTiers g) - currentModelIndex g <= k)%nat ->
    exists m, (1 <= m)%nat /\
      match generateLoop service k lastError prompt knowledgeContext g with
      | (r, g') =>
          calls g' = (calls g ++ map call_of
                        (take m (drop (currentModelIndex g) (modelTiers g))))%list
          /\ (currentModelIndex g' + 1 = currentModelIndex g + m)%nat
          /\ (currentModelIndex g' < length (modelTiers g))%nat
          /\ modelTiers g' = modelTiers g
          /\ match r with
             | Ok resp =>
                 (exists t, modelTiers g !! currentModelIndex g' = Some t
                            /\ modelUsed resp = name t /\ tier_used resp = tier t
                            /\ service (length (calls g') - 1)%nat (name t)
                                 (constructPrompt prompt knowledgeContext)
                               = Ok (response resp))
                 /\ timers g' = (timers g ++ if (0 <? currentModelIndex g')%nat
                                             then [retryDelay g] else [])%list
                 /\ lastFailureTime g' = lastFailureTime g
             | Throw e =>
                 isQuotaError e = false /\ timers g' = timers g
                 /\ ((e = exhausted /\ lastFailureTime g' = Some (clock g)
                      /\ S (currentModelIndex g') = length (modelTiers g))
                     \/ ((exists t, modelTiers g !! currentModelIndex g' = Some t
                                    /\ service (length (calls g') - 1)%nat (name t)
                                         (constructPrompt prompt knowledgeContext)
                                       = Throw e)
                         /\ lastFailureTime g' = lastFailureTime g))
             end
      end.
Proof.
  induction k as [|k IH]; intros lastError g Hidx Hk; [lia|].
  destruct (lookup_lt_is_Some_2 _ _ Hidx) as [t Ht].
  destruct (service (length (calls g)) (name t)
              (constructPrompt prompt knowledgeContext)) as [text|e] eqn:Hs.
  - exists 1%nat. split; [lia|]. cbn [generateLoop].
    rewrite (attempt_ok g t text Ht Hs).
    cbn [calls currentModelIndex modelTiers timers lastFailureTime].
    rewrite (take_one_drop _ _ _ Ht). simpl map.
    split; [reflexivity|]. split; [lia|]. split; [exact Hidx|]. split; [reflexivity|].
    split; [|split; reflexivity].
    exists t. split; [exact Ht|]. split; [reflexivity|]. split; [reflexivity|].
    rewrite length_snoc. simpl. now rewrite Nat.sub_0_r.
  - destruct (isQuotaError e) eqn:Hq.
    + destruct (Nat.eq_dec (S (currentModelIndex g)) (length (modelTiers g))) as [Hlast|Hmore].
      * exists 1%nat. split; [lia|].
        rewrite (loop_exhausts service prompt knowledgeContext k lastError g t e
                   Ht Hs Hq Hlast).
        cbn [calls currentModelIndex modelTiers timers lastFailureTime].
        rewrite (take_one_drop _ _ _ Ht). simpl map.
        split; [reflexivity|]. split; [lia|]. split; [exact Hidx|]. split; [reflexivity|].
        split; [apply exhausted_not_quota|]. split; [reflexivity|]. left. now repeat split.
      * rewrite (loop_switches service prompt knowledgeContext k lastError g t e
                   Ht Hs Hq ltac:(lia)).
        match goal with |- context [generateLoop _ k ?le _ _ ?g1] =>
          destruct (IH le g1) as (m & Hm & H); [simpl; lia | simpl; lia |];
          destruct (generateLoop service k le prompt knowledgeContext g1) as [r g'] end.
        cbn [calls currentModelIndex modelTiers timers lastFailureTime retryDelay clock] in H.
        destruct H as (Hcalls & Hi & Hlt & Htiers & Hr).
        exists (S m). split; [lia|].
        split.
        { rewrite Hcalls, (drop_S _ _ _ Ht). simpl. now rewrite <- app_assoc. }
        split; [lia|]. split; [exact Hlt|]. split; [exact Htiers|]. exact Hr.
    + exists 1%nat. split; [lia|].
      rewrite (loop_rethrows service prompt knowledgeContext k lastError g t e Ht Hs Hq).
      cbn [calls currentModelIndex modelTiers timers lastFailureTime].
      rewrite (take_one_drop _ _ _ Ht). simpl map.
      split; [reflexivity|]. split; [lia|]. split; [exact Hidx|]. split; [reflexivity|].
      split; [exact Hq|]. split; [reflexivity|]. right. split; [|reflexivity].
      exists t. split; [exact Ht|]. rewrite length_snoc. simpl.
      now rewrite Nat.sub_0_r.
Qed.

End GatewayWalk.

Section MoreGateway.
Import Js GeminiService.

(** X8. From a cursor inside the tier list, [generateResponse] calls the
    tiers one after the other, starting at the cursor and with one and
    the same prompt, makes at least one call, and leaves the cursor on
    the tier of its last call: the cursor never moves back, never leaves
    the list, and the tiers above it are not tried.  The tier list is
    not changed. *)
Theorem generateResponse_walks_down (service : Service) (g : Gateway)
    (prompt knowledgeContext : string) :
  (currentModelIndex g < length (modelTiers g))%nat ->
  exists m, (1 <= m)%nat
    /\ calls (snd (generateResponse service prompt knowledgeContext g))
       = (calls g ++ map (fun t => (name t, constructPrompt prompt knowledgeContext))
                       (take m (drop (currentModelIndex g) (modelTiers g))))%list
    /\ (currentModelIndex (snd (generateResponse service prompt knowledgeContext g)) + 1
        = currentModelIndex g + m)%nat
    /\ (currentModelIndex (snd (generateResponse service prompt knowledgeContext g))
        < length (modelTiers g))%nat
    /\ modelTiers (snd (generateResponse service prompt knowledgeContext g))
       = modelTiers g.
Proof.
  intros Hidx. unfold generateResponse.
  destruct (loop_walk service prompt knowledgeContext (length (modelTiers g)) None g Hidx)
    as (m & Hm & H); [lia|].
  exists m. split; [exact Hm|].
  destruct (generateLoop service (length (modelTiers g)) None prompt knowledgeContext g)
    as [r g']. simpl. tauto.
Qed.

Lemma generateResponse_walks_down_witness :
  exists m, (1 <= m)%nat
    /\ calls (snd (generateResponse Services.recovering "Hi" "" (constructor 5)))
       = map (fun t => (name t, constructPrompt "Hi" "")) (take m defaultTiers)
    /\ (currentModelIndex
          (snd (generateResponse Services.recovering "Hi" "" (constructor 5))) + 1
        = m)%nat.
Proof.
  destruct (generateResponse_walks_down Services.recovering (constructor 5) "Hi" "")
    as (m & Hm & Hc & Hi & _); [simpl; lia|].
  exists m. split; [exact Hm|]. split; [exact Hc | exact Hi].
Defined.

(** X9. When [generateResponse] returns, the model name and the tier
    label it reports are those of the tier the cursor is left on, the
    text is what the service answered to the last call, and
    [lastFailureTime] is untouched; a reset timer of [retryDelay] is
    added exactly when that tier is not the first. *)
Theorem generateResponse_reports_its_tier (service : Service) (g g' : Gateway)
    (prompt knowledgeContext : string) (resp : Response) :
  (currentModelIndex g < length (modelTiers g))%nat ->
  generateResponse service prompt knowledgeContext g = (Ok resp, g') ->
  (exists t, modelTiers g !! currentModelIndex g' = Some t
             /\ modelUsed resp = name t /\ tier_used resp = tier t
             /\ service (length (calls g') - 1)%nat (name t)
                  (constructPrompt prompt knowledgeContext)
                = Ok (response resp))
  /\ timers g' = (timers g ++ if (0 <? currentModelIndex g')%nat
                              then [retryDelay g] else [])%list
  /\ lastFailureTime g' = lastFailureTime g.
Proof.
  intros Hidx E. unfold generateResponse in E.
  destruct (loop_walk service prompt knowledgeContext (length (modelTiers g)) None g Hidx)
    as (m & Hm & H); [lia|].
  rewrite E in H. tauto.
Qed.

Lemma generateResponse_reports_its_tier_witness :
  exists g',
    generateResponse Services.recovering "Hi" "" (constructor 5)
    = (Ok (mkResponse "Hello" "gemini-1.5-flash-8b" "flash-lite"), g')
    /\ timers g' = [60000] /\ lastFailureTime g' = None.
Proof.
  eexists. split; [vm_compute; reflexivity|].
  destruct (generateResponse_reports_its_tier Services.recovering (constructor 5) _
              "Hi" "" _ ltac:(simpl; lia) ltac:(vm_compute; reflexivity))
    as (_ & Ht & Hl).
  split; [exact Ht | exact Hl].
Defined.

(** X10. From a cursor inside the tier list, [generateResponse] never
    hands a quota error to its caller.  What it throws is either the
    exhaustion error, with the cursor on the last tier and the time
    recorded in [lastFailureTime], or the error the service answered to
    the last call, not classified as a quota error and with
    [lastFailureTime] untouched; no reset timer is added. *)
Theorem generateResponse_masks_quota_errors (service : Service) (g g' : Gateway)
    (prompt knowledgeContext : string) (e : Error) :
  (currentModelIndex g < length (modelTiers g))%nat ->
  generateResponse service prompt knowledgeContext g = (Throw e, g') ->
  isQuotaError e = false /\ timers g' = timers g
  /\ ((e = exhausted /\ lastFailureTime g' = Some (clock g)
       /\ S (currentModelIndex g') = length (modelTiers g))
      \/ ((exists t, modelTiers g !! currentModelIndex g' = Some t
                     /\ service (length (calls g') - 1)%nat (name t)
                          (constructPrompt prompt knowledgeContext)
                        = Throw e)
          /\ lastFailureTime g' = lastFailureTime g)).
Proof.
  intros Hidx E. unfold generateResponse in E.
  destruct (loop_walk service prompt knowledgeContext (length (modelTiers g)) None g Hidx)
    as (m & Hm & H); [lia|].
  rewrite E in H. tauto.
Qed.

Lemma generateResponse_masks_quota_errors_witness :
  exists g',
    generateResponse Services.exhausted_everywhere "Hi" "" (constructor 5)
    = (Throw exhausted, g')
    /\ isQuotaError exhausted = false /\ timers g' = [].
Proof.
  eexists. split; [vm_compute; reflexivity|].
  destruct (generateResponse_masks_quota_errors Services.exhausted_everywhere
              (constructor 5) _ "Hi" "" _ ltac:(simpl; lia) ltac:(vm_compute; reflexivity))
    as (Hq & Ht & _).
  split; [exact Hq | exact Ht].
Defined.

Lemma includes_upper_in_lowered (m p : string) (a : ascii) :
  (a = "R"%char \/ a = "Q"%char) ->
  includes (toLowerCase m) (String a p) = false.
Proof.
  intros Ha. destruct (includes (toLowerCase m) (String a p)) eqn:E; [|reflexivity].
  apply includes_head, lowered_chars in E. destruct E as (c & Hc).
  pose proof (lower_char_not_upper c) as [HR HQ]. destruct Ha; congruence.
Qed.

(** X11. The classification looks for its phrases in the lower-cased
    message, so only the four phrases written in lower case count: the
    entries [RATE_LIMIT_EXCEEDED] and [QUOTA_EXCEEDED] of the list never
    match, and an error whose message is one of them is not classified
    as a quota error. *)
Theorem isQuotaError_lowercase_phrases :
  (forall e : Error,
      isQuotaError e
      = existsb (fun phrase =>
                   includes (toLowerCase (default EmptyString (err_message e))) phrase)
          ["quota exceeded"; "rate limit"; "too many requests"; "resource exhausted"])
  /\ (forall (c : ErrorClass) (code : option string),
        isQuotaError (mkError c code (Some "RATE_LIMIT_EXCEEDED")) = false
        /\ isQuotaError (mkError c code (Some "QUOTA_EXCEEDED")) = false).
Proof.
  split; [|intros c code; split; vm_compute; reflexivity].
  intros e. unfold isQuotaError.
  replace (match err_message e with
           | Some m => toLowerCase m
           | None => EmptyString
           end) with (toLowerCase (default EmptyString (err_message e)))
    by now destruct (err_message e).
  unfold quotaErrorMessages. cbn [existsb].
  rewrite (includes_upper_in_lowered _ "ATE_LIMIT_EXCEEDED" "R") by (left; reflexivity).
  rewrite (includes_upper_in_lowered _ "UOTA_EXCEEDED" "Q") by (right; reflexivity).
  now rewrite !orb_false_r.
Qed.

(** X12. The prompt begins with the system instructions and contains the
    customer's message and the knowledge context. *)
Theorem constructPrompt_contains (userMessage knowledgeContext : string) :
  startsWith (constructPrompt userMessage knowledgeContext) systemInstructions = true
  /\ includes (constructPrompt userMessage knowledgeContext) userMessage = true
  /\ includes (constructPrompt userMessage knowledgeContext) knowledgeContext = true.
Proof.
  unfold constructPrompt.
  destruct (String.eqb_spec knowledgeContext EmptyString) as [->|Hc].
  - split; [apply startsWith_app, startsWith_self|]. split.
    + apply includes_app_r, includes_app_r, includes_app_l, includes_self.
    + destruct (_ +:+ _); reflexivity.
  - split; [apply startsWith_app, startsWith_app, startsWith_self|]. split.
    + apply includes_app_r, includes_app_r, includes_app_l, includes_self.
    + apply includes_app_l.
      apply includes_app_r, includes_app_r, includes_app_r, includes_app_l,
        includes_self.
Qed.

End MoreGateway.

(** ** The names of the snapshots and their order *)

Section DatesFacts.
Import Js KnowledgeBase Dates.

Lemma DayFromYear_step (y : Z) :
  DayFromYear (y + 1) = DayFromYear y + 365 + InLeapYear y.
Proof.
  unfold DayFromYear, InLeapYear.
  destruct (y mod 4 =? 0) eqn:E4; destruct (y mod 100 =? 0) eqn:E100;
    destruct (y mod 400 =? 0) eqn:E400; simpl;
    rewrite ?Z.eqb_eq, ?Z.eqb_neq in *;
    Z.to_euclidean_division_equations; lia.
Qed.

Lemma YearFromTime_bracket (t : Z) :
  TimeFromYear (YearFromTime t) <= t < TimeFromYear (YearFromTime t + 1).
Proof.
  unfold YearFromTime. cbv zeta.
  destruct (t <? TimeFromYear (1970 + t / 31556952000)) eqn:E1.
  - apply Z.ltb_lt in E1. replace (1970 + t / 31556952000 - 1 + 1) with (1970 + t / 31556952000) by lia.
    split; [|exact E1]. revert E1. unfold TimeFromYear, DayFromYear, msPerDay.
    Z.to_euclidean_division_equations; lia.
  - apply Z.ltb_ge in E1.
    destruct (TimeFromYear (1970 + t / 31556952000 + 1) <=? t) eqn:E2.
    + apply Z.leb_le in E2. split; [exact E2|]. revert E2. unfold TimeFromYear, DayFromYear, msPerDay.
      Z.to_euclidean_division_equations; lia.
    + apply Z.leb_gt in E2. split; assumption.
Qed.

Lemma DayFromYear_mono (y1 y2 : Z) : y1 <= y2 -> DayFromYear y1 <= DayFromYear y2.
Proof. unfold DayFromYear. intros H. Z.to_euclidean_division_equations; lia. Qed.

Lemma YearFromTime_range (t : Z) : four_digit_year t -> 0 <= YearFromTime t <= 9999.
Proof.
  intros [H1 H2]. pose proof (YearFromTime_bracket t) as [B1 B2].
  unfold TimeFromYear, msPerDay in *.
  destruct (Z_lt_le_dec (YearFromTime t) 0) as [Hn|Hn].
  - pose proof (DayFromYear_mono (YearFromTime t + 1) 0 ltac:(lia)) as M.
    change (DayFromYear 0) with (-719528) in M. lia.
  - destruct (Z_lt_le_dec 9999 (YearFromTime t)) as [Hp|Hp]; [|lia].
    pose proof (DayFromYear_mono 10000 (YearFromTime t) ltac:(lia)) as M.
    change (DayFromYear 10000) with 2932897 in M. lia.
Qed.

Lemma YearFromTime_mono (a b : Z) : a <= b -> YearFromTime a <= YearFromTime b.
Proof.
  intros H. pose proof (YearFromTime_bracket a) as [A1 A2].
  pose proof (YearFromTime_bracket b) as [B1 B2].
  destruct (Z_lt_le_dec (YearFromTime b) (YearFromTime a)) as [Hn|Hn]; [|lia].
  pose proof (DayFromYear_mono (YearFromTime b + 1) (YearFromTime a) ltac:(lia)) as M.
  unfold TimeFromYear, msPerDay in *. lia.
Qed.

Lemma DayWithinYear_range (t : Z) :
  0 <= DayWithinYear t < 365 + InLeapYear (YearFromTime t).
Proof.
  unfold DayWithinYear, Day. pose proof (YearFromTime_bracket t) as [B1 B2].
  unfold TimeFromYear in *. rewrite DayFromYear_step in B2. unfold msPerDay in *.
  Z.to_euclidean_division_equations; lia.
Qed.

Lemma InLeapYear_bit (y : Z) : InLeapYear y = 0 \/ InLeapYear y = 1.
Proof. unfold InLeapYear. destruct (_ || _); auto. Qed.

Lemma month_date_range (d leap : Z) :
  0 <= d < 365 + leap -> 0 <= leap <= 1 ->
  0 <= month_of d leap <= 11 /\ 1 <= date_of d leap <= 31.
Proof.
  intros Hd Hl. unfold month_of, date_of.
  repeat match goal with
         | |- context [?x <? ?y] => destruct (Z.ltb_spec x y)
         end; lia.
Qed.

Lemma month_date_mono (d d' leap : Z) :
  0 <= d -> d < d' -> d' < 365 + leap -> 0 <= leap <= 1 ->
  month_of d leap < month_of d' leap
  \/ (month_of d leap = month_of d' leap /\ date_of d leap < date_of d' leap).
Proof.
  intros Hd Hlt Hd' Hl. unfold month_of, date_of.
  repeat match goal with
         | |- context [?x <? ?y] => destruct (Z.ltb_spec x y)
         end; lia.
Qed.

Lemma time_fields_range (t : Z) :
  0 <= HourFromTime t < 24 /\ 0 <= MinFromTime t < 60
  /\ 0 <= SecFromTime t < 60 /\ 0 <= msFromTime t < 1000.
Proof.
  unfold HourFromTime, MinFromTime, SecFromTime, msFromTime.
  Z.to_euclidean_division_equations; lia.
Qed.

Lemma time_fields_mono (a b : Z) :
  Day a = Day b -> a < b ->
  HourFromTime a < HourFromTime b
  \/ (HourFromTime a = HourFromTime b
      /\ (MinFromTime a < MinFromTime b
          \/ (MinFromTime a = MinFromTime b
              /\ (SecFromTime a < SecFromTime b
                  \/ (SecFromTime a = SecFromTime b
                      /\ msFromTime a < msFromTime b))))).
Proof.
  unfold Day, msPerDay, HourFromTime, MinFromTime, SecFromTime, msFromTime.
  intros Hday Hlt. Z.to_euclidean_division_equations; lia.
Qed.

Lemma Day_mono (a b : Z) : a <= b -> Day a <= Day b.
Proof. unfold Day, msPerDay. intros H. Z.to_euclidean_division_equations; lia. Qed.

Lemma lex_refl (l : list Z) : lex l l = 0.
Proof. induction l as [|x l IH]; simpl; [reflexivity|]. now rewrite Z.ltb_irrefl. Qed.

Lemma lex_flip (l l' : list Z) : lex l l' = -1 -> lex l' l = 1.
Proof.
  revert l'; induction l as [|x l IH]; intros [|y l']; simpl; try discriminate.
  destruct (Z.ltb_spec x y), (Z.ltb_spec y x); try discriminate; try lia; auto.
Qed.

Lemma date_fields_mono (a b : Z) :
  a < b -> lex (date_fields a) (date_fields b) = -1.
Proof.
  intros Hlt. unfold date_fields, lex.
  pose proof (YearFromTime_mono a b ltac:(lia)) as HY.
  destruct (Z.ltb_spec (YearFromTime a) (YearFromTime b)) as [|HY']; [reflexivity|].
  destruct (Z.ltb_spec (YearFromTime b) (YearFromTime a)); [lia|].
  assert (EY : YearFromTime a = YearFromTime b) by lia.
  unfold MonthFromTime, DateFromTime. rewrite EY.
  pose proof (DayWithinYear_range a) as Ra. pose proof (DayWithinYear_range b) as Rb.
  rewrite EY in Ra.
  pose proof (InLeapYear_bit (YearFromTime b)) as HL.
  pose proof (Day_mono a b ltac:(lia)) as HD.
  assert (Hd : DayWithinYear a <= DayWithinYear b).
  { unfold DayWithinYear. rewrite EY. lia. }
  destruct (Z_lt_le_dec (DayWithinYear a) (DayWithinYear b)) as [Hdlt|Hdeq].
  - destruct (month_date_mono (DayWithinYear a) (DayWithinYear b)
                (InLeapYear (YearFromTime b))) as [Hm|[Hm Hdd]]; try lia.
    + destruct (Z.ltb_spec (month_of (DayWithinYear a) (InLeapYear (YearFromTime b)) + 1)
                           (month_of (DayWithinYear b) (InLeapYear (YearFromTime b)) + 1));
        [reflexivity | lia].
    + rewrite Hm, Z.ltb_irrefl.
      destruct (Z.ltb_spec (date_of (DayWithinYear a) (InLeapYear (YearFromTime b)))
                           (date_of (DayWithinYear b) (InLeapYear (YearFromTime b))));
        [reflexivity | lia].
  - assert (Ed : DayWithinYear a = DayWithinYear b) by lia.
    rewrite Ed, !Z.ltb_irrefl.
    assert (EDay : Day a = Day b).
    { unfold DayWithinYear in Ed. rewrite EY in Ed. lia. }
    pose proof (time_fields_mono a b EDay Hlt) as T.
    repeat match goal with
           | |- context [?x <? ?y] => destruct (Z.ltb_spec x y)
           end; try reflexivity; lia.
Qed.

Lemma date_fields_order (a b : Z) :
  (lex (date_fields a) (date_fields b) <=? 0) = (a - b <=? 0).
Proof.
  destruct (Z.lt_trichotomy a b) as [H|[H|H]].
  - rewrite (date_fields_mono a b H). symmetry. apply Z.leb_le. lia.
  - subst b. rewrite lex_refl. symmetry. apply Z.leb_le. lia.
  - rewrite (lex_flip _ _ (date_fields_mono b a H)). symmetry. apply Z.leb_gt. lia.
Qed.

Lemma append_cons (c : ascii) (s t : string) : String c s +:+ t = String c (s +:+ t).
Proof. reflexivity. Qed.

Lemma append_nil (t : string) : EmptyString +:+ t = t.
Proof. reflexivity. Qed.

Lemma append_assoc (s t u : string) : (s +:+ t) +:+ u = s +:+ (t +:+ u).
Proof.
  induction s as [|c s IH]; [reflexivity|].
  rewrite !append_cons. f_equal. exact IH.
Qed.

Lemma compare_strings_prefix (p s s' : string) :
  compare_strings (p +:+ s) (p +:+ s') = compare_strings s s'.
Proof.
  induction p as [|c p IH]; [reflexivity|].
  rewrite !append_cons. cbn [compare_strings]. now rewrite N.ltb_irrefl.
Qed.

Lemma digit_cases (d : Z) :
  0 <= d <= 9 ->
  d = 0 \/ d = 1 \/ d = 2 \/ d = 3 \/ d = 4 \/ d = 5 \/ d = 6 \/ d = 7 \/ d = 8 \/ d = 9.
Proof. lia. Qed.

Lemma N_of_digit (d : Z) : 0 <= d <= 9 -> N_of_ascii (digit d) = Z.to_N (48 + d).
Proof.
  intros H. destruct (digit_cases d H) as [->|[->|[->|[->|[->|[->|[->|[->|[->| ->]]]]]]]]];
    reflexivity.
Qed.

Lemma digit_plain (d : Z) :
  0 <= d <= 9 -> Ascii.eqb (digit d) ":" || Ascii.eqb (digit d) "." = false.
Proof.
  intros H. destruct (digit_cases d H) as [->|[->|[->|[->|[->|[->|[->|[->|[->| ->]]]]]]]]];
    reflexivity.
Qed.

Lemma compare_digit_head (d e : Z) (s s' : string) :
  0 <= d <= 9 -> 0 <= e <= 9 ->
  compare_strings (String (digit d) s) (String (digit e) s')
  = if d <? e then -1 else if e <? d then 1 else compare_strings s s'.
Proof.
  intros Hd He. simpl. rewrite !N_of_digit by assumption.
  destruct (N.ltb_spec (Z.to_N (48 + d)) (Z.to_N (48 + e))),
           (Z.ltb_spec d e); try lia; try reflexivity.
  destruct (N.ltb_spec (Z.to_N (48 + e)) (Z.to_N (48 + d))),
           (Z.ltb_spec e d); try lia; reflexivity.
Qed.

Lemma compare_digits (w : nat) :
  forall (n m : Z) (s s' : string),
    0 <= n < 10 ^ Z.of_nat w -> 0 <= m < 10 ^ Z.of_nat w ->
    compare_strings (digits w n +:+ s) (digits w m +:+ s')
    = if n <? m then -1 else if m <? n then 1 else compare_strings s s'.
Proof.
  induction w as [|w IH]; intros n m s s' Hn Hm.
  - simpl in *. assert (n = 0) by lia. assert (m = 0) by lia. subst. reflexivity.
  - rewrite Nat2Z.inj_succ, Z.pow_succ_r in Hn, Hm by lia.
    cbn [digits]. rewrite !append_assoc, !append_cons, !append_nil.
    rewrite IH by (Z.to_euclidean_division_equations; lia).
    rewrite compare_digit_head by (Z.to_euclidean_division_equations; lia).
    repeat match goal with
           | |- context [?x <? ?y] => destruct (Z.ltb_spec x y)
           end; try reflexivity; exfalso; Z.to_euclidean_division_equations; lia.
Qed.

Lemma dashed_app (s t : string) : dashed (s +:+ t) = dashed s +:+ dashed t.
Proof.
  induction s as [|c s IH]; [reflexivity|].
  rewrite append_cons. cbn [dashed]. now rewrite IH.
Qed.

Lemma dashed_digits (w : nat) (n : Z) : dashed (digits w n) = digits w n.
Proof.
  revert n; induction w as [|w IH]; intros n; cbn [digits]; [reflexivity|].
  rewrite dashed_app, IH. cbn [dashed].
  now rewrite digit_plain by (Z.to_euclidean_division_equations; lia).
Qed.

Lemma compare_strings_refl (s : string) : compare_strings s s = 0.
Proof. induction s as [|c s IH]; simpl; [reflexivity|]. now rewrite N.ltb_irrefl. Qed.

Lemma compare_strings_head (c : ascii) (s s' : string) :
  compare_strings (String c s) (String c s') = compare_strings s s'.
Proof. simpl. now rewrite N.ltb_irrefl. Qed.

Lemma date_fields_range (t : Z) :
  four_digit_year t ->
  0 <= YearFromTime t < 10 ^ Z.of_nat 4
  /\ 0 <= MonthFromTime t + 1 < 10 ^ Z.of_nat 2
  /\ 0 <= DateFromTime t < 10 ^ Z.of_nat 2
  /\ 0 <= HourFromTime t < 10 ^ Z.of_nat 2
  /\ 0 <= MinFromTime t < 10 ^ Z.of_nat 2
  /\ 0 <= SecFromTime t < 10 ^ Z.of_nat 2
  /\ 0 <= msFromTime t < 10 ^ Z.of_nat 3.
Proof.
  intros H. pose proof (YearFromTime_range t H).
  pose proof (time_fields_range t) as (? & ? & ? & ?).
  pose proof (InLeapYear_bit (YearFromTime t)).
  destruct (month_date_range (DayWithinYear t) (InLeapYear (YearFromTime t)))
    as [? ?]; [apply DayWithinYear_range | lia |].
  unfold MonthFromTime, DateFromTime.
  change (10 ^ Z.of_nat 4) with 10000. change (10 ^ Z.of_nat 2) with 100.
  change (10 ^ Z.of_nat 3) with 1000. lia.
Qed.

Lemma backup_name_compare (a b : Z) :
  four_digit_year a -> four_digit_year b ->
  compare_strings (basename (SafetyBackup a)) (basename (SafetyBackup b))
  = lex (date_fields a) (date_fields b).
Proof.
  intros Ha Hb.
  destruct (date_fields_range a Ha) as (Ya & Ma & Da & ha & ma & sa & la).
  destruct (date_fields_range b Hb) as (Yb & Mb & Db & hb & mb & sb & lb).
  unfold basename, toISOString, year_text.
  replace ((0 <=? YearFromTime a) && (YearFromTime a <=? 9999)) with true
    by (symmetry; apply andb_true_iff; split; apply Z.leb_le;
        change (10 ^ Z.of_nat 4) with 10000 in Ya; lia).
  replace ((0 <=? YearFromTime b) && (YearFromTime b <=? 9999)) with true
    by (symmetry; apply andb_true_iff; split; apply Z.leb_le;
        change (10 ^ Z.of_nat 4) with 10000 in Yb; lia).
  rewrite compare_strings_prefix, !dashed_app, !dashed_digits.
  cbn [dashed Ascii.eqb Bool.eqb orb andb]. rewrite !append_assoc.
  rewrite !append_cons, !append_nil.
  rewrite (compare_digits 4) by assumption. rewrite compare_strings_head.
  rewrite (compare_digits 2) by assumption. rewrite compare_strings_head.
  rewrite (compare_digits 2) by assumption. rewrite compare_strings_head.
  rewrite (compare_digits 2) by assumption. rewrite compare_strings_head.
  rewrite (compare_digits 2) by assumption. rewrite compare_strings_head.
  rewrite (compare_digits 2) by assumption. rewrite compare_strings_head.
  rewrite (compare_digits 3) by assumption. rewrite compare_strings_refl.
  reflexivity.
Qed.

Lemma backup_name_order (a b : Z) :
  four_digit_year a -> four_digit_year b ->
  (compare_strings (basename (SafetyBackup a)) (basename (SafetyBackup b)) <=? 0) = (a - b <=? 0).
Proof.
  intros Ha Hb. rewrite backup_name_compare by assumption. apply date_fields_order.
Qed.

Lemma sort_insert_ext {A} (c1 c2 : A -> A -> Z) (x : A) (l : list A) :
  (forall y, y ∈ l -> (c1 x y <=? 0) = (c2 x y <=? 0)) ->
  sort_insert c1 x l = sort_insert c2 x l.
Proof.
  induction l as [|y l IH]; intros H; simpl; [reflexivity|].
  rewrite (H y) by left. destruct (c2 x y <=? 0); [reflexivity|].
  f_equal. apply IH. intros z Hz. apply H. now right.
Qed.

(** Two comparators that agree on the elements of a list sort it alike. *)
Lemma sort_ext {A} (c1 c2 : A -> A -> Z) (l : list A) :
  (forall x y, x ∈ l -> y ∈ l -> (c1 x y <=? 0) = (c2 x y <=? 0)) ->
  sort c1 l = sort c2 l.
Proof.
  induction l as [|x l IH]; intros H; simpl; [reflexivity|].
  fold (sort c1 l). fold (sort c2 l).
  rewrite IH by (intros y z Hy Hz; apply H; now right).
  apply sort_insert_ext. intros y Hy. apply H; [left|].
  right. now rewrite sort_perm in Hy.
Qed.

(** Within the years 0000 to 9999 the order of the names is the order of
    the times. *)
Lemma sort_names_as_stamps (l : list Path) :
  Forall (fun p => is_safety_backup p = true /\ four_digit_year (stamp_of p)) l ->
  sort (fun a b => compare_strings (basename a) (basename b)) l
  = sort (fun a b => stamp_of a - stamp_of b) l.
Proof.
  intros H. apply sort_ext. intros x y Hx Hy. rewrite Forall_forall in H.
  destruct (H x Hx) as [Sx Rx], (H y Hy) as [Sy Ry].
  destruct x; try discriminate. destruct y; try discriminate.
  now apply backup_name_order.
Qed.

End DatesFacts.

(** ** The safety snapshots *)

Section Snapshots.
Import Js KnowledgeBase Worlds Effects.

Lemma fs_unlink_reliable (p : Path) (w : World) :
  faults w = [] -> has_dir (dirname p) w = true -> is_Some (files w !! p) ->
  fs_unlink p w = (Ok tt, set_files (delete p (files w)) w).
Proof.
  intros Hf Hd [t Ht]. unfold fs_unlink, bind, fs_call. rewrite Hf at 1.
  now rewrite Hd, Ht.
Qed.

Lemma unlink_each_reliable (l : list Path) :
  forall w, faults w = [] -> NoDup l ->
    Forall (fun p => has_dir (dirname p) w = true /\ is_Some (files w !! p)) l ->
    exists w', unlink_each l w = (Ok tt, w')
               /\ faults w' = []
               /\ forall p, files w' !! p
                            = if decide (p ∈ l) then None else files w !! p.
Proof.
  induction l as [|p l IH]; intros w Hf Hnd Hall.
  - exists w. split; [reflexivity|]. split; [exact Hf|]. intros p.
    destruct (decide (p ∈ [])) as [H|_]; [inversion H | reflexivity].
  - apply NoDup_cons in Hnd. destruct Hnd as [Hp Hnd].
    inversion Hall as [|? ? [Hd Hs] Hrest]; subst.
    cbn [unlink_each]. rewrite (bind_ok _ _ _ _ _ (fs_unlink_reliable p w Hf Hd Hs)).
    set (w1 := set_files (delete p (files w)) w).
    destruct (IH w1) as (w' & E & Hf' & Hfiles); [destruct w; exact Hf | exact Hnd | |].
    { apply Forall_forall. intros q Hq.
      rewrite Forall_forall in Hrest. destruct (Hrest q Hq) as [Hdq Hsq].
      split; [destruct w; exact Hdq|].
      subst w1. destruct w; simpl in *. rewrite lookup_delete_ne; [exact Hsq|].
      intros ->. contradiction. }
    exists w'. split; [exact E|]. split; [exact Hf'|]. intros q. rewrite Hfiles.
    subst w1. destruct w as [f dd bd c en fl sl tk]; simpl.
    destruct (decide (q ∈ l)) as [Hq|Hq]; destruct (decide (q ∈ p :: l)) as [Hq'|Hq'];
      try reflexivity.
    + exfalso. apply Hq'. now right.
    + apply elem_of_cons in Hq'. destruct Hq' as [->|Hq']; [|contradiction].
      apply lookup_delete_eq.
    + apply lookup_delete_ne. intros ->. apply Hq'. left.
Qed.

Lemma sort_stamps_sorted (l : list Path) :
  StronglySorted (fun a b => stamp_of a <= stamp_of b)
    (sort (fun a b => stamp_of a - stamp_of b) l).
Proof.
  induction l as [|x l IH]; simpl; [constructor|].
  fold (sort (fun a b => stamp_of a - stamp_of b) l).
  induction IH as [|y rest Hrest IHrest Hy]; simpl; [repeat constructor|].
  destruct (stamp_of x - stamp_of y <=? 0) eqn:E.
  - apply Z.leb_le in E. constructor; [now constructor|].
    constructor; [lia|]. eapply Forall_impl; [exact Hy|]. simpl. intros; lia.
  - apply Z.leb_gt in E. constructor; [exact IHrest|].
    rewrite sort_insert_perm. constructor; [lia | exact Hy].
Qed.

(** In a sorted list what comes first is below what comes later. *)
Lemma sorted_take_drop {A} (R : A -> A -> Prop) (l : list A) (k : nat) (x y : A) :
  StronglySorted R l -> x ∈ take k l -> y ∈ drop k l -> R x y.
Proof.
  intros Hs. revert k. induction Hs as [|z l Hl IH Hz]; intros k Hx Hy.
  - destruct k; inversion Hx.
  - destruct k as [|k]; [inversion Hx|]. simpl in Hx, Hy.
    apply elem_of_cons in Hx. destruct Hx as [->|Hx].
    + rewrite Forall_forall in Hz. apply Hz. eapply elem_of_sublist; [exact Hy | apply sublist_drop].
    + now apply (IH k).
Qed.

Lemma safety_path (p : Path) :
  is_safety_backup p = true -> p = SafetyBackup (stamp_of p).
Proof. destruct p; simpl; congruence. Qed.

(** What [readdir], the filter and the two sorts make of [backups/]. *)
Lemma newest_first (m : gmap Path Text) :
  (forall s, is_Some (m !! SafetyBackup s) -> Dates.four_digit_year s) ->
  let desc := rev (sort (fun a b => Dates.compare_strings (basename a) (basename b))
                     (List.filter is_safety_backup
                        (List.filter (in_dir BackupDir) (map fst (map_to_list m))))) in
  NoDup desc
  /\ (forall p, p ∈ desc <-> is_safety_backup p = true /\ is_Some (m !! p))
  /\ (forall x y, x ∈ take 5 desc -> y ∈ drop 5 desc -> stamp_of y <= stamp_of x).
Proof.
  intros Hrange.
  set (listed := List.filter is_safety_backup
                   (List.filter (in_dir BackupDir) (map fst (map_to_list m)))).
  set (asc := sort (fun a b => stamp_of a - stamp_of b) listed).
  assert (Hnames : sort (fun a b => Dates.compare_strings (basename a) (basename b))
                     listed = asc).
  { apply sort_names_as_stamps. apply Forall_forall. intros p Hp.
    subst listed. apply list_elem_of_In in Hp. rewrite !List.filter_In in Hp.
    destruct Hp as [[Hin _] Hs]. split; [exact Hs|]. apply Hrange.
    rewrite <- (safety_path p Hs). apply list_elem_of_In in Hin.
    change (map fst (map_to_list m)) with ((map_to_list m).*1) in Hin.
    apply list_elem_of_fmap in Hin. destruct Hin as [[q t] [-> Hq]].
    apply elem_of_map_to_list in Hq. simpl. eauto. }
  rewrite Hnames. intros desc.
  assert (Hlisted : forall p, p ∈ listed <-> is_safety_backup p = true /\ is_Some (m !! p)).
  { intros p. subst listed. rewrite list_elem_of_In, !List.filter_In, <- list_elem_of_In.
    change (map fst (map_to_list m)) with ((map_to_list m).*1).
    rewrite list_elem_of_fmap. split.
    - intros [[[[q t] [-> Hq]] _] Hs]. split; [exact Hs|].
      apply elem_of_map_to_list in Hq. simpl. eauto.
    - intros [Hs [t Ht]]. split; [|exact Hs]. split.
      + exists (p, t). split; [reflexivity|]. now apply elem_of_map_to_list.
      + destruct p; try discriminate. reflexivity. }
  assert (Hnd : NoDup listed).
  { subst listed.
    apply NoDup_ListNoDup, List.NoDup_filter, List.NoDup_filter, NoDup_ListNoDup.
    apply (NoDup_fst_map_to_list m). }
  split; [|split].
  - subst desc. apply NoDup_ListNoDup, NoDup_rev, NoDup_ListNoDup.
    subst asc. now rewrite sort_perm.
  - intros p. subst desc. rewrite list_elem_of_In, <- in_rev, <- list_elem_of_In.
    subst asc. rewrite sort_perm. apply Hlisted.
  - intros x y. subst desc. rewrite firstn_rev, skipn_rev.
    rewrite !list_elem_of_In, <- !in_rev, <- !list_elem_of_In.
    intros Hx Hy.
    apply (sorted_take_drop (fun a b => stamp_of a <= stamp_of b) asc
             (length asc - 5) y x); [apply sort_stamps_sorted | exact Hy | exact Hx].
Qed.

(** X13. On a file system that answers every call, with a backing file
    to copy, and at a time and with snapshots of the years 0000 to 9999
    (where the order of the file names is the order of the times),
    [createSafetyBackup] writes the snapshot of the moment and then
    keeps five snapshots at most, the newest ones: every snapshot it
    removes is older than every snapshot it keeps, the ones it keeps
    hold what they held, and the new one is among them unless there are
    snapshots from the future.  The backing file is not touched. *)
Theorem createSafetyBackup_keeps_five (w : World) (t : Text) :
  Spec.reliable w -> dataDir w = true -> files w !! KbFile = Some t ->
  Dates.four_digit_year (clock w) ->
  (forall s, has_snapshot w s -> Dates.four_digit_year s) ->
  exists w' retained,
    createSafetyBackup w = (Ok tt, w')
    /\ NoDup retained /\ (length retained <= 5)%nat
    /\ (forall s, has_snapshot w' s <-> s ∈ retained)
    /\ (forall s, s ∈ retained ->
          files w' !! SafetyBackup s
          = if decide (s = clock w) then Some t else files w !! SafetyBackup s)
    /\ (forall s s', s ∈ retained -> has_snapshot w s' \/ s' = clock w ->
          s' ∉ retained -> s' <= s)
    /\ ((forall s, has_snapshot w s -> s <= clock w) -> clock w ∈ retained)
    /\ files w' !! KbFile = Some t.
Proof.
  intros Hf Hd Ht Hclock Hstamps. unfold createSafetyBackup, try_catch.
  rewrite (bind_ok _ _ _ _ _ (fs_mkdir_reliable BackupDir w Hf)).
  set (w1 := set_dir BackupDir w).
  assert (H1 : faults w1 = [] /\ files w1 = files w /\ clock w1 = clock w
               /\ dataDir w1 = true /\ backupDir w1 = true).
  { subst w1. destruct w; simpl in *. now repeat split. }
  destruct H1 as (Hf1 & Hfiles1 & Hc1 & Hd1 & Hb1).
  rewrite (bind_ok Date_now _ w1 w1 (clock w1) eq_refl).
  assert (Hread : fs_readFile KbFile w1 = (Ok t, w1)).
  { rewrite fs_readFile_reliable by assumption. now rewrite Hfiles1, Ht. }
  rewrite (bind_ok _ _ _ _ _ Hread).
  rewrite (bind_ok _ _ _ _ _
             (fs_writeFile_reliable (SafetyBackup (clock w1)) t w1 Hf1 Hb1)).
  set (w3 := set_files _ w1).
  assert (H3 : faults w3 = [] /\ backupDir w3 = true
               /\ files w3 = <[SafetyBackup (clock w) := t]> (files w)).
  { subst w3. destruct w1; simpl in *. subst. now repeat split. }
  destruct H3 as (Hf3 & Hb3 & Hfiles3).
  rewrite (bind_ok _ _ _ _ _ (fs_readdir_reliable BackupDir w3 Hf3 Hb3)).
  cbv beta zeta.
  destruct (newest_first (files w3)) as (Hnd & Hmem & Hsorted).
  { intros s. rewrite Hfiles3. destruct (decide (s = clock w)) as [->|Hne].
    - intros _. exact Hclock.
    - rewrite lookup_insert_ne by congruence. apply Hstamps. }
  set (desc := rev (sort (fun a b => Dates.compare_strings (basename a) (basename b))
                      (List.filter is_safety_backup
                         (List.filter (in_dir BackupDir)
                            (map fst (map_to_list (files w3))))))) in *.
  match goal with |- context [let (_, _) := ?blk in _] =>
    assert (Hun : exists w',
               blk = (Ok tt, w')
               /\ forall p, files w' !! p
                            = if decide (p ∈ drop 5 desc) then None else files w3 !! p)
  end.
  { destruct (5 <? length desc)%nat eqn:E.
    - destruct (unlink_each_reliable (drop 5 desc) w3 Hf3) as (w' & E' & _ & Hfiles').
      + eapply sublist_NoDup; [exact Hnd | apply sublist_drop].
      + apply Forall_forall. intros p Hp.
        assert (Hin : p ∈ desc) by (eapply elem_of_sublist; [exact Hp | apply sublist_drop]).
        apply Hmem in Hin. destruct Hin as [Hs Hsome]. split; [|exact Hsome].
        rewrite (safety_path p Hs). exact Hb3.
      + exists w'. now split.
    - apply Nat.ltb_ge in E. exists w3. split; [reflexivity|]. intros p.
      rewrite drop_ge by exact E.
      destruct (decide (p ∈ [])) as [H|_]; [inversion H | reflexivity]. }
  destruct Hun as (w' & Hrun & Hfiles').
  exists w', (stamp_of <$> take 5 desc). rewrite Hrun.
  assert (Hsplit : forall p, p ∈ desc -> p ∉ drop 5 desc -> p ∈ take 5 desc).
  { intros p Hp Hno. rewrite <- (take_drop 5 desc) in Hp.
    apply elem_of_app in Hp. tauto. }
  assert (Hdisjoint : forall p, p ∈ take 5 desc -> p ∉ drop 5 desc).
  { rewrite <- (take_drop 5 desc) in Hnd. apply NoDup_app in Hnd. apply Hnd. }
  assert (Htake : forall p, p ∈ take 5 desc -> p ∈ desc).
  { intros p Hp. eapply elem_of_sublist; [exact Hp | apply sublist_take]. }
  assert (Hstored : forall s', has_snapshot w s' \/ s' = clock w ->
                      SafetyBackup s' ∈ desc).
  { intros s' Hs'. apply Hmem. split; [reflexivity|]. rewrite Hfiles3.
    destruct (decide (s' = clock w)) as [->|Hne].
    - rewrite lookup_insert_eq. eauto.
    - rewrite lookup_insert_ne by congruence. destruct Hs' as [Hs'|Hs']; [exact Hs' | contradiction]. }
  assert (Hretained : forall s, s ∈ stamp_of <$> take 5 desc
                                <-> SafetyBackup s ∈ take 5 desc).
  { intros s. rewrite list_elem_of_fmap. split.
    - intros (p & -> & Hp). rewrite <- safety_path; [exact Hp|].
      now apply Hmem, Htake.
    - intros Hp. exists (SafetyBackup s). now split. }
  split; [reflexivity|]. split; [|split; [|split; [|split; [|split; [|split]]]]].
  - apply NoDup_fmap_2_strong.
    + intros x y Hx Hy E. apply Htake, Hmem in Hx. apply Htake, Hmem in Hy.
      rewrite (safety_path x), (safety_path y) by tauto. now rewrite E.
    + eapply sublist_NoDup; [exact Hnd | apply sublist_take].
  - rewrite length_fmap, length_take. lia.
  - intros s. rewrite Hretained. unfold has_snapshot. rewrite Hfiles'. split.
    + destruct (decide (SafetyBackup s ∈ drop 5 desc)) as [Hin|Hno].
      * intros [x Hx]. discriminate.
      * intros Hsome. apply Hsplit; [|exact Hno]. apply Hmem. now split.
    + intros Hp. destruct (decide (SafetyBackup s ∈ drop 5 desc)) as [Hin|Hno].
      * exfalso. now apply (Hdisjoint _ Hp).
      * now apply Hmem, Htake.
  - intros s Hs. apply Hretained in Hs. rewrite Hfiles'.
    destruct (decide (SafetyBackup s ∈ drop 5 desc)) as [Hin|Hno].
    + exfalso. now apply (Hdisjoint _ Hs).
    + rewrite Hfiles3. destruct (decide (s = clock w)) as [->|Hne].
      * apply lookup_insert_eq.
      * apply lookup_insert_ne. congruence.
  - intros s s' Hs Hs' Hno. apply Hretained in Hs.
    change s with (stamp_of (SafetyBackup s)).
    change s' with (stamp_of (SafetyBackup s')).
    apply Hsorted; [exact Hs|].
    destruct (decide (SafetyBackup s' ∈ drop 5 desc)) as [Hin|Hnot]; [exact Hin|].
    exfalso. apply Hno, Hretained, Hsplit; [now apply Hstored | exact Hnot].
  - intros Hpast. apply Hretained.
    destruct (decide (SafetyBackup (clock w) ∈ drop 5 desc)) as [Hin|Hnot];
      [|apply Hsplit; [apply Hstored; now right | exact Hnot]].
    exfalso.
    destruct (take 5 desc) as [|p0 rest] eqn:Etake.
    { apply (f_equal length) in Etake. rewrite length_take in Etake.
      change (length (@nil Path)) with O in Etake.
      assert (Hlen : length desc = O) by lia.
      apply nil_length_inv in Hlen. rewrite Hlen in Hin. inversion Hin. }
    assert (Hp0 : p0 ∈ p0 :: rest) by left.
    pose proof (Hsorted p0 _ Hp0 Hin) as Hle. simpl in Hle.
    pose proof (Htake p0 Hp0) as Hin0. apply Hmem in Hin0. destruct Hin0 as [Hs0 Hsome0].
    rewrite (safety_path p0 Hs0), Hfiles3 in Hsome0.
    assert (Heq : stamp_of p0 = clock w).
    { destruct (decide (stamp_of p0 = clock w)) as [E|Hne]; [exact E|].
      rewrite lookup_insert_ne in Hsome0 by congruence.
      specialize (Hpast _ Hsome0). lia. }
    apply (Hdisjoint p0 Hp0). rewrite (safety_path p0 Hs0), Heq. exact Hin.
  - rewrite Hfiles'. destruct (decide (KbFile ∈ drop 5 desc)) as [Hin|_].
    + assert (KbFile ∈ desc) by (eapply elem_of_sublist; [exact Hin | apply sublist_drop]).
      apply Hmem in H. destruct H; discriminate.
    + rewrite Hfiles3, lookup_insert_ne by discriminate. exact Ht.
Qed.

Lemma createSafetyBackup_keeps_five_witness :
  exists w' retained,
    createSafetyBackup crowded_world = (Ok tt, w')
    /\ (length retained <= 5)%nat
    /\ (forall s, has_snapshot w' s <-> s ∈ retained)
    /\ files w' !! SafetyBackup 10 = None
    /\ files w' !! SafetyBackup 20 = None
    /\ files w' !! SafetyBackup 30 = Some (Garbage "c")
    /\ files w' !! SafetyBackup 1700000000000 = Some (Rendered (PDoc shop)).
Proof.
  destruct (createSafetyBackup_keeps_five crowded_world (Rendered (PDoc shop)))
    as (w' & retained & E & _ & Hlen & Hsnap & _);
    [reflexivity | reflexivity | reflexivity | | |].
  - unfold Dates.four_digit_year. simpl. lia.
  - intros s [x Hx]. apply elem_of_map_to_list in Hx.
    remember (map_to_list (files crowded_world)) as l eqn:El.
    vm_compute in El. subst l.
    repeat (apply elem_of_cons in Hx; destruct Hx as [Hx|Hx];
            [inversion Hx; subst; unfold Dates.four_digit_year; lia|]).
    inversion Hx.
  - exists w', retained. split; [exact E|]. split; [exact Hlen|].
    split; [exact Hsnap|].
    vm_compute in E. inversion E; subst w'. repeat split; vm_compute; reflexivity.
Defined.

(** Beyond the year 9999 the names are not in the order of the times:
    [+010000-...] sorts before every four-digit year.  With five
    snapshots of the year 2023 on disk, the snapshot written at the
    first instant of the year 10000 is the one that is removed. *)
Lemma snapshot_of_year_10000_is_removed :
  exists w',
    createSafetyBackup year_10000_world = (Ok tt, w')
    /\ files w' !! SafetyBackup (clock year_10000_world) = None
    /\ files w' !! SafetyBackup 1700000000001 = Some (Garbage "a")
    /\ files w' !! SafetyBackup 1700000000005 = Some (Garbage "e").
Proof.
  eexists. split; [vm_compute; reflexivity|]. repeat split; vm_compute; reflexivity.
Qed.

End Snapshots.

(** ** The helpers of [lib/utils.js] *)

Section UtilsFacts.
Import Js Json Utils.

Lemma length_append (s t : string) :
  String.length (s +:+ t) = (String.length s + String.length t)%nat.
Proof. induction s as [|c s IH]; simpl; [reflexivity | now rewrite IH]. Qed.

Lemma length_substring0 (n : nat) (s : string) :
  String.length (String.substring 0 n s) = Nat.min n (String.length s).
Proof.
  revert n; induction s as [|c s IH]; intros [|n]; simpl; try reflexivity.
  now rewrite IH.
Qed.

(** X14. [truncateText] leaves a text that fits as it is; a longer one
    is cut to [maxLength - 3] characters and three dots, so the result
    has [max maxLength 3] characters: it fits in [maxLength] when
    [maxLength] is at least 3, and is the three dots alone, longer than
    asked, when [maxLength] is smaller. *)
Theorem truncateText_length (t : string) (maxLength : Z) :
  let len := Z.of_nat (String.length t) in
  let r := truncateText (VString t) maxLength in
  Z.of_nat (String.length r)
  = (if len <=? maxLength then len else Z.max maxLength 3)
  /\ (3 <= maxLength -> Z.of_nat (String.length r) <= maxLength)
  /\ (maxLength <= 3 -> maxLength < len -> r = "...").
Proof.
  cbv zeta. unfold truncateText, substring0.
  destruct (Z.of_nat (String.length t) <=? maxLength) eqn:E.
  - apply Z.leb_le in E. split; [reflexivity|]. split; [now intros _ | lia].
  - apply Z.leb_gt in E. rewrite length_append, length_substring0.
    change (String.length "...") with 3%nat. split; [lia|]. split; [lia|].
    intros H3 _. replace (Z.to_nat (maxLength - 3)) with O by lia.
    now destruct t.
Qed.

Lemma trimStart_chars (c : ascii) (s : string) :
  c ∈ list_ascii_of_string (trimStart s) -> c ∈ list_ascii_of_string s.
Proof.
  induction s as [|a s IH]; simpl; [easy|].
  destruct (is_whitespace a); [|easy].
  intros H. apply elem_of_cons. right. now apply IH.
Qed.

Lemma trimEnd_chars (c : ascii) (s : string) :
  c ∈ list_ascii_of_string (trimEnd s) -> c ∈ list_ascii_of_string s.
Proof.
  induction s as [|a s IH]; simpl; [easy|].
  destruct (trimEnd s) as [|b r] eqn:E.
  - destruct (is_whitespace a); simpl; intros H.
    + inversion H.
    + apply elem_of_cons in H. destruct H as [->|H]; [left | inversion H].
  - simpl. intros H. apply elem_of_cons in H. destruct H as [->|H]; [left|].
    right. apply IH. exact H.
Qed.

Lemma trim_chars (c : ascii) (s : string) :
  c ∈ list_ascii_of_string (trim s) -> c ∈ list_ascii_of_string s.
Proof. intros H. now apply trimStart_chars, trimEnd_chars. Qed.

Lemma remove_angles_chars (c : ascii) (s : string) :
  c ∈ list_ascii_of_string (remove_angles s) ->
  c <> "<"%char /\ c <> ">"%char.
Proof.
  induction s as [|a s IH]; simpl; [inversion 1|].
  destruct (Ascii.eqb a "<") eqn:E1; [exact IH|].
  destruct (Ascii.eqb a ">") eqn:E2; [exact IH|]. simpl.
  intros H. apply elem_of_cons in H. destruct H as [->|H]; [|now apply IH].
  apply Ascii.eqb_neq in E1, E2. now split.
Qed.

Lemma remove_angles_clean (s : string) :
  (forall c, c ∈ list_ascii_of_string s -> c <> "<"%char /\ c <> ">"%char) ->
  remove_angles s = s.
Proof.
  induction s as [|a s IH]; simpl; [reflexivity|]. intros H.
  destruct (H a) as [H1 H2]; [left|].
  apply Ascii.eqb_neq in H1, H2. rewrite H1, H2. simpl. f_equal.
  apply IH. intros c Hc. apply H. now right.
Qed.

(** X15. What [sanitizeString] answers holds neither [<] nor [>], has
    no whitespace at its ends, and is left as it is by a second pass;
    for a value that is not a string the answer is the empty string. *)
Theorem sanitizeString_clean (v : Value) :
  let r := sanitizeString v in
  (forall c, c ∈ list_ascii_of_string r -> c <> "<"%char /\ c <> ">"%char)
  /\ trim r = r
  /\ sanitizeString (VString r) = r
  /\ (is_string v = false -> r = EmptyString).
Proof.
  cbv zeta.
  assert (H : forall s c, c ∈ list_ascii_of_string (trim (remove_angles s)) ->
                          c <> "<"%char /\ c <> ">"%char).
  { intros s c Hc. apply trim_chars in Hc. now apply remove_angles_chars in Hc. }
  destruct v; simpl;
    try (split; [intros c Hc; inversion Hc | now repeat split]).
  split; [apply H|]. split; [apply trim_idem|]. split; [|discriminate].
  rewrite remove_angles_clean by apply H. apply trim_idem.
Qed.

Lemma length_eqb_empty (s : string) :
  (String.length s =? 0)%nat = String.eqb s EmptyString.
Proof. now destruct s. Qed.

(** X16. [isEmptyOrWhitespace] of the helpers is the check the create
    handler makes on the key and on the value, and a value passes it
    exactly when it is a string that is filled in the sense of the
    invariant of the store. *)
Theorem isEmptyOrWhitespace_is_the_handler_check (v : Value) :
  isEmptyOrWhitespace v = Api.missing_text v
  /\ (isEmptyOrWhitespace v = false <-> exists s, v = VString s /\ Spec.filled s).
Proof.
  unfold isEmptyOrWhitespace, Api.missing_text, Spec.filled.
  destruct v as [| |b|n|s|items|]; simpl;
    try (split; [now rewrite ?orb_true_r, ?orb_false_r |
                 split; [rewrite ?orb_true_r; discriminate | intros (s & [=] & _)]]).
  rewrite orb_false_r, length_eqb_empty. split; [reflexivity|].
  split.
  - intros H. apply orb_false_iff in H. destruct H as [_ H].
    exists s. split; [reflexivity|]. now apply String.eqb_neq.
  - intros (s' & [= <-] & H). apply orb_false_iff. split.
    + apply negb_false_iff, negb_true_iff, String.eqb_neq. intros ->. now apply H.
    + now apply String.eqb_neq.
Qed.

End UtilsFacts.

(** ** The errors of the store carry a message *)

Section Worded.
Import Js KnowledgeBase Effects.

Lemma worded_ret {A} (a : A) : worded (ret a).
Proof. intros w e w'. unfold ret. discriminate. Qed.

Lemma worded_throw {A} (e : Error) :
  is_Some (err_message e) -> worded (@throw World A e).
Proof. intros H w e' w' Hrun. inversion Hrun; subst. exact H. Qed.

Lemma worded_bind {A B} (m : M A) (k : A -> M B) :
  worded m -> (forall a, worded (k a)) -> worded (bind m k).
Proof.
  intros Hm Hk w e w'. rewrite bind_unfold.
  destruct (m w) as [[a|e0] w1] eqn:E.
  - apply Hk.
  - intros Hrun. inversion Hrun; subst. eapply Hm. exact E.
Qed.

Lemma worded_try_catch {A} (body : M A) (handler : Error -> M A) :
  (forall e, worded (handler e)) -> worded (try_catch body handler).
Proof.
  intros Hh w e w'. unfold try_catch.
  destruct (body w) as [[a|e0] w1]; [discriminate | apply Hh].
Qed.

Lemma worded_Date_now : worded Date_now.
Proof. intros w e w'. unfold Date_now. discriminate. Qed.

Lemma worded_sleep (delay : Z) : worded (sleep delay).
Proof. intros w e w'. unfold sleep. discriminate. Qed.

Lemma worded_saveLoop (n : nat) :
  forall attempt lastError kb, worded (saveLoop n attempt lastError kb).
Proof.
  induction n as [|k IH]; intros attempt lastError kb.
  - simpl. destruct lastError; apply worded_throw; simpl; eauto.
  - intros w e w'. cbn [saveLoop].
    destruct (saveAttempt attempt kb w) as [[kb1 [u|err]] w1]; [discriminate|].
    destruct (attempt <? maxRetries).
    + apply (worded_bind (sleep (100 * attempt))); [apply worded_sleep|].
      intros _. apply IH.
    + apply IH.
Qed.

Lemma worded_saveKnowledgeBase (kb : KnowledgeBaseDocument) :
  worded (saveKnowledgeBase kb).
Proof. apply worded_saveLoop. Qed.

Lemma worded_loadCatch (attempt : Z) (error : Error) :
  worded (loadCatch attempt error).
Proof.
  unfold loadCatch.
  destruct (bool_decide _).
  { apply worded_bind; [apply worded_Date_now|]. intros now.
    apply worded_bind; [apply worded_saveKnowledgeBase|]. intros kb.
    apply worded_ret. }
  destruct (_ && _).
  { apply worded_bind; [apply worded_try_catch; intros; apply worded_ret|].
    intros _. apply worded_bind; [apply worded_Date_now|]. intros now.
    apply worded_bind; [apply worded_saveKnowledgeBase|]. intros kb.
    apply worded_ret. }
  destruct (attempt <? maxRetries); [|apply worded_ret].
  apply worded_bind; [apply worded_sleep|]. intros _. apply worded_ret.
Qed.

Lemma worded_loadLoop (n : nat) :
  forall attempt lastError, worded (loadLoop n attempt lastError).
Proof.
  induction n as [|k IH]; intros attempt lastError.
  - simpl. destruct lastError; apply worded_throw; simpl; eauto.
  - cbn [loadLoop]. apply worded_bind.
    + apply worded_try_catch. apply worded_loadCatch.
    + intros [kb|error]; [apply worded_ret | apply IH].
Qed.

Lemma worded_loadKnowledgeBase : worded loadKnowledgeBase.
Proof. apply worded_loadLoop. Qed.

Lemma worded_updateEntry (i : string) (u : Updates) : worded (updateEntry i u).
Proof.
  unfold updateEntry. apply worded_bind; [apply worded_loadKnowledgeBase|].
  intros kb. destruct (findIndex _ _) as [n|]; [|apply worded_throw; simpl; eauto].
  destruct (entries kb !! n); [|apply worded_throw; simpl; eauto].
  apply worded_bind; [apply worded_Date_now|]. intros now.
  apply worded_bind; [apply worded_saveKnowledgeBase|]. intros _. apply worded_ret.
Qed.

Lemma worded_deleteEntry (i : string) : worded (deleteEntry i).
Proof.
  unfold deleteEntry. apply worded_bind; [apply worded_loadKnowledgeBase|].
  intros kb. destruct (findIndex _ _) as [n|]; [|apply worded_throw; simpl; eauto].
  destruct (entries kb !! n); [|apply worded_throw; simpl; eauto].
  apply worded_bind; [apply worded_saveKnowledgeBase|]. intros _. apply worded_ret.
Qed.

End Worded.

(** ** The store under the handlers, on any file system *)

Section StoreEffects.
Import Js KnowledgeBase Effects.

Lemma load_effect (w : World) :
  match loadKnowledgeBase w with
  | (Ok kb, w') => Spec.holds w' kb
  | (Throw _, w') => kept w w'
  end.
Proof. apply loadLoop_effect. Qed.

Lemma save_effect (kb : KnowledgeBaseDocument) (w : World) :
  match saveKnowledgeBase kb w with
  | (Ok kb', w') => Spec.holds w' kb' /\ entries kb' = entries kb
  | (Throw _, w') => kept w w'
  end.
Proof.
  pose proof (saveLoop_effect (Z.to_nat maxRetries) 1 None kb w) as H.
  unfold saveKnowledgeBase.
  destruct (saveLoop _ _ _ _ _) as [[kb'|e] w']; [|exact H].
  destruct H as (H & _ & He & _). now split.
Qed.

Lemma findIndex_Some {A} (p : A -> bool) (l : list A) (n : nat) :
  findIndex p l = Some n -> exists x, l !! n = Some x /\ p x = true.
Proof.
  revert n; induction l as [|y l IH]; intros n; simpl; [discriminate|].
  destruct (p y) eqn:E.
  - intros [= <-]. now exists y.
  - destruct (findIndex p l) as [m|]; [|discriminate].
    intros [= <-]. now apply IH.
Qed.

Lemma findIndex_None {A} (p : A -> bool) (l : list A) :
  findIndex p l = None -> Forall (fun x => p x = false) l.
Proof.
  induction l as [|y l IH]; simpl; [constructor|].
  destruct (p y) eqn:E; [discriminate|].
  destruct (findIndex p l); [discriminate|]. intros _. constructor; auto.
Qed.

Lemma findIndex_before (i : string) (l : list KnowledgeEntry) (n : nat) :
  findIndex (fun x => String.eqb (id x) i) l = Some n ->
  Forall (fun x => id x <> i) (take n l).
Proof.
  revert n. induction l as [|y l IH]; intros n; simpl; [discriminate|].
  destruct (String.eqb (id y) i) eqn:E.
  - intros [= <-]. constructor.
  - destruct (findIndex _ l) as [m|]; [|discriminate]. intros [= <-].
    simpl. constructor; [now apply String.eqb_neq | now apply IH].
Qed.

Lemma find_Some {A} (p : A -> bool) (l : list A) (x : A) :
  find p l = Some x -> x ∈ l /\ p x = true.
Proof.
  induction l as [|y l IH]; simpl; [discriminate|].
  destruct (p y) eqn:E.
  - intros [= <-]. split; [left | exact E].
  - intros H. destruct (IH H). split; [now right | assumption].
Qed.

Lemma find_None {A} (p : A -> bool) (l : list A) :
  find p l = None -> Forall (fun x => p x = false) l.
Proof.
  induction l as [|y l IH]; simpl; [constructor|].
  destruct (p y) eqn:E; [discriminate|]. intros H. constructor; auto.
Qed.

(** What a [createEntry] that returns has done, whatever the file
    system did on the way. *)
Lemma createEntry_effect (k v : string) (ts : list string) (w w' : World)
    (e : KnowledgeEntry) :
  createEntry k v ts w = (Ok e, w') ->
  key e = trim k /\ value e = trim v /\ tags e = ts
  /\ exists kb w1 d, loadKnowledgeBase w = (Ok kb, w1)
                     /\ Spec.holds w' d /\ entries d = (entries kb ++ [e])%list.
Proof.
  unfold createEntry. rewrite bind_unfold.
  destruct (loadKnowledgeBase w) as [[kb|err] w1] eqn:L; [|discriminate].
  rewrite bind_unfold.
  destruct (generateId w1) as [[newId|err] w2]; [|discriminate].
  destruct (elapse_effect w2) as (w3 & E3 & _).
  destruct (elapse_effect w3) as (w4 & E4 & _).
  rewrite (bind_ok _ _ _ _ _ E3), (bind_ok Date_now _ w3 w3 (clock w3) eq_refl).
  rewrite (bind_ok _ _ _ _ _ E4), (bind_ok Date_now _ w4 w4 (clock w4) eq_refl).
  rewrite bind_unfold.
  match goal with
  | |- context [saveKnowledgeBase ?kb' w4] =>
      pose proof (save_effect kb' w4) as S;
      destruct (saveKnowledgeBase kb' w4) as [[kb''|err] w5]
  end; [|discriminate].
  intros Hrun. inversion Hrun; subst. destruct S as [Hh He].
  repeat (split; [reflexivity|]). exists kb, w1, kb''. now repeat split.
Qed.

Lemma updateEntry_effect (i : string) (u : Updates) (w w' : World)
    (e : KnowledgeEntry) :
  updateEntry i u w = (Ok e, w') ->
  exists kb w1 n existing d,
    loadKnowledgeBase w = (Ok kb, w1)
    /\ findIndex (fun x => String.eqb (id x) i) (entries kb) = Some n
    /\ entries kb !! n = Some existing /\ id existing = i
    /\ e = merge_entry existing u (clock w1)
    /\ Spec.holds w' d /\ entries d = <[n := e]> (entries kb).
Proof.
  unfold updateEntry. rewrite bind_unfold.
  destruct (loadKnowledgeBase w) as [[kb|err] w1] eqn:L; [|discriminate].
  destruct (findIndex _ (entries kb)) as [n|] eqn:F; [|discriminate].
  destruct (findIndex_Some _ _ _ F) as (existing & Hn & Hp). rewrite Hn.
  rewrite (bind_ok Date_now _ w1 w1 (clock w1) eq_refl). rewrite bind_unfold.
  match goal with
  | |- context [saveKnowledgeBase ?kb' w1] =>
      pose proof (save_effect kb' w1) as S;
      destruct (saveKnowledgeBase kb' w1) as [[kb''|err] w3]
  end; [|discriminate].
  intros Hrun. inversion Hrun; subst. destruct S as [Hh He].
  exists kb, w1, n, existing, kb''. split; [reflexivity|]. split; [exact F|].
  split; [exact Hn|]. split; [now apply String.eqb_eq in Hp|].
  split; [reflexivity|]. now split.
Qed.

Lemma deleteEntry_effect (i : string) (w w' : World) (e : KnowledgeEntry) :
  deleteEntry i w = (Ok e, w') ->
  exists kb w1 n d,
    loadKnowledgeBase w = (Ok kb, w1)
    /\ findIndex (fun x => String.eqb (id x) i) (entries kb) = Some n
    /\ entries kb !! n = Some e /\ id e = i
    /\ Spec.holds w' d /\ entries d = delete n (entries kb).
Proof.
  unfold deleteEntry. rewrite bind_unfold.
  destruct (loadKnowledgeBase w) as [[kb|err] w1] eqn:L; [|discriminate].
  destruct (findIndex _ (entries kb)) as [n|] eqn:F; [|discriminate].
  destruct (findIndex_Some _ _ _ F) as (deleted & Hn & Hp). rewrite Hn.
  rewrite bind_unfold.
  match goal with
  | |- context [saveKnowledgeBase ?kb' w1] =>
      pose proof (save_effect kb' w1) as S;
      destruct (saveKnowledgeBase kb' w1) as [[kb''|err] w3]
  end; [|discriminate].
  intros Hrun. inversion Hrun; subst. destruct S as [Hh He].
  exists kb, w1, n, kb''. split; [reflexivity|]. split; [exact F|].
  split; [exact Hn|]. split; [now apply String.eqb_eq in Hp|]. now split.
Qed.

Lemma getEntryById_effect (i : string) (w w' : World) (r : option KnowledgeEntry) :
  getEntryById i w = (Ok r, w') ->
  exists d, Spec.holds w' d
            /\ match r with
               | Some e => e ∈ entries d /\ id e = i
               | None => i ∉ map id (entries d)
               end.
Proof.
  unfold getEntryById, getAllEntries. rewrite !bind_unfold.
  pose proof (load_effect w) as L.
  destruct (loadKnowledgeBase w) as [[kb|err] w1]; [|discriminate].
  unfold ret. intros Hrun. inversion Hrun; subst. exists kb. split; [exact L|].
  destruct (find _ (entries kb)) as [e|] eqn:F.
  - apply find_Some in F. destruct F as [Hin Hp]. split; [exact Hin|].
    now apply String.eqb_eq in Hp.
  - apply find_None in F. intros Hin. apply list_elem_of_fmap in Hin.
    destruct Hin as (x & Hx & Hin). rewrite Forall_forall in F.
    specialize (F x Hin). apply String.eqb_neq in F. congruence.
Qed.

End StoreEffects.

(** ** The HTTP handlers of the entries *)

Section Handlers.
Import Js KnowledgeBase Json Api Requests Effects Worlds.

Lemma tags_kept_default (t : Value) :
  tags_kept (if truthy t then t else VArray []) = tags_kept t.
Proof.
  destruct t as [| |[]|n|s|items|]; simpl; try reflexivity.
  - now destruct (n =? 0).
  - now destruct (String.eqb s EmptyString).
Qed.

Lemma missing_text_false (v : Value) :
  missing_text v = false -> exists s, v = VString s /\ Spec.filled s.
Proof.
  unfold missing_text, Spec.filled. intros H. apply orb_false_iff in H.
  destruct H as [_ H]. destruct v; simpl in H; try discriminate.
  eexists. split; [reflexivity|]. now apply String.eqb_neq.
Qed.

Lemma handleCreateEntry_unfold (k v t : Value) (w : World) :
  handleCreateEntry (JsonFields k v t) w =
  if missing_text k then
    (Ok (mkHttp 400 (Failure "Key is required and must be a non-empty string"
                             "INVALID_KEY")), w)
  else if missing_text v then
    (Ok (mkHttp 400 (Failure "Value is required and must be a non-empty string"
                             "INVALID_VALUE")), w)
  else
    try_catch
      (newEntry <- createEntry (trimmed k) (trimmed v) (tags_kept t) ;;
       now <- Date_now ;;
       ret (mkHttp 201 (EntryPayload newEntry
                          (Some "Knowledge entry created successfully") now)))
      (fun _ => fail 500 "Failed to create knowledge entry" "CREATION_ERROR") w.
Proof.
  unfold handleCreateEntry. rewrite bind_unfold.
  cbn [parse_fields ret f_key f_value f_tags]. rewrite tags_kept_default.
  destruct (missing_text k); [reflexivity|]. destruct (missing_text v); reflexivity.
Qed.

(** X17. On any file system: on a body that does not parse, or that
    parses to [null], [handleCreateEntry] throws before any check and
    touches nothing; on every other body it answers and never throws.  It
    answers 400 without touching the world when the key or the value is
    not a filled string; otherwise 201 or 500.  A 201 means that the
    entry of the answer has the trimmed key and value, both filled, the
    tags of the body when they are an array and none otherwise, and that
    the file holds the entries the load of this request returned, with
    that entry added at the end. *)
Theorem handleCreateEntry_answers (w : World) (body : BodyText) :
  match body with
  | BadJson => handleCreateEntry body w = (Throw syntax_error, w)
  | JsonNull => handleCreateEntry body w = (Throw destructure_null, w)
  | JsonFields k v t =>
      exists resp w',
        handleCreateEntry body w = (Ok resp, w')
        /\ (statusCode resp = 400 /\ w' = w
            /\ (missing_text k = true \/ missing_text v = true)
            \/ statusCode resp = 500
               /\ missing_text k = false /\ missing_text v = false
               /\ payload resp
                  = Failure "Failed to create knowledge entry" "CREATION_ERROR"
            \/ statusCode resp = 201
               /\ missing_text k = false /\ missing_text v = false
               /\ exists e kb w1 d,
                    payload resp
                    = EntryPayload e (Some "Knowledge entry created successfully")
                                   (clock w')
                    /\ key e = trimmed k /\ value e = trimmed v
                    /\ Spec.filled (key e) /\ Spec.filled (value e)
                    /\ tags e = tags_kept t
                    /\ loadKnowledgeBase w = (Ok kb, w1)
                    /\ Spec.holds w' d /\ entries d = (entries kb ++ [e])%list)
  end.
Proof.
  destruct body as [| |k v t]; [reflexivity | reflexivity |].
  rewrite handleCreateEntry_unfold.
  destruct (missing_text k) eqn:Hk.
  { eexists _, w. split; [reflexivity|]. left. auto. }
  destruct (missing_text v) eqn:Hv.
  { eexists _, w. split; [reflexivity|]. left. auto. }
  unfold try_catch. rewrite bind_unfold.
  destruct (createEntry _ _ _ w) as [[e|err] w1] eqn:E.
  - rewrite (bind_ok Date_now _ w1 w1 (clock w1) eq_refl). unfold ret.
    eexists _, w1. split; [reflexivity|]. right. right.
    split; [reflexivity|]. split; [reflexivity|]. split; [reflexivity|].
    apply createEntry_effect in E.
    destruct E as (Ek & Ev & Et & kb & wl & d & L & Hh & Hd).
    apply missing_text_false in Hk, Hv.
    destruct Hk as (sk & -> & Fk), Hv as (sv & -> & Fv). simpl in Ek, Ev.
    rewrite trim_idem in Ek, Ev.
    exists e, kb, wl, d.
    simpl. rewrite Ek, Ev.
    repeat (split; [reflexivity || assumption || now apply trim_filled|]).
    exact Hd.
  - unfold fail, ret. eexists _, w1. split; [reflexivity|]. right. left.
    now repeat split.
Qed.

Lemma handleUpdateEntry_unfold (i : string) (k v t : Value) (w : World) :
  handleUpdateEntry i (JsonFields k v t) w =
  match update_rejection k v t with
  | Some (m, c) => (Ok (mkHttp 400 (Failure m c)), w)
  | None =>
      try_catch
        (updatedEntry <- updateEntry i (updates_given k v t) ;;
         now <- Date_now ;;
         ret (mkHttp 200 (EntryPayload updatedEntry
                            (Some "Knowledge entry updated successfully") now)))
        (not_found_or "Failed to update knowledge entry" "UPDATE_ERROR") w
  end.
Proof.
  unfold handleUpdateEntry, update_rejection, updates_given.
  rewrite bind_unfold. cbn [parse_fields ret f_key f_value f_tags].
  destruct k as [| |bk|nk|sk|ik|]; cbn [is_undefined invalid_text negb andb];
    try reflexivity;
    try (destruct (String.eqb (trim sk) EmptyString); [reflexivity|]);
    (destruct v as [| |bv|nv|sv|iv|]; cbn [is_undefined invalid_text negb andb];
     try reflexivity;
     try (destruct (String.eqb (trim sv) EmptyString); [reflexivity|]);
     (destruct t; reflexivity)).
Qed.

Lemma updates_given_filled (k v t : Value) :
  update_rejection k v t = None ->
  (forall s, u_key (updates_given k v t) = Some s -> Spec.filled s)
  /\ (forall s, u_value (updates_given k v t) = Some s -> Spec.filled s).
Proof.
  unfold update_rejection, updates_given, Spec.filled. intros R. split.
  - destruct k as [| |bk|nk|sk|ik|]; simpl; try discriminate.
    intros s [= <-]. simpl in R.
    destruct (String.eqb (trim sk) EmptyString) eqn:E; [discriminate|].
    apply String.eqb_neq in E. now rewrite trim_idem.
  - destruct v as [| |bv|nv|sv|iv|]; simpl; try discriminate.
    intros s [= <-].
    destruct (negb (is_undefined k) && invalid_text k); [discriminate|].
    simpl in R.
    destruct (String.eqb (trim sv) EmptyString) eqn:E; [discriminate|].
    apply String.eqb_neq in E. now rewrite trim_idem.
Qed.

Lemma not_found_includes (i : string) :
  includes ("Entry with ID " +:+ i +:+ " not found") "not found" = true.
Proof. apply includes_app_r, includes_app_r. reflexivity. Qed.

Lemma not_found_or_not_found (message code i : string) (w : World) :
  not_found_or message code (not_found i) w
  = (Ok (mkHttp 404 (Failure "Knowledge entry not found" "ENTRY_NOT_FOUND")), w).
Proof.
  unfold not_found_or, not_found, new_Error. cbn [err_message].
  now rewrite not_found_includes.
Qed.

Lemma not_found_or_answers (message code : string) (error : Error) (w : World) :
  is_Some (err_message error) ->
  exists resp, not_found_or message code error w = (Ok resp, w)
    /\ (resp = mkHttp 404 (Failure "Knowledge entry not found" "ENTRY_NOT_FOUND")
        \/ resp = mkHttp 500 (Failure message code)).
Proof.
  intros [m Hm]. unfold not_found_or. rewrite Hm.
  destruct (includes m "not found"); eexists; (split; [reflexivity|]); auto.
Qed.

(** X18. On any file system: on a body that does not parse, or that
    parses to [null], [handleUpdateEntry] throws before any check and
    touches nothing; on every other body it answers and never throws.  It
    answers 400, without touching the world, exactly when a given key or
    value is not a filled string, the given tags are not an array, or
    none of the three is given; otherwise 200, 404 or 500.  A 200 means
    that the load of this request returned a collection whose first
    entry of the requested id is the one merged, that the entry of the
    answer is that entry with each given field replaced (key and value
    trimmed) and the same id, and that the file holds the collection
    with it in the place of the old one.  A 404 or a 500 means that
    [updateEntry] has thrown, with [not found] in the message or
    without. *)
Theorem handleUpdateEntry_answers (w : World) (i : string) (body : BodyText) :
  match body with
  | BadJson => handleUpdateEntry i body w = (Throw syntax_error, w)
  | JsonNull => handleUpdateEntry i body w = (Throw destructure_null, w)
  | JsonFields k v t =>
      exists resp w',
        handleUpdateEntry i body w = (Ok resp, w')
        /\ match update_rejection k v t with
           | Some (m, c) => resp = mkHttp 400 (Failure m c) /\ w' = w
           | None =>
               (resp = mkHttp 404 (Failure "Knowledge entry not found"
                                           "ENTRY_NOT_FOUND")
                /\ exists m err,
                     updateEntry i (updates_given k v t) w = (Throw err, w')
                     /\ err_message err = Some m
                     /\ includes m "not found" = true)
               \/ (resp = mkHttp 500 (Failure "Failed to update knowledge entry"
                                              "UPDATE_ERROR")
                   /\ exists m err,
                        updateEntry i (updates_given k v t) w = (Throw err, w')
                        /\ err_message err = Some m
                        /\ includes m "not found" = false)
               \/ exists e kb w1 n existing d,
                    resp = mkHttp 200
                             (EntryPayload e
                                (Some "Knowledge entry updated successfully")
                                (clock w'))
                    /\ loadKnowledgeBase w = (Ok kb, w1)
                    /\ findIndex (fun x => String.eqb (id x) i) (entries kb) = Some n
                    /\ entries kb !! n = Some existing
                    /\ id e = i
                    /\ key e = match k with
                               | VString s => trim s
                               | _ => key existing
                               end
                    /\ value e = match v with
                                 | VString s => trim s
                                 | _ => value existing
                                 end
                    /\ tags e = match t with
                                | VArray items => items
                                | _ => tags existing
                                end
                    /\ createdAt e = createdAt existing
                    /\ Spec.holds w' d /\ entries d = <[n := e]> (entries kb)
           end
  end.
Proof.
  destruct body as [| |k v t]; [reflexivity | reflexivity |].
  rewrite handleUpdateEntry_unfold.
  destruct (update_rejection k v t) as [[m c]|] eqn:R.
  { eexists _, w. now repeat split. }
  unfold try_catch. rewrite bind_unfold.
  destruct (updateEntry i _ w) as [[e|err] w1] eqn:E.
  - rewrite (bind_ok Date_now _ w1 w1 (clock w1) eq_refl). unfold ret.
    eexists _, w1. split; [reflexivity|]. right. right.
    apply updateEntry_effect in E.
    destruct E as (kb & wl & n & existing & d & L & F & Hn & Hid & -> & Hh & Hd).
    exists (merge_entry existing (updates_given k v t) (clock wl)),
           kb, wl, n, existing, d.
    split; [reflexivity|]. split; [exact L|]. split; [exact F|].
    split; [exact Hn|]. split; [exact Hid|].
    split; [now destruct k|]. split; [now destruct v|].
    split; [now destruct t|]. split; [reflexivity|]. now split.
  - destruct (worded_updateEntry _ _ _ _ _ E) as [m Hm].
    unfold not_found_or. rewrite Hm.
    destruct (includes m "not found") eqn:Hinc; unfold fail, ret;
      eexists _, w1; (split; [reflexivity|]).
    + left. split; [reflexivity|]. now exists m, err.
    + right. left. split; [reflexivity|]. now exists m, err.
Qed.

(** X19. On any file system [handleGetEntry] answers and never throws:
    200 with an entry that carries the id and is in the document the
    file then holds, 404 when that document has no entry of that id, or
    500. *)
Theorem handleGetEntry_answers (w : World) (i : string) :
  exists resp w',
    handleGetEntry i w = (Ok resp, w')
    /\ (resp = mkHttp 500 (Failure "Failed to retrieve knowledge entry"
                                   "RETRIEVAL_ERROR")
        \/ resp = mkHttp 404 (Failure "Knowledge entry not found" "ENTRY_NOT_FOUND")
           /\ (exists d, Spec.holds w' d /\ i ∉ map id (entries d))
        \/ exists e d, resp = mkHttp 200 (EntryPayload e None (clock w'))
                       /\ id e = i /\ Spec.holds w' d /\ e ∈ entries d).
Proof.
  unfold handleGetEntry, try_catch. rewrite bind_unfold.
  destruct (getEntryById i w) as [[[e|]|err] w1] eqn:E.
  - rewrite (bind_ok Date_now _ w1 w1 (clock w1) eq_refl). unfold ret.
    eexists _, w1. split; [reflexivity|]. right. right.
    apply getEntryById_effect in E. destruct E as (d & Hh & Hin & Hid).
    now exists e, d.
  - unfold fail, ret. eexists _, w1. split; [reflexivity|]. right. left.
    split; [reflexivity|]. apply getEntryById_effect in E. exact E.
  - unfold fail, ret. eexists _, w1. split; [reflexivity|]. now left.
Qed.

(** X20. On any file system [handleDeleteEntry] answers and never
    throws: 200, 404 or 500.  A 200 means that the load of this request
    returned a collection in which the entry of the answer is the first
    that carries the requested id, and that the file holds that
    collection without the entry at that place.  A 404 or a 500 means
    that [deleteEntry] has thrown, with [not found] in the message or
    without. *)
Theorem handleDeleteEntry_answers (w : World) (i : string) :
  exists resp w',
    handleDeleteEntry i w = (Ok resp, w')
    /\ ((resp = mkHttp 404 (Failure "Knowledge entry not found" "ENTRY_NOT_FOUND")
         /\ exists m err, deleteEntry i w = (Throw err, w')
                          /\ err_message err = Some m
                          /\ includes m "not found" = true)
        \/ (resp = mkHttp 500 (Failure "Failed to delete knowledge entry"
                                       "DELETE_ERROR")
            /\ exists m err, deleteEntry i w = (Throw err, w')
                             /\ err_message err = Some m
                             /\ includes m "not found" = false)
        \/ exists e kb w1 n d,
             resp = mkHttp 200 (EntryPayload e
                                  (Some "Knowledge entry deleted successfully")
                                  (clock w'))
             /\ loadKnowledgeBase w = (Ok kb, w1)
             /\ findIndex (fun x => String.eqb (id x) i) (entries kb) = Some n
             /\ entries kb !! n = Some e /\ id e = i
             /\ Forall (fun x => id x <> i) (take n (entries kb))
             /\ Spec.holds w' d /\ entries d = delete n (entries kb)).
Proof.
  unfold handleDeleteEntry, try_catch. rewrite bind_unfold.
  destruct (deleteEntry i w) as [[e|err] w1] eqn:E.
  - rewrite (bind_ok Date_now _ w1 w1 (clock w1) eq_refl). unfold ret.
    eexists _, w1. split; [reflexivity|]. right. right.
    apply deleteEntry_effect in E.
    destruct E as (kb & wl & n & d & L & F & Hn & Hid & Hh & Hd).
    exists e, kb, wl, n, d. split; [reflexivity|]. split; [exact L|].
    split; [exact F|]. split; [exact Hn|]. split; [exact Hid|].
    split; [now apply findIndex_before|]. now split.
  - destruct (worded_deleteEntry _ _ _ _ E) as [m Hm].
    unfold not_found_or. rewrite Hm.
    destruct (includes m "not found") eqn:Hinc; unfold fail, ret;
      eexists _, w1; (split; [reflexivity|]).
    + left. split; [reflexivity|]. now exists m, err.
    + right. left. split; [reflexivity|]. now exists m, err.
Qed.

End Handlers.

(** ** The invariant of the store behind the handlers *)

Section HandlersOnReliableStore.
Import Js KnowledgeBase Json Api Requests Effects Worlds.

Lemma invariant_append (es : list KnowledgeEntry) (e : KnowledgeEntry) :
  Spec.invariant es -> id e ∉ map id es ->
  Spec.filled (key e) -> Spec.filled (value e) ->
  Spec.invariant (es ++ [e]).
Proof.
  intros [Hnodup Hfilled] Hfresh Hk Hv. split.
  - rewrite map_app. apply NoDup_app. split; [exact Hnodup|].
    split; [|apply NoDup_singleton].
    intros x Hx Hx'. simpl in Hx'. apply list_elem_of_singleton in Hx'.
    subst x. contradiction.
  - apply Forall_app. split; [exact Hfilled|]. now repeat constructor.
Qed.

Lemma invariant_insert (es : list KnowledgeEntry) (n : nat)
    (old new : KnowledgeEntry) :
  Spec.invariant es -> es !! n = Some old -> id new = id old ->
  Spec.filled (key new) -> Spec.filled (value new) ->
  Spec.invariant (<[n := new]> es).
Proof.
  intros [Hnodup Hfilled] Hn Hid Hk Hv. split.
  - now rewrite (ids_insert _ n old).
  - apply Forall_insert; [exact Hfilled | now split].
Qed.

Lemma invariant_delete (es : list KnowledgeEntry) (n : nat) :
  Spec.invariant es -> Spec.invariant (delete n es).
Proof.
  intros [Hnodup Hfilled]. split.
  - apply (sublist_NoDup _ (map id es)); [exact Hnodup|].
    apply sublist_map, sublist_delete.
  - apply Forall_delete, Hfilled.
Qed.

Lemma invariant_lookup (es : list KnowledgeEntry) (n : nat) (e : KnowledgeEntry) :
  Spec.invariant es -> es !! n = Some e ->
  Spec.filled (key e) /\ Spec.filled (value e).
Proof.
  intros [_ Hfilled] Hn. eapply Forall_lookup_1 in Hfilled; [exact Hfilled | exact Hn].
Qed.

Lemma holds_not_malformed (w : World) (d : KnowledgeBaseDocument) :
  Spec.holds w d -> ~ Spec.malformed w.
Proof. unfold Spec.holds. intros Hd [H|H]; congruence. Qed.

(** X21. Behind the handlers the invariant of the store is kept for
    every request: on a file system that answers every call, when the
    stored entries have unique ids and filled keys and values, they still
    have after [handleCreateEntry] on any body (given that the id drawn
    is new), after [handleUpdateEntry] on any id and any body, and after
    [handleDeleteEntry] on any id. *)
Theorem handlers_keep_invariant (w : World) :
  Spec.reliable w -> ~ Spec.malformed w -> Spec.invariant (Spec.stored_entries w) ->
  (forall body, fresh_id w ->
     Spec.invariant (Spec.stored_entries (snd (handleCreateEntry body w))))
  /\ (forall i body,
        Spec.invariant (Spec.stored_entries (snd (handleUpdateEntry i body w))))
  /\ (forall i, Spec.invariant (Spec.stored_entries (snd (handleDeleteEntry i w)))).
Proof.
  intros Hf Hm Hinv. split; [|split].
  - intros [| |k v t] Hfresh; try exact Hinv.
    rewrite handleCreateEntry_unfold.
    destruct (missing_text k) eqn:Hk; [exact Hinv|].
    destruct (missing_text v) eqn:Hv; [exact Hinv|].
    destruct (createEntry_reliable w (trimmed k) (trimmed v) (tags_kept t) Hf Hm)
      as (w' & E & _ & d & Hh & Hd).
    unfold try_catch. rewrite (bind_ok _ _ _ _ _ E).
    rewrite (bind_ok Date_now _ w' w' (clock w') eq_refl). simpl.
    rewrite (stored_entries_holds w' d Hh), Hd.
    apply missing_text_false in Hk, Hv.
    destruct Hk as (sk & -> & Fk), Hv as (sv & -> & Fv).
    apply invariant_append; [exact Hinv | exact Hfresh | |]; simpl;
      now apply trim_filled, trim_filled.
  - intros i [| |k v t]; try exact Hinv.
    rewrite handleUpdateEntry_unfold.
    destruct (update_rejection k v t) as [[m c]|] eqn:R; [exact Hinv|].
    destruct (updates_given_filled k v t R) as [Fk Fv].
    pose proof (updateEntry_reliable w i (updates_given k v t) Hf Hm) as U.
    unfold try_catch. rewrite bind_unfold.
    destruct (find _ (Spec.stored_entries w)) as [existing|].
    + destruct U as (n & w' & d & E & Hn & Hh & Hd). rewrite E.
      rewrite (bind_ok Date_now _ w' w' (clock w') eq_refl). simpl.
      rewrite (stored_entries_holds w' d Hh), Hd.
      destruct (invariant_lookup _ n existing Hinv Hn) as [Ek Ev].
      apply (invariant_insert _ n existing); [exact Hinv | exact Hn | reflexivity | |];
        simpl; now apply filled_default.
    + destruct U as (kb & w1 & E & _ & Hh & Hd). rewrite E.
      rewrite not_found_or_not_found. simpl.
      now rewrite (stored_entries_holds w1 kb Hh), Hd.
  - intros i.
    pose proof (deleteEntry_reliable w i Hf Hm) as U.
    unfold handleDeleteEntry, try_catch. rewrite bind_unfold.
    destruct (find _ (Spec.stored_entries w)) as [deleted|].
    + destruct U as (n & w' & d & E & Hn & Hh & Hd). rewrite E.
      rewrite (bind_ok Date_now _ w' w' (clock w') eq_refl). simpl.
      rewrite (stored_entries_holds w' d Hh), Hd.
      now apply invariant_delete.
    + destruct U as (kb & w1 & E & Hh & Hd). rewrite E.
      rewrite not_found_or_not_found. simpl.
      now rewrite (stored_entries_holds w1 kb Hh), Hd.
Qed.

Lemma handlers_keep_invariant_witness :
  Spec.invariant (Spec.stored_entries
    (snd (handleCreateEntry
            (JsonFields (VString "   ") (VString "We ship worldwide") VUndefined)
            shop_world)))
  /\ Spec.invariant (Spec.stored_entries
       (snd (handleCreateEntry
               (JsonFields (VString " Delivery") (VString "We ship worldwide")
                           (VArray ["shipping"]))
               shop_world)))
  /\ Spec.invariant (Spec.stored_entries
       (snd (handleUpdateEntry "e3"
               (JsonFields VUndefined (VString "  ") VUndefined) shop_world)))
  /\ Spec.invariant (Spec.stored_entries (snd (handleDeleteEntry "e2" shop_world))).
Proof.
  assert (Hinv : Spec.invariant (Spec.stored_entries shop_world)).
  { split.
    - apply (bool_decide_unpack _). vm_compute. reflexivity.
    - repeat constructor; vm_compute; discriminate. }
  assert (Hm : ~ Spec.malformed shop_world).
  { intros [H|H]; vm_compute in H; discriminate. }
  assert (Hfresh : fresh_id shop_world).
  { apply (bool_decide_unpack _). vm_compute. reflexivity. }
  destruct (handlers_keep_invariant shop_world eq_refl Hm Hinv) as (C & U & D).
  split; [now apply C|]. split; [now apply C|]. split; [apply U | apply D].
Defined.

Lemma getEntryById_document (d : KnowledgeBaseDocument) (w : World) (i : string) :
  faults w = [] -> Spec.holds w d ->
  getEntryById i w
  = (Ok (find (fun e => String.eqb (id e) i) (entries d)), ready w).
Proof.
  intros Hf Hd. unfold getEntryById.
  now rewrite (bind_ok _ _ _ _ _ (getAllEntries_document d w Hf Hd)).
Qed.

Lemma missing_answers (w : World) (d : KnowledgeBaseDocument) (i : string) :
  faults w = [] -> Spec.holds w d ->
  find (fun e => String.eqb (id e) i) (entries d) = None ->
  let missing := mkHttp 404 (Failure "Knowledge entry not found" "ENTRY_NOT_FOUND") in
  handleGetEntry i w = (Ok missing, ready w)
  /\ handleDeleteEntry i w = (Ok missing, ready w)
  /\ (forall k v t, update_rejection k v t = None ->
        handleUpdateEntry i (JsonFields k v t) w = (Ok missing, ready w)).
Proof.
  intros Hf Hd Hfind missing.
  pose proof (find_findIndex (fun x => String.eqb (id x) i) (entries d)) as F.
  rewrite Hfind in F.
  split; [|split].
  - unfold handleGetEntry, try_catch.
    now rewrite (bind_ok _ _ _ _ _ (getEntryById_document d w i Hf Hd)), Hfind.
  - unfold handleDeleteEntry, try_catch, deleteEntry.
    rewrite bind_unfold, (bind_ok _ _ _ _ _ (load_document d w Hf Hd)), F.
    unfold throw. now rewrite not_found_or_not_found.
  - intros k v t R.
    rewrite handleUpdateEntry_unfold, R. unfold try_catch, updateEntry.
    rewrite bind_unfold, (bind_ok _ _ _ _ _ (load_document d w Hf Hd)), F.
    unfold throw. now rewrite not_found_or_not_found.
Qed.

(** X22. On a file system that answers every call and a store that
    holds a document, a request for an id that no entry carries is
    answered 404 by [handleGetEntry], by [handleDeleteEntry] and, for a
    body that passes the checks, by [handleUpdateEntry], and the files
    are as they were; a request for an id that an entry carries is
    answered 200 with the first such entry by [handleGetEntry]. *)
Theorem unknown_id_is_not_found (w : World) (d : KnowledgeBaseDocument) (i : string) :
  Spec.reliable w -> Spec.holds w d ->
  let missing := mkHttp 404 (Failure "Knowledge entry not found" "ENTRY_NOT_FOUND") in
  match find (fun e => String.eqb (id e) i) (entries d) with
  | None =>
      (exists w', handleGetEntry i w = (Ok missing, w') /\ files w' = files w)
      /\ (exists w', handleDeleteEntry i w = (Ok missing, w') /\ files w' = files w)
      /\ (forall k v t, update_rejection k v t = None ->
            exists w', handleUpdateEntry i (JsonFields k v t) w = (Ok missing, w')
                       /\ files w' = files w)
  | Some e =>
      exists w', handleGetEntry i w = (Ok (mkHttp 200 (EntryPayload e None (clock w))), w')
                 /\ files w' = files w
  end.
Proof.
  intros Hf Hd missing.
  destruct (ready_facts w) as (Rf & Rc & _).
  destruct (find _ (entries d)) as [e|] eqn:Hfind.
  - exists (ready w). unfold handleGetEntry, try_catch.
    rewrite (bind_ok _ _ _ _ _ (getEntryById_document d w i Hf Hd)), Hfind.
    rewrite (bind_ok Date_now _ (ready w) (ready w) (clock (ready w)) eq_refl).
    unfold ret. now rewrite Rc.
  - destruct (missing_answers w d i Hf Hd Hfind) as (G & D & U).
    split; [now exists (ready w)|]. split; [now exists (ready w)|].
    intros k v t R. exists (ready w). split; [now apply U | exact Rf].
Qed.

Lemma unknown_id_is_not_found_witness :
  let missing := mkHttp 404 (Failure "Knowledge entry not found" "ENTRY_NOT_FOUND") in
  (exists w', handleGetEntry "nobody" shop_world = (Ok missing, w')
              /\ files w' = files shop_world)
  /\ (exists w', handleDeleteEntry "nobody" shop_world = (Ok missing, w')
                 /\ files w' = files shop_world)
  /\ (forall k v t, update_rejection k v t = None ->
        exists w', handleUpdateEntry "nobody" (JsonFields k v t) shop_world
                   = (Ok missing, w')
                   /\ files w' = files shop_world).
Proof.
  exact (unknown_id_is_not_found shop_world shop "nobody" eq_refl eq_refl).
Defined.

(** X23. On a file system that answers every call and a store whose
    ids are unique, [handleDeleteEntry] on the id of a stored entry
    answers 200 with that entry, and from then on [handleGetEntry] and
    [handleDeleteEntry] on the same id answer 404 and write nothing. *)
Theorem delete_then_not_found (w : World) (d : KnowledgeBaseDocument)
    (i : string) (e : KnowledgeEntry) :
  Spec.reliable w -> Spec.holds w d -> NoDup (map id (entries d)) ->
  find (fun x => String.eqb (id x) i) (entries d) = Some e ->
  let missing := mkHttp 404 (Failure "Knowledge entry not found" "ENTRY_NOT_FOUND") in
  exists w' w1 w2,
    handleDeleteEntry i w
    = (Ok (mkHttp 200 (EntryPayload e (Some "Knowledge entry deleted successfully")
                                    (clock w))), w')
    /\ handleGetEntry i w' = (Ok missing, w1)
    /\ handleDeleteEntry i w' = (Ok missing, w2)
    /\ files w1 = files w' /\ files w2 = files w'.
Proof.
  intros Hf Hd Hnd Hfind missing.
  pose proof (find_findIndex (fun x => String.eqb (id x) i) (entries d)) as F.
  rewrite Hfind in F. destruct F as (n & Hidx & Hn & _).
  destruct (ready_facts w) as (_ & Rc & _ & Rfl & _).
  destruct (save_reliable (set_entries (delete n (entries d)) d) (ready w))
    as (w' & E & S); [congruence|].
  assert (Hc' : clock w' = clock w).
  { destruct S as (_ & _ & Hc & _). congruence. }
  apply saved_holds in S. destruct S as [Hh' Hf'].
  assert (Hgone : find (fun x => String.eqb (id x) i)
                       (entries (stamp_document (clock (ready w))
                                   (set_entries (delete n (entries d)) d))) = None).
  { simpl. now apply find_delete_first. }
  destruct (missing_answers w' _ i Hf' Hh' Hgone) as (G & D & _).
  exists w', (ready w'), (ready w').
  split.
  { unfold handleDeleteEntry, try_catch, deleteEntry.
    rewrite bind_unfold, (bind_ok _ _ _ _ _ (load_document d w Hf Hd)), Hidx, Hn.
    rewrite (bind_ok _ _ _ _ _ E). unfold ret at 1.
    rewrite (bind_ok Date_now _ w' w' (clock w') eq_refl). unfold ret.
    now rewrite Hc'. }
  split; [exact G|]. split; [exact D|]. split; apply ready_facts.
Qed.

Lemma delete_then_not_found_witness :
  let missing := mkHttp 404 (Failure "Knowledge entry not found" "ENTRY_NOT_FOUND") in
  exists w' w1 w2,
    handleDeleteEntry "e2" shop_world
    = (Ok (mkHttp 200 (EntryPayload plans (Some "Knowledge entry deleted successfully")
                                    1700000000000)), w')
    /\ handleGetEntry "e2" w' = (Ok missing, w1)
    /\ handleDeleteEntry "e2" w' = (Ok missing, w2)
    /\ files w1 = files w' /\ files w2 = files w'.
Proof.
  apply (delete_then_not_found shop_world shop "e2" plans);
    [reflexivity | reflexivity | | reflexivity].
  apply (bool_decide_unpack _). vm_compute. reflexivity.
Defined.

End HandlersOnReliableStore.
